(** * vigil: the orchestration core (Backend, Variation, Check, Engine)

    A shallow embedding of [src/core/backend.py], [src/core/variation.py],
    [src/core/check.py], [src/core/__types__.py] and [src/core/engine.py].

    Conventions of the embedding:
    - Python values are immutable Rocq values, so [deepcopy] is the
      identity; every hand-off the source protects with [deepcopy] is a
      plain value here.
    - The configuration maps of a backend ([dict[str, Any]]) are
      [gmap string pyval]; equality of two such maps is Python's [==] on
      the dictionaries.
    - Dictionaries whose insertion order is observable (annotations, the
      groups of a group check) are association lists updated the way a
      Python [dict] is: an existing key keeps its position.
    - Code that can raise returns a [result]; code that mutates the
      backend threads a [Backend.t] through a small state-and-error monad.
    - Wall-clock values ([Slice.timestamp], [duration_s]) are left out. *)

From stdpp Require Import gmap strings list fin_maps pretty.
From Stdlib Require Import ZArith Lia Permutation Ascii SpecFloat.

Open Scope string_scope.
Open Scope list_scope.

#[local] Set Warnings "-register-all".

(** ** Python values *)

Inductive pyval : Type :=
| PNone
| PBool (b : bool)
| PInt (z : Z)
| PFloat (f : spec_float)
| PStr (s : string)
| PList (items : list pyval)
| PDict (entries : list (string * pyval)).

(** [v is None] *)
Definition is_None (v : pyval) : bool :=
  match v with PNone => true | _ => false end.

Abbreviation Config := (gmap string pyval).
Abbreviation dict := (list (string * pyval)).

(** ** Insertion-ordered dictionaries *)

Fixpoint dict_get {V : Type} (k : string) (d : list (string * V)) : option V :=
  match d with
  | [] => None
  | (k', v) :: rest => if String.eqb k k' then Some v else dict_get k rest
  end.

(** [d[k] = v]: overwrite in place, or append a new key at the end. *)
Fixpoint dict_set {V : Type} (k : string) (v : V) (d : list (string * V))
  : list (string * V) :=
  match d with
  | [] => [(k, v)]
  | (k', v') :: rest =>
      if String.eqb k k' then (k', v) :: rest else (k', v') :: dict_set k v rest
  end.

(** [d.update(other)] *)
Definition dict_update {V : Type} (d other : list (string * V)) : list (string * V) :=
  fold_left (fun acc kv => dict_set (fst kv) (snd kv) acc) other d.

Definition dict_keys {V : Type} (d : list (string * V)) : list string := map fst d.

(** ** Exceptions and results *)

Inductive exn : Type :=
| ValueError (msg : string)
| KeyError (key : string)
| TypeError (msg : string)
| OverflowError (msg : string)
| RuntimeError (msg : string).

(** [type(e).__name__]: the exception classes the program raises are
    built-in ones; it defines none of its own. *)
Definition class_name (e : exn) : string :=
  match e with
  | ValueError _ => "ValueError"
  | KeyError _ => "KeyError"
  | TypeError _ => "TypeError"
  | OverflowError _ => "OverflowError"
  | RuntimeError _ => "RuntimeError"
  end.

Inductive result (A : Type) : Type :=
| Ok (a : A)
| Raise (e : exn).
Arguments Ok {A} a.
Arguments Raise {A} e.

Definition is_Ok {A : Type} (r : result A) : bool :=
  match r with Ok _ => true | Raise _ => false end.

(** ** Check.Severity *)

Module Severity.

Inductive t : Type := INFO | PASS | WARN | FAIL.

Definition value (s : t) : Z :=
  match s with INFO => 0 | PASS => 1 | WARN => 2 | FAIL => 3 end.

Definition name (s : t) : string :=
  match s with INFO => "INFO" | PASS => "PASS" | WARN => "WARN" | FAIL => "FAIL" end.

(** [self.name.lower()] *)
Definition label (s : t) : string :=
  match s with INFO => "info" | PASS => "pass" | WARN => "warn" | FAIL => "fail" end.

(** Python's [max(xs, key=...)]: the first element whose key is not
    exceeded, i.e. the running best is replaced only by a strictly
    larger key. *)
Definition max_by_value (first : t) (others : list t) : t :=
  fold_left (fun best s => if (value best <? value s)%Z then s else best) others first.

(** [max(severities, key=lambda s: s.value) if severities else INFO] *)
Definition merge (severities : list t) : t :=
  match severities with
  | [] => INFO
  | s :: rest => max_by_value s rest
  end.

End Severity.

(** ** Input ([__types__.py]) *)

Module Input.

(** [TypedDict] with [id], [data] and the optional key [reference]:
    [reference = None] is a dictionary without the key, [Some PNone] one
    that carries the key with the value [None]. *)
Record t : Type := mk {
  id : string;
  data : pyval;
  reference : option pyval
}.

(** [input.get("reference")] *)
Definition get_reference (input : t) : pyval :=
  match reference input with
  | Some v => v
  | None => PNone
  end.

End Input.

(** ** Backend ([backend.py]) *)

(** What the engine can observe of a backend from outside: the calls of
    [run] with their flags, and the calls that reach the two extension
    points, in the order they happen (the [fn_seen] / [env_applied] lists
    of the tracking backend in [test_engine_cleanup.py]). *)
Inductive Event : Type :=
| EvRun (input : pyval) (cleanup_env cleanup_fn : bool)
| EvCompute (input : pyval) (function : Config)
| EvUpdateEnvironment (environment : Config).

(** The arguments of the [run] calls of a history, and of the calls that
    reached [compute] and [update_environment]. *)
Definition run_calls (h : list Event) : list (pyval * bool * bool) :=
  omap (fun ev => match ev with
                  | EvRun input cleanup_env cleanup_fn => Some (input, cleanup_env, cleanup_fn)
                  | _ => None
                  end) h.

Definition compute_calls (h : list Event) : list (pyval * Config) :=
  omap (fun ev => match ev with
                  | EvCompute input function => Some (input, function)
                  | _ => None
                  end) h.

Definition update_environment_calls (h : list Event) : list Config :=
  omap (fun ev => match ev with
                  | EvUpdateEnvironment environment => Some environment
                  | _ => None
                  end) h.

Module Backend.

Record t (Sys : Type) : Type := mk {
  _base_environment : Config;
  _base_function : Config;
  environment : Config;
  function : Config;
  system : Sys;
  history : list Event
}.
Arguments mk {Sys}.
Arguments _base_environment {Sys}.
Arguments _base_function {Sys}.
Arguments environment {Sys}.
Arguments function {Sys}.
Arguments system {Sys}.
Arguments history {Sys}.

(** The abstract methods of [Backend].  [Sys] is the state of the
    system under evaluation, private to the subclass.  An extension
    point reads the whole object.  [update_environment] answers the
    private state and the value of [self.environment] it leaves: the
    hooks of the repository write that attribute ([DatsLlm] sets its key
    [project_id], [SshWhisper] assigns the whole map), also on the way to
    an exception.  [compute] writes the private state only, as every
    backend of the repository does. *)
Class Impl (Sys : Type) : Type := {
  update_environment : Config -> t Sys -> option exn * (Sys * Config);
  compute : pyval -> Config -> t Sys -> result pyval * Sys
}.

Section Methods.
Context {Sys : Type} `{Impl Sys}.

Definition with_environment (cfg : Config) (self : t Sys) : t Sys :=
  mk (_base_environment self) (_base_function self) cfg (function self)
     (system self) (history self).

Definition with_function (cfg : Config) (self : t Sys) : t Sys :=
  mk (_base_environment self) (_base_function self) (environment self) cfg
     (system self) (history self).

Definition record (ev : Event) (self : t Sys) : t Sys :=
  mk (_base_environment self) (_base_function self) (environment self)
     (function self) (system self) (history self ++ [ev]).

(** [self.update_environment(environment)] *)
Definition call_update_environment (cfg : Config) (self : t Sys)
  : option exn * t Sys :=
  let self := record (EvUpdateEnvironment cfg) self in
  let '(err, (sys, written)) := update_environment cfg self in
  (err, mk (_base_environment self) (_base_function self) written
           (function self) sys (history self)).

(** The hook leaves [self.environment] as it finds it. *)
Definition keeps_environment : Prop :=
  forall (cfg : Config) (self : t Sys),
    snd (snd (update_environment cfg self)) = environment self.

(** [self.compute(input, function)] *)
Definition call_compute (input : pyval) (fn : Config) (self : t Sys)
  : result pyval * t Sys :=
  let self := record (EvCompute input fn) self in
  let '(r, sys) := compute input fn self in
  (r, mk (_base_environment self) (_base_function self) (environment self)
         (function self) sys (history self)).

(** [x or {}] on an optional dictionary *)
Definition or_empty (cfg : option Config) : Config :=
  match cfg with Some c => c | None => ∅ end.

(** [Backend.__init__] *)
Definition __init__ (environment function : option Config) (sys : Sys)
  : result (t Sys) :=
  let self := mk (or_empty environment) (or_empty function)
                 (or_empty environment) (or_empty function) sys [] in
  match call_update_environment (Backend.environment self) self with
  | (Some e, _) => Raise e
  | (None, self) => Ok self
  end.

(** [cfg = deepcopy(self.environment); cfg.update(environment);
     self.environment = cfg; self.update_environment(deepcopy(cfg))] *)
Definition set_environment (environment : Config) (self : t Sys)
  : result unit * t Sys :=
  let cfg := environment ∪ Backend.environment self in
  let self := with_environment cfg self in
  match call_update_environment cfg self with
  | (Some e, self) => (Raise e, self)
  | (None, self) => (Ok tt, self)
  end.

(** [cfg = deepcopy(self.function); cfg.update(function);
     self.function = cfg] *)
Definition set_function (function : Config) (self : t Sys)
  : result unit * t Sys :=
  let cfg := function ∪ Backend.function self in
  (Ok tt, with_function cfg self).

(** The state in which the [finally] block of [run] calls
    [update_environment]. *)
Definition before_apply (cleanup_fn : bool) (self : t Sys) : t Sys :=
  let self := if cleanup_fn then with_function (_base_function self) self else self in
  with_environment (_base_environment self) self.

(** The [finally] block of [run]. An exception raised inside it
    replaces the pending outcome of the [try] block. *)
Definition run_finally (cleanup_env cleanup_fn : bool) (pending : result pyval)
    (self : t Sys) : result pyval * t Sys :=
  let self := if cleanup_fn then with_function (_base_function self) self else self in
  if cleanup_env then
    let self := with_environment (_base_environment self) self in
    match call_update_environment (Backend.environment self) self with
    | (Some e, self) => (Raise e, self)
    | (None, self) => (pending, self)
    end
  else (pending, self).

(** [Backend.run] *)
Definition run (input : pyval) (cleanup_env cleanup_fn : bool) (self : t Sys)
  : result pyval * t Sys :=
  let self := record (EvRun input cleanup_env cleanup_fn) self in
  let '(pending, self) := call_compute input (Backend.function self) self in
  run_finally cleanup_env cleanup_fn pending self.

(** [Backend.reset] *)
Definition reset (self : t Sys) : result unit * t Sys :=
  let self := with_function (_base_function self) self in
  let self := with_environment (_base_environment self) self in
  match call_update_environment (Backend.environment self) self with
  | (Some e, self) => (Raise e, self)
  | (None, self) => (Ok tt, self)
  end.

End Methods.

End Backend.

(** ** State-and-error monad over the backend *)

Definition M (S A : Type) : Type := S -> result A * S.

Definition ret {S A : Type} (a : A) : M S A := fun s => (Ok a, s).

Definition raise {S A : Type} (e : exn) : M S A := fun s => (Raise e, s).

Definition lift {S A : Type} (r : result A) : M S A := fun s => (r, s).

Definition gets {S A : Type} (f : S -> A) : M S A := fun s => (Ok (f s), s).

Definition bind {S A B : Type} (m : M S A) (k : A -> M S B) : M S B :=
  fun s =>
    match m s with
    | (Ok a, s') => k a s'
    | (Raise e, s') => (Raise e, s')
    end.

Notation "x <- m ;; k" := (bind m (fun x => k))
  (at level 100, m at next level, right associativity).

(** ** Variation ([variation.py]) *)

Module Variation.

Inductive Intent : Type := INPUT | FUNCTION | ENVIRONMENT.

Definition Intent_eqb (a b : Intent) : bool :=
  match a, b with
  | INPUT, INPUT | FUNCTION, FUNCTION | ENVIRONMENT, ENVIRONMENT => true
  | _, _ => false
  end.

(** The three concrete bases of [variation.py].  Each carries the class
    name, the object's [hash] and its [vary] hook.  [vary] receives a
    copy; it answers with the copy as it left it (it may have mutated
    it in place) and the value it returned ([None] when it returned
    nothing), or raises. *)
Inductive t : Type :=
| InputVariation (name : string) (hash : Z)
    (vary : list Input.t -> result (list Input.t * option (list Input.t)))
| FunctionVariation (name : string) (hash : Z)
    (vary : Config -> result (Config * option Config))
| EnvironmentVariation (name : string) (hash : Z)
    (vary : Config -> result (Config * option Config)).

Definition name (v : t) : string :=
  match v with
  | InputVariation n _ _ | FunctionVariation n _ _ | EnvironmentVariation n _ _ => n
  end.

Definition hash (v : t) : Z :=
  match v with
  | InputVariation _ h _ | FunctionVariation _ h _ | EnvironmentVariation _ h _ => h
  end.

Definition intent (v : t) : Intent :=
  match v with
  | InputVariation _ _ _ => INPUT
  | FunctionVariation _ _ _ => FUNCTION
  | EnvironmentVariation _ _ _ => ENVIRONMENT
  end.

(** [returned if returned is not None else copied] *)
Definition returned_or {A : Type} (copied : A) (returned : option A) : A :=
  match returned with
  | Some r => r
  | None => copied
  end.

Section Apply.
Context {Sys : Type} `{Backend.Impl Sys}.

(** [apply(self, inputs, backend)] of the three classes *)
Definition apply (self : t) (inputs : list Input.t)
  : M (Backend.t Sys) (list Input.t) :=
  match self with
  | InputVariation _ _ vary =>
      r <- lift (vary inputs) ;;
      ret (returned_or (fst r) (snd r))
  | FunctionVariation _ _ vary =>
      current <- gets Backend.function ;;
      r <- lift (vary current) ;;
      _ <- Backend.set_function (returned_or (fst r) (snd r)) ;;
      ret inputs
  | EnvironmentVariation _ _ vary =>
      current <- gets Backend.environment ;;
      r <- lift (vary current) ;;
      _ <- Backend.set_environment (returned_or (fst r) (snd r)) ;;
      ret inputs
  end.

End Apply.

End Variation.

(** ** Slice ([__types__.py]) *)

Module Slice.

Record t : Type := mk {
  input : Input.t;
  output : pyval;
  function : Config;
  environment : Config;
  variation : option Variation.t;
  meta : dict
}.

Definition input_id (self : t) : string := Input.id (input self).

Definition id (self : t) : string :=
  match variation self with
  | None => "input-" +:+ input_id self +:+ "-reference"
  | Some v =>
      "input-" +:+ input_id self +:+ "-variation-" +:+ Variation.name v
      +:+ "-" +:+ pretty (Variation.hash v)
  end.

End Slice.

(** ** Check ([check.py]) *)

Module Check.

Inductive Intent : Type := UNARY | REFERENCE | GROUP.

(** What a concrete [check] hook answers: a severity and an annotation
    (a dictionary or [None]), or an exception. *)
Abbreviation outcome := (result (Severity.t * option dict)).

(** The three concrete bases of [check.py] with their [check] hook. *)
Inductive t : Type :=
| UnaryCheck (name : string) (check : Slice.t -> outcome)
| ReferenceCheck (name : string) (check : Slice.t -> Slice.t -> outcome)
| GroupCheck (name : string) (check : list Slice.t -> outcome).

Definition name (c : t) : string :=
  match c with
  | UnaryCheck n _ | ReferenceCheck n _ | GroupCheck n _ => n
  end.

Definition intent (c : t) : Intent :=
  match c with
  | UnaryCheck _ _ => UNARY
  | ReferenceCheck _ _ => REFERENCE
  | GroupCheck _ _ => GROUP
  end.

(** The invocations of the [check] hook made by one [evaluate], in
    order. *)
Inductive Call : Type :=
| CallUnary (slice : Slice.t)
| CallReference (slice reference : Slice.t)
| CallGroup (slices : list Slice.t).

(** [{"severity": severity.label, **(annotation or {})}] *)
Definition entry (severity : Severity.t) (annotation : option dict) : dict :=
  dict_update [("severity", PStr (Severity.label severity))]
              (match annotation with Some a => a | None => [] end).

(** *** UnaryCheck.evaluate *)

Fixpoint unary_loop (check : Slice.t -> outcome) (slices : list Slice.t)
    (severities : list Severity.t) (result_ : dict) (calls : list Call)
  : result (list Severity.t * dict) * list Call :=
  match slices with
  | [] => (Ok (severities, result_), calls)
  | slice :: rest =>
      let calls := calls ++ [CallUnary slice] in
      match check slice with
      | Raise e => (Raise e, calls)
      | Ok (severity, annotation) =>
          unary_loop check rest (severities ++ [severity])
            (dict_set (Slice.id slice) (PDict (entry severity annotation)) result_)
            calls
      end
  end.

Definition unary_evaluate (check : Slice.t -> outcome)
    (slices references : list Slice.t)
  : result (Severity.t * dict) * list Call :=
  match slices with
  | [] => (Raise (ValueError "Unary checks require at least one slice."), [])
  | _ =>
      match unary_loop check slices [] [] [] with
      | (Raise e, calls) => (Raise e, calls)
      | (Ok (severities, result_), calls) =>
          (Ok (Severity.merge severities, result_), calls)
      end
  end.

(** *** ReferenceCheck.evaluate *)

Definition count_mismatch_msg (n m : nat) : string :=
  "Mismatched number of slices and reference slices: "
  +:+ pretty n +:+ " != " +:+ pretty m.

Definition alignment_msg (slice_input_id reference_input_id : string) : string :=
  "Mismatched slice/reference alignment: input_id "
  +:+ slice_input_id +:+ " != " +:+ reference_input_id.

(** The body of [for slice, reference in zip(slices, references)] *)
Fixpoint reference_loop (check : Slice.t -> Slice.t -> outcome)
    (pairs : list (Slice.t * Slice.t))
    (severities : list Severity.t) (result_ : dict) (calls : list Call)
  : result (list Severity.t * dict) * list Call :=
  match pairs with
  | [] => (Ok (severities, result_), calls)
  | (slice, reference) :: rest =>
      if negb (String.eqb (Slice.input_id slice) (Slice.input_id reference)) then
        (Raise (ValueError (alignment_msg (Slice.input_id slice)
                                          (Slice.input_id reference))), calls)
      else
        let calls := calls ++ [CallReference slice reference] in
        match check slice reference with
        | Raise e => (Raise e, calls)
        | Ok (severity, annotation) =>
            reference_loop check rest (severities ++ [severity])
              (dict_set (Slice.id slice) (PDict (entry severity annotation)) result_)
              calls
        end
  end.

Definition reference_evaluate (check : Slice.t -> Slice.t -> outcome)
    (slices references : list Slice.t)
  : result (Severity.t * dict) * list Call :=
  match slices with
  | [] => (Raise (ValueError "Reference checks require at least one slice."), [])
  | _ =>
      if negb (Nat.eqb (length slices) (length references)) then
        (Raise (ValueError (count_mismatch_msg (length slices) (length references))), [])
      else
        match reference_loop check (zip slices references) [] [] [] with
        | (Raise e, calls) => (Raise e, calls)
        | (Ok (severities, result_), calls) =>
            (Ok (Severity.merge severities, result_), calls)
        end
  end.

(** *** GroupCheck.evaluate *)

(** [groups.setdefault(key, []).append(s)] *)
Definition setdefault_append (key : string) (s : Slice.t)
    (groups : list (string * list Slice.t)) : list (string * list Slice.t) :=
  match dict_get key groups with
  | Some group => dict_set key (group ++ [s]) groups
  | None => dict_set key [s] groups
  end.

(** The first loop of [GroupCheck.evaluate]; [str(s.input_id)] is
    [s.input_id], an input id being a [str]. *)
Definition group_by_input_id (slices : list Slice.t) : list (string * list Slice.t) :=
  fold_left (fun groups s => setdefault_append (Slice.input_id s) s groups) slices [].

Record GroupAcc : Type := mkGroupAcc {
  acc_severities : list Severity.t;
  acc_results : dict;
  acc_skipped : list string;
  acc_calls : list Call
}.

(** The body of [for input_id, group in groups.items()] *)
Fixpoint group_loop (check : list Slice.t -> outcome)
    (groups : list (string * list Slice.t)) (acc : GroupAcc)
  : result GroupAcc * list Call :=
  match groups with
  | [] => (Ok acc, acc_calls acc)
  | (input_id, group) :: rest =>
      if Nat.ltb (length group) 2 then
        group_loop check rest
          (mkGroupAcc (acc_severities acc) (acc_results acc)
                      (acc_skipped acc ++ [input_id]) (acc_calls acc))
      else
        let calls := acc_calls acc ++ [CallGroup group] in
        match check group with
        | Raise e => (Raise e, calls)
        | Ok (severity, annotation) =>
            group_loop check rest
              (mkGroupAcc (acc_severities acc ++ [severity])
                          (dict_set input_id (PDict (entry severity annotation))
                                    (acc_results acc))
                          (acc_skipped acc) calls)
        end
  end.

(** The dictionary [out] returned by [GroupCheck.evaluate] *)
Definition group_out (results : dict) (skipped : list string) : dict :=
  [ ("groups", PDict results);
    ("n_groups", PInt (Z.of_nat (length results)));
    ("skipped", PList (map PStr skipped));
    ("n_skipped", PInt (Z.of_nat (length skipped))) ].

Definition group_evaluate (check : list Slice.t -> outcome)
    (slices references : list Slice.t)
  : result (Severity.t * dict) * list Call :=
  match slices with
  | [] => (Raise (ValueError "Group checks require at least one slice."), [])
  | _ =>
      match group_loop check (group_by_input_id slices) (mkGroupAcc [] [] [] []) with
      | (Raise e, calls) => (Raise e, calls)
      | (Ok acc, calls) =>
          let merged :=
            match acc_severities acc with
            | [] => Severity.INFO
            | severities => Severity.merge severities
            end in
          (Ok (merged, group_out (acc_results acc) (acc_skipped acc)), calls)
      end
  end.

(** [check.evaluate(slices, references)], by dynamic dispatch *)
Definition evaluate (c : t) (slices references : list Slice.t)
  : result (Severity.t * dict) * list Call :=
  match c with
  | UnaryCheck _ check => unary_evaluate check slices references
  | ReferenceCheck _ check => reference_evaluate check slices references
  | GroupCheck _ check => group_evaluate check slices references
  end.

End Check.

(** ** Report: the reporting sink the engine drives ([report.py]) *)

Module Report.

(** The calls the engine makes on the report, in order. *)
Inductive Entry : Type :=
| StartVariation (index total : nat) (variation : option Variation.t)
| FinishVariation (index total : nat) (variation : option Variation.t) (n_inputs : nat)
| StartCheck (index total : nat) (check_name : string)
| FinishCheck (check_name : string) (severity : Severity.t) (annotation : dict).

Definition t : Type := list Entry.

Definition start_variation (index total : nat) (variation : option Variation.t)
    (self : t) : t :=
  self ++ [StartVariation index total variation].

Definition finish_variation (index total : nat) (variation : option Variation.t)
    (n_inputs : nat) (self : t) : t :=
  self ++ [FinishVariation index total variation n_inputs].

Definition start_check (index total : nat) (check_name : string) (self : t) : t :=
  self ++ [StartCheck index total check_name].

Definition finish_check (check_name : string) (severity : Severity.t)
    (annotation : dict) (self : t) : t :=
  self ++ [FinishCheck check_name severity annotation].

End Report.

(** ** Engine ([engine.py]) *)

Module Engine.

Section WithBackend.
Context {Sys : Type} `{Backend.Impl Sys}.

Abbreviation Eng := (M (Backend.t Sys)).

(** *** _build_references *)

(** ["provided" if reference_output is not None else "executed"] *)
Definition source_of (reference_output : pyval) : string :=
  if negb (is_None reference_output) then "provided" else "executed".

(** One iteration of the loop of [_build_references]: the reference
    slice of [input]. *)
Definition build_reference (input : Input.t) : Eng Slice.t :=
  let reference_output := Input.get_reference input in
  function_snapshot <- gets Backend.function ;;
  environment_snapshot <- gets Backend.environment ;;
  output <- (if negb (is_None reference_output)
             then ret reference_output
             else Backend.run (Input.data input) true true) ;;
  ret (Slice.mk input output function_snapshot environment_snapshot None
                [("source", PStr (source_of reference_output))]).

Fixpoint build_references_from (inputs : list Input.t)
    (references : gmap string Slice.t) : Eng (gmap string Slice.t) :=
  match inputs with
  | [] => ret references
  | input :: rest =>
      slice <- build_reference input ;;
      build_references_from rest (<[Input.id input := slice]> references)
  end.

Definition _build_references (inputs : list Input.t) : Eng (gmap string Slice.t) :=
  build_references_from inputs ∅.

(** *** _run_variation *)

(** [None if variation is None else getattr(variation, "intent", None)] *)
Definition intent_of (variation : option Variation.t) : option Variation.Intent :=
  match variation with
  | None => None
  | Some v => Some (Variation.intent v)
  end.

(** [intent == wanted] *)
Definition intent_is (intent : option Variation.Intent) (wanted : Variation.Intent)
  : bool :=
  match intent with
  | None => false
  | Some i => Variation.Intent_eqb i wanted
  end.

(** [input_index == total_inputs - 1] *)
Definition is_last_input (input_index total_inputs : nat) : bool :=
  (Z.of_nat input_index =? Z.of_nat total_inputs - 1)%Z.

(** One iteration of the loop of [_run_variation]. *)
Definition run_input (variation : option Variation.t) (total_inputs : nat)
    (input_index : nat) (input : Input.t) : Eng Slice.t :=
  let intent := intent_of variation in
  let is_last := is_last_input input_index total_inputs in
  let cleanup_function := is_last && intent_is intent Variation.FUNCTION in
  let cleanup_environment := is_last && intent_is intent Variation.ENVIRONMENT in
  function_snapshot <- gets Backend.function ;;
  environment_snapshot <- gets Backend.environment ;;
  output <- Backend.run (Input.data input) cleanup_environment cleanup_function ;;
  ret (Slice.mk input output function_snapshot environment_snapshot variation []).

(** [for input_index, input in enumerate(inputs)], from index
    [input_index] on. *)
Fixpoint run_inputs_from (variation : option Variation.t) (total_inputs : nat)
    (input_index : nat) (inputs : list Input.t) (slices : list Slice.t)
  : Eng (list Slice.t) :=
  match inputs with
  | [] => ret slices
  | input :: rest =>
      slice <- run_input variation total_inputs input_index input ;;
      run_inputs_from variation total_inputs (S input_index) rest (slices ++ [slice])
  end.

Definition _run_variation (inputs : list Input.t) (variation : option Variation.t)
  : Eng (list Slice.t) :=
  run_inputs_from variation (length inputs) 0 inputs [].

(** *** run *)

(** One variation pass: the body of the first loop of [run]. *)
Definition variation_pass (inputs : list Input.t) (total_variations : nat)
    (variation_index : nat) (variation : option Variation.t)
    (report : Report.t) (all_slices : list Slice.t)
  : Eng (Report.t * list Slice.t) :=
  let report := Report.start_variation variation_index total_variations variation report in
  applied_inputs <- (match variation with
                     | None => ret inputs
                     | Some v => Variation.apply v inputs
                     end) ;;
  slices <- _run_variation applied_inputs variation ;;
  let report := Report.finish_variation variation_index total_variations variation
                  (length applied_inputs) report in
  ret (report, all_slices ++ slices).

Fixpoint variation_passes_from (inputs : list Input.t) (total_variations : nat)
    (variation_index : nat) (variations : list (option Variation.t))
    (report : Report.t) (all_slices : list Slice.t)
  : Eng (Report.t * list Slice.t) :=
  match variations with
  | [] => ret (report, all_slices)
  | variation :: rest =>
      r <- variation_pass inputs total_variations variation_index variation
             report all_slices ;;
      variation_passes_from inputs total_variations (S variation_index) rest
        (fst r) (snd r)
  end.

(** [[references_by_input_id[slice.input_id] for slice in all_slices]] *)
Fixpoint lookup_references (references_by_input_id : gmap string Slice.t)
    (all_slices : list Slice.t) : result (list Slice.t) :=
  match all_slices with
  | [] => Ok []
  | slice :: rest =>
      match references_by_input_id !! Slice.input_id slice with
      | None => Raise (KeyError (Slice.input_id slice))
      | Some reference =>
          match lookup_references references_by_input_id rest with
          | Raise e => Raise e
          | Ok references => Ok (reference :: references)
          end
      end
  end.

(** The [references] argument the engine builds for one check. *)
Definition references_for (check : Check.t)
    (references_by_input_id : gmap string Slice.t) (all_slices : list Slice.t)
  : result (list Slice.t) :=
  match Check.intent check with
  | Check.REFERENCE => lookup_references references_by_input_id all_slices
  | _ => Ok []
  end.

(** One check pass: the body of the second loop of [run].  Besides the
    report it answers the [check] invocations [evaluate] made. *)
Definition check_pass (references_by_input_id : gmap string Slice.t)
    (all_slices : list Slice.t) (total_checks : nat) (check_index : nat)
    (check : Check.t) (report : Report.t) : result Report.t * list Check.Call :=
  let report := Report.start_check check_index total_checks (Check.name check) report in
  match references_for check references_by_input_id all_slices with
  | Raise e => (Raise e, [])
  | Ok references =>
      match Check.evaluate check all_slices references with
      | (Raise e, calls) => (Raise e, calls)
      | (Ok (severity, annotation), calls) =>
          (Ok (Report.finish_check (Check.name check) severity annotation report),
           calls)
      end
  end.

Fixpoint check_passes_from (references_by_input_id : gmap string Slice.t)
    (all_slices : list Slice.t) (total_checks : nat) (check_index : nat)
    (checks : list Check.t) (report : Report.t) : result Report.t :=
  match checks with
  | [] => Ok report
  | check :: rest =>
      match fst (check_pass references_by_input_id all_slices total_checks
                            check_index check report) with
      | Raise e => Raise e
      | Ok report =>
          check_passes_from references_by_input_id all_slices total_checks
            (S check_index) rest report
      end
  end.

(** [Engine.run] *)
Definition run (report : Report.t) (inputs : list Input.t)
    (variations : list (option Variation.t)) (checks : list Check.t)
  : Eng Report.t :=
  references_by_input_id <- _build_references inputs ;;
  r <- variation_passes_from inputs (length variations) 0 variations report [] ;;
  lift (check_passes_from references_by_input_id (snd r) (length checks) 0
                          checks (fst r)).

End WithBackend.

End Engine.

(** ** What a batch is expected to leave in the history *)

(** [b] when [rest] is empty, i.e. when the input in hand is the last one. *)
Definition when_last (rest : list Input.t) (b : bool) : bool :=
  match rest with
  | [] => b
  | _ :: _ => false
  end.

(** The events of one [Backend.run]: the call, the [compute] it makes
    with the function configuration [fn], and the [update_environment]
    of the cleanup when [cleanup_env] is set. *)
Definition input_events (fn base_env : Config) (cleanup_env cleanup_fn : bool)
    (input : Input.t) : list Event :=
  [EvRun (Input.data input) cleanup_env cleanup_fn; EvCompute (Input.data input) fn]
  ++ (if cleanup_env then [EvUpdateEnvironment base_env] else []).

(** The events of a batch, input by input: cleanup is requested for the
    last input only, and only for the configuration the intent names. *)
Fixpoint batch_events (intent : option Variation.Intent) (fn base_env : Config)
    (inputs : list Input.t) : list (list Event) :=
  match inputs with
  | [] => []
  | input :: rest =>
      input_events fn base_env
        (when_last rest (Engine.intent_is intent Variation.ENVIRONMENT))
        (when_last rest (Engine.intent_is intent Variation.FUNCTION)) input
      :: batch_events intent fn base_env rest
  end.

(** The [run] calls of a batch with their two cleanup flags. *)
Fixpoint batch_flags (intent : option Variation.Intent) (inputs : list Input.t)
  : list (pyval * bool * bool) :=
  match inputs with
  | [] => []
  | input :: rest =>
      (Input.data input,
       when_last rest (Engine.intent_is intent Variation.ENVIRONMENT),
       when_last rest (Engine.intent_is intent Variation.FUNCTION))
      :: batch_flags intent rest
  end.

(** ** What the checks are expected to answer *)

(** A slice and its reference agree on the input id. *)
Definition aligned (pair : Slice.t * Slice.t) : Prop :=
  Slice.input_id (fst pair) = Slice.input_id (snd pair).

Definition call_of_pair (pair : Slice.t * Slice.t) : Check.Call :=
  Check.CallReference (fst pair) (snd pair).

(** The annotation built from the answers of the [check] hook: one
    entry per key, in order, a later entry for the same key replacing the
    earlier one in place. *)
Definition annotate (keyed : list (string * (Severity.t * option dict))) (start : dict)
  : dict :=
  fold_left (fun d ko => dict_set (fst ko) (PDict (Check.entry (fst (snd ko)) (snd (snd ko)))) d)
            keyed start.

(** The distinct keys of a list, in order of first appearance. *)
Fixpoint first_occurrences (keys : list string) : list string :=
  match keys with
  | [] => []
  | key :: rest =>
      key :: List.filter (fun k => negb (String.eqb k key)) (first_occurrences rest)
  end.

(** The slices of one input id, in slice order. *)
Definition members (key : string) (slices : list Slice.t) : list Slice.t :=
  List.filter (fun s => String.eqb (Slice.input_id s) key) slices.

(** The partition the spec describes: one group per input id, ids in
    order of first appearance, slice order kept inside a group. *)
Definition partition_by_input_id (slices : list Slice.t) : list (string * list Slice.t) :=
  map (fun key => (key, members key slices)) (first_occurrences (map Slice.input_id slices)).

(** [len(group) < 2] *)
Definition is_small (group : string * list Slice.t) : bool :=
  Nat.ltb (length (snd group)) 2.

Definition evaluated_groups (groups : list (string * list Slice.t))
  : list (string * list Slice.t) :=
  List.filter (fun g => negb (is_small g)) groups.

Definition skipped_ids (groups : list (string * list Slice.t)) : list string :=
  map fst (List.filter is_small groups).

Definition call_of_group (group : string * list Slice.t) : Check.Call :=
  Check.CallGroup (snd group).

(** The intent of a variation asks for no backend cleanup. *)
Definition leaves_backend (variation : option Variation.t) : Prop :=
  Engine.intent_of variation = None
  \/ Engine.intent_of variation = Some Variation.INPUT.

(** The inputs whose reference slice needs the backend: [input.get("reference")]
    is [None]. *)
Definition needs_run (input : Input.t) : bool := is_None (Input.get_reference input).

(** The reference map after storing [slices] in order, each under its
    input id. *)
Definition store_all (slices : list Slice.t) (references : gmap string Slice.t)
  : gmap string Slice.t :=
  fold_left (fun m s => <[Slice.input_id s := s]> m) slices references.

(** [slice] is a reference slice of [input]: taken from the declared
    value, or produced by an execution. *)
Definition reference_slice_of (input : Input.t) (slice : Slice.t) : Prop :=
  Slice.input slice = input
  /\ Slice.variation slice = None
  /\ Slice.meta slice = [("source", PStr (Engine.source_of (Input.get_reference input)))]
  /\ (needs_run input = false -> Slice.output slice = Input.get_reference input).

(** Current configuration equals base configuration. *)
Definition at_base {Sys : Type} (self : Backend.t Sys) : Prop :=
  Backend.environment self = Backend._base_environment self
  /\ Backend.function self = Backend._base_function self.

(** ** Concrete collaborators used by the tests of the repository *)

(** [TrackingBackend] of [test/test_engine_cleanup.py]: it records what
    reaches the extension points and always answers [{"ok": True}]. *)
Module TrackingBackend.

Record state : Type := mk_state {
  env_applied : list Config;
  fn_seen : list Config
}.

#[global] Instance impl : Backend.Impl state := {|
  Backend.update_environment environment self :=
    (None, (mk_state (env_applied (Backend.system self) ++ [environment])
                     (fn_seen (Backend.system self)),
            Backend.environment self));
  Backend.compute input function self :=
    (Ok (PDict [("ok", PBool true)]),
     mk_state (env_applied (Backend.system self))
              (fn_seen (Backend.system self) ++ [function]))
|}.

(** [super().__init__(environment={"env": "base"}, function={"fn": "base"})] *)
Definition new : result (Backend.t state) :=
  Backend.__init__ (Some {["env" := PStr "base"]}) (Some {["fn" := PStr "base"]})
                   (mk_state [] []).

(** The object [new] answers. *)
Definition fresh : Backend.t state :=
  Backend.mk {["env" := PStr "base"]} {["fn" := PStr "base"]}
             {["env" := PStr "base"]} {["fn" := PStr "base"]}
             (mk_state [ {["env" := PStr "base"]} ] [])
             [EvUpdateEnvironment {["env" := PStr "base"]}].

(** [SetFn(value)]: [function["fn"] = value; return function] *)
Definition SetFn (value : string) : Variation.t :=
  Variation.FunctionVariation "SetFn" 1
    (fun function => Ok (<["fn" := PStr value]> function,
                         Some (<["fn" := PStr value]> function))).

(** [SetEnv(value)] *)
Definition SetEnv (value : string) : Variation.t :=
  Variation.EnvironmentVariation "SetEnv" 2
    (fun environment => Ok (<["env" := PStr value]> environment,
                            Some (<["env" := PStr value]> environment))).

(** [AlwaysPass] *)
Definition AlwaysPass : Check.t :=
  Check.UnaryCheck "AlwaysPass" (fun _ => Ok (Severity.PASS, Some [])).

(** A batch of three inputs without references. *)
Definition three_inputs : list Input.t :=
  [Input.mk "0" (PInt 1) None; Input.mk "1" (PInt 2) None; Input.mk "2" (PInt 3) None].

(** The run of [test_function_and_environment_cleanup]. *)
Definition test_inputs : list Input.t :=
  [Input.mk "0" (PInt 1) None; Input.mk "1" (PInt 2) None].

Definition test_variations : list (option Variation.t) :=
  [Some (SetFn "var"); Some (SetEnv "var")].

Definition test_checks : list Check.t := [AlwaysPass].

(** A backend left with a mutated function configuration by a caller
    of [set_function]. *)
Definition mutated : Backend.t state :=
  snd (Backend.set_function {["fn" := PStr "var"]} fresh).

(** An input that declares its reference output. *)
Definition provided_input : Input.t := Input.mk "0" (PInt 1) (Some (PInt 7)).

(** The reference map the engine builds for [test_inputs]. *)
Definition test_references : gmap string Slice.t :=
  match fst (Engine._build_references test_inputs fresh) with
  | Ok references => references
  | Raise _ => ∅
  end.

(** An input variation that gives every input a new id. *)
Definition Rename : Variation.t :=
  Variation.InputVariation "Rename" 3
    (fun inputs =>
       Ok (inputs,
           Some (map (fun input => Input.mk (Input.id input +:+ "-v") (Input.data input)
                                            (Input.reference input)) inputs))).

(** A reference check in the manner of [MatchesBaseline] that accepts
    every pair. *)
Definition AcceptsAll : Check.t :=
  Check.ReferenceCheck "AcceptsAll" (fun _ _ => Ok (Severity.PASS, None)).

(** A slice of an input whose id no original input has. *)
Definition foreign_slices : list Slice.t :=
  [Slice.mk (Input.mk "0-v" (PInt 1) None) (PDict [("ok", PBool true)])
            {["fn" := PStr "base"]} {["env" := PStr "base"]} (Some Rename) []].

End TrackingBackend.

(** Slices of two inputs [a] and [b], and hooks that answer the same for
    every argument. *)
Module Samples.

Definition slice_of (id : string) (output : Z) (variation : option Variation.t)
  : Slice.t :=
  Slice.mk (Input.mk id (PInt 0) None) (PInt output) ∅ ∅ variation [].

Definition a1 : Slice.t := slice_of "a" 1 (Some (TrackingBackend.SetFn "x")).
Definition b1 : Slice.t := slice_of "b" 2 (Some (TrackingBackend.SetFn "x")).
Definition a2 : Slice.t := slice_of "a" 3 (Some (TrackingBackend.SetEnv "y")).
Definition a_reference : Slice.t := slice_of "a" 1 None.
Definition b_reference : Slice.t := slice_of "b" 2 None.

Definition warn_group (group : list Slice.t) : Check.outcome :=
  Ok (Severity.WARN, Some [("n", PInt (Z.of_nat (length group)))]).

Definition pass_pair (slice reference : Slice.t) : Check.outcome :=
  Ok (Severity.PASS, None).

End Samples.

(** A backend whose [compute] always raises. *)
Module FailingBackend.

Inductive state : Type := Down.

#[global] Instance impl : Backend.Impl state := {|
  Backend.update_environment environment self := (None, (Down, Backend.environment self));
  Backend.compute input function self := (Raise (RuntimeError "compute failed"), Down)
|}.

Definition fresh : Backend.t state :=
  Backend.mk {["env" := PStr "base"]} {["fn" := PStr "base"]}
             {["env" := PStr "var"]} {["fn" := PStr "var"]} Down [].

End FailingBackend.

(** A backend whose system is unreachable: [compute] raises, and so does
    [update_environment]. *)
Module UnreachableBackend.

Inductive state : Type := Unreachable.

#[global] Instance impl : Backend.Impl state := {|
  Backend.update_environment environment self :=
    (Some (RuntimeError "update failed"), (Unreachable, Backend.environment self));
  Backend.compute input function self :=
    (Raise (RuntimeError "compute failed"), Unreachable)
|}.

Definition fresh : Backend.t state :=
  Backend.mk {["env" := PStr "base"]} {["fn" := PStr "base"]}
             {["env" := PStr "var"]} {["fn" := PStr "var"]} Unreachable [].

End UnreachableBackend.

(** A backend with the [update_environment] of [DatsLlm]
    ([studies/llm/dats_llm_backend.py]): it stores in
    [self.environment["project_id"]] the id the client answers for
    [environment["project_name"]].  The DATS server is not part of the
    program: the private state is the id it answers; [compute] answers
    the project id it reads from the environment. *)
Module ProjectBackend.

Definition state : Type := Z.

#[global] Instance impl : Backend.Impl state := {|
  Backend.update_environment environment self :=
    match environment !! "project_name", environment !! "recreate_project" with
    | None, _ => (Some (KeyError "project_name"),
                  (Backend.system self, Backend.environment self))
    | Some _, None => (Some (KeyError "recreate_project"),
                       (Backend.system self, Backend.environment self))
    | Some _, Some _ =>
        (None, (Backend.system self,
                <["project_id" := PInt (Backend.system self)]>
                  (Backend.environment self)))
    end;
  Backend.compute input function self :=
    match Backend.environment self !! "project_id" with
    | Some id => (Ok id, Backend.system self)
    | None => (Raise (KeyError "project_id"), Backend.system self)
    end
|}.

(** [super().__init__(environment={"project_name": ..., "recreate_project":
    ...}, function=...)] on a server that answers the id 7. *)
Definition new : result (Backend.t state) :=
  Backend.__init__
    (Some {["project_name" := PStr "vigil"; "recreate_project" := PBool false]})
    (Some {["llm_job_type" := PStr "SENTENCE_ANNOTATION"]}) 7%Z.

Definition base_environment : Config :=
  {["project_name" := PStr "vigil"; "recreate_project" := PBool false]}.

(** The object [new] answers. *)
Definition fresh : Backend.t state :=
  Backend.mk base_environment {["llm_job_type" := PStr "SENTENCE_ANNOTATION"]}
             (<["project_id" := PInt 7]> base_environment)
             {["llm_job_type" := PStr "SENTENCE_ANNOTATION"]} 7%Z
             [EvUpdateEnvironment base_environment].

End ProjectBackend.

(** ** Built-in variations ([builtin/variations]) *)

Module Builtin.

(** [SetFunction(label, **kwargs)]: [vary] does
    [function.update(self.function)] on the copy it is given and returns
    nothing. *)
Definition SetFunction (hash : Z) (kwargs : Config) : Variation.t :=
  Variation.FunctionVariation "SetFunction" hash
    (fun function => Ok (kwargs ∪ function, None)).

(** [SetEnvironment(label, **kwargs)]: [vary] does
    [environment.update(self.environment)] and returns nothing. *)
Definition SetEnvironment (hash : Z) (kwargs : Config) : Variation.t :=
  Variation.EnvironmentVariation "SetEnvironment" hash
    (fun environment => Ok (kwargs ∪ environment, None)).

End Builtin.

(** The [check] invocation of a unary check. *)
Definition call_of_slice (slice : Slice.t) : Check.Call := Check.CallUnary slice.

(** [slice] records the run of [input] under [variation], with the
    configuration [fn], [env] in effect when the run started. *)
Definition records_input (variation : option Variation.t) (fn env : Config)
    (input : Input.t) (slice : Slice.t) : Prop :=
  Slice.input slice = input
  /\ Slice.variation slice = variation
  /\ Slice.function slice = fn
  /\ Slice.environment slice = env
  /\ Slice.meta slice = [].

(** The report entries of the variation passes, from index
    [variation_index] on: a start and a finish per pass, the finish with
    the number of inputs the pass ran. *)
Fixpoint variation_entries (total_variations variation_index : nat)
    (passes : list (option Variation.t * nat)) : list Report.Entry :=
  match passes with
  | [] => []
  | (variation, n_inputs) :: rest =>
      Report.StartVariation variation_index total_variations variation
      :: Report.FinishVariation variation_index total_variations variation n_inputs
      :: variation_entries total_variations (S variation_index) rest
  end.

(** The report entries of the check passes: a start and a finish per
    check, the finish with what [evaluate] answered. *)
Fixpoint check_entries (total_checks check_index : nat)
    (passes : list (Check.t * (Severity.t * dict))) : list Report.Entry :=
  match passes with
  | [] => []
  | (check, (severity, annotation)) :: rest =>
      Report.StartCheck check_index total_checks (Check.name check)
      :: Report.FinishCheck (Check.name check) severity annotation
      :: check_entries total_checks (S check_index) rest
  end.

(** The last character of a string. *)
Definition last_char (s : string) : option Ascii.ascii :=
  last (String.list_ascii_of_string s).

(** ** Specification: sections and inputs ([spec.py]) *)

Module Specification.

Section Loading.
(** Python's [str] on a float, a list or a dictionary (their [repr]) is
    not modelled; it is taken as given. *)
Variable repr_container : pyval -> string.

(** [str(v)] *)
Definition py_str (v : pyval) : string :=
  match v with
  | PNone => "None"
  | PBool true => "True"
  | PBool false => "False"
  | PInt z => pretty z
  | PStr s => s
  | PFloat _ | PList _ | PDict _ => repr_container v
  end.

(** [_section(name)] over the loaded document [data] *)
Definition _section (data : dict) (name : string) : result (list pyval) :=
  let raw := match dict_get name data with Some v => v | None => PNone end in
  if is_None raw then Raise (ValueError ("spec must define `" +:+ name +:+ "`"))
  else
    let raw := match raw with PList items => items | other => [other] end in
    match raw with
    | [] => Raise (ValueError ("spec must define at least one item in `" +:+ name +:+ "`"))
    | _ => Ok raw
    end.

(** [k in ("id", "reference")] *)
Definition is_id_or_reference (k : string) : bool :=
  String.eqb k "id" || String.eqb k "reference".

(** The input made of the [i]-th item of the section. *)
Definition load_input (i : nat) (item : pyval) : result Input.t :=
  match item with
  | PDict entries =>
      if negb (bool_decide (is_Some (dict_get "data" entries)))
         && forallb is_id_or_reference (dict_keys entries)
      then Raise (ValueError
                    "input dict must contain data or additional fields besides id/reference")
      else
        Ok (Input.mk
              (py_str (match dict_get "id" entries with
                       | Some v => v
                       | None => PInt (Z.of_nat i)
                       end))
              (match dict_get "data" entries with
               | Some v => v
               | None => PDict (List.filter (fun kv => negb (is_id_or_reference (fst kv)))
                                            entries)
               end)
              (dict_get "reference" entries))
  | _ => Ok (Input.mk (py_str (PInt (Z.of_nat i))) item None)
  end.

(** [for i, item in enumerate(raw)], from index [i] on. *)
Fixpoint load_inputs_from (i : nat) (raw : list pyval) (inputs : list Input.t)
  : result (list Input.t) :=
  match raw with
  | [] => Ok inputs
  | item :: rest =>
      match load_input i item with
      | Raise e => Raise e
      | Ok input => load_inputs_from (S i) rest (inputs ++ [input])
      end
  end.

(** [_load_inputs] *)
Definition _load_inputs (data : dict) : result (list Input.t) :=
  match _section data "inputs" with
  | Raise e => Raise e
  | Ok raw => load_inputs_from 0 raw []
  end.

End Loading.

(** *** Components: [_load_variations] and [_load_checks] *)

(** [int(f)] on a float: the value [m * 2 ^ e], truncated towards zero. *)
Definition truncate_float (f : spec_float) : result Z :=
  match f with
  | S754_zero _ => Ok 0%Z
  | S754_finite negative m e =>
      let magnitude := match e with
                       | Z0 => Z.pos m
                       | Zpos _ => Z.shiftl (Z.pos m) e
                       | Zneg _ => Z.shiftr (Z.pos m) (- e)
                       end in
      Ok (if negative then - magnitude else magnitude)%Z
  | S754_infinity _ => Raise (OverflowError "cannot convert float infinity to integer")
  | S754_nan => Raise (ValueError "cannot convert float NaN to integer")
  end.

(** [int(v)]; the parsing of a string is taken as given. *)
Definition py_int (int_of_str : string -> result Z) (v : pyval) : result Z :=
  match v with
  | PInt z => Ok z
  | PBool b => Ok (if b then 1 else 0)%Z
  | PFloat f => truncate_float f
  | PStr s => int_of_str s
  | PNone => Raise (TypeError "int() argument must be a string, a bytes-like object or a real number, not 'NoneType'")
  | PList _ => Raise (TypeError "int() argument must be a string, a bytes-like object or a real number, not 'list'")
  | PDict _ => Raise (TypeError "int() argument must be a string, a bytes-like object or a real number, not 'dict'")
  end.

(** [v == s] for a string literal [s] *)
Definition is_str (v : pyval) (s : string) : bool :=
  match v with
  | PStr s' => String.eqb s' s
  | _ => false
  end.

(** [inner * times] *)
Definition times_list {A : Type} (inner : list A) (times : Z) : list A :=
  concat (replicate (Z.to_nat times) inner).

(** [for b in blocks: acc.extend(f(b))]: the first [f(b)] that raises
    ends the loop. *)
Fixpoint extend_all {A : Type} (f : pyval -> result (list A)) (blocks : list pyval)
    (acc : list A) : result (list A) :=
  match blocks with
  | [] => Ok acc
  | b :: rest =>
      match f b with
      | Raise e => Raise e
      | Ok items => extend_all f rest (acc ++ items)
      end
  end.

Section Components.
(** [repr] of an entry, the parsing done by [int], and the dynamic
    lookup and instantiation of a component class ([self._load(kind,
    block)], which imports modules) are taken as given. *)
Variable repr : pyval -> string.
Variable int_of_str : string -> result Z.
Variable _load_variation : dict -> result Variation.t.
Variable _load_check : dict -> result Check.t.

Definition invalid_entry (entry : pyval) : exn :=
  ValueError ("invalid component entry: " +:+ repr entry).

(** [resolve(entry)] of [_load_variations]; [limit] is the depth of
    recursion the interpreter allows ([RecursionError] is a
    [RuntimeError]). *)
Fixpoint resolve (limit : nat) (entry : pyval) : result (list (option Variation.t)) :=
  match limit with
  | O => Raise (RuntimeError "maximum recursion depth exceeded")
  | S limit =>
      match entry with
      | PNone => Ok [None]
      | PStr s =>
          if String.eqb s "none" then Ok [None]
          else match _load_variation [("type", PStr s)] with
               | Raise e => Raise e
               | Ok v => Ok [Some v]
               end
      | PDict entries =>
          match dict_get "type" entries with
          | None => Raise (invalid_entry entry)
          | Some t =>
              if is_str t "repeat" then
                match py_int int_of_str (match dict_get "times" entries with
                                         | Some v => v
                                         | None => PInt 1
                                         end) with
                | Raise e => Raise e
                | Ok times =>
                    if (times <? 0)%Z then Raise (ValueError "repeat.times must be > 0")
                    else
                      match dict_get "do" entries with
                      | Some (PList (b :: bs)) =>
                          match extend_all (resolve limit) (b :: bs) [] with
                          | Raise e => Raise e
                          | Ok inner => Ok (times_list inner times)
                          end
                      | _ => Raise (ValueError "repeat.do must be a non-empty list")
                      end
                end
              else match _load_variation entries with
                   | Raise e => Raise e
                   | Ok v => Ok [Some v]
                   end
          end
      | _ => Raise (invalid_entry entry)
      end
  end.

(** [_load_variations] *)
Definition _load_variations (limit : nat) (data : dict)
  : result (list (option Variation.t)) :=
  match _section data "variations" with
  | Raise e => Raise e
  | Ok raw =>
      match extend_all (resolve limit) raw [] with
      | Raise e => Raise e
      | Ok [] => Ok [None]
      | Ok variations => Ok variations
      end
  end.

(** One block of [_load_checks] *)
Definition load_check (block : pyval) : result Check.t :=
  match block with
  | PStr s => _load_check [("type", PStr s)]
  | PDict entries =>
      match dict_get "type" entries with
      | Some _ => _load_check entries
      | None => Raise (invalid_entry block)
      end
  | _ => Raise (invalid_entry block)
  end.

Fixpoint load_checks_from (raw : list pyval) (checks : list Check.t)
  : result (list Check.t) :=
  match raw with
  | [] => Ok checks
  | block :: rest =>
      match load_check block with
      | Raise e => Raise e
      | Ok check => load_checks_from rest (checks ++ [check])
      end
  end.

(** [_load_checks] *)
Definition _load_checks (data : dict) : result (list Check.t) :=
  match _section data "checks" with
  | Raise e => Raise e
  | Ok raw => load_checks_from raw []
  end.

End Components.

End Specification.

(** The nesting depth of a value. *)
Fixpoint depth (v : pyval) : nat :=
  match v with
  | PList items => S (list_max (map depth items))
  | PDict entries => S (list_max (map (fun kv => depth (snd kv)) entries))
  | _ => 1
  end.

(** A [repeat] block. *)
Definition repeat_block (times : Z) (do : list pyval) : pyval :=
  PDict [("type", PStr "repeat"); ("times", PInt times); ("do", PList do)].

(** A specification document with a bare input and a dictionary input
    that declares [reference: null]. *)
Definition sample_document : dict :=
  [ ("hypothesis", PStr "h");
    ("inputs", PList [ PInt 5;
                       PDict [("data", PInt 1); ("reference", PNone)] ]) ].

(** ** Built-in check [Summary] ([builtin/checks/summary.py]) *)

Module Summary.

(** [items[:n]] for a Python integer [n]: the first [n] items, or all but
    the last [-n] when [n] is negative. *)
Definition slice_to {A : Type} (n : Z) (items : list A) : list A :=
  if (0 <=? n)%Z then take (Z.to_nat n) items
  else take (length items - Z.to_nat (- n)) items.

(** The [try] block: [dict(list(out.items())[: self.max_items])]; a
    value without [items] raises, which is caught. *)
Definition truncate (max_items : Z) (out : pyval) : option pyval :=
  match out with
  | PDict entries => Some (PDict (dict_update [] (slice_to max_items entries)))
  | _ => None
  end.

(** [Summary(max_items=...).check(slice)] *)
Definition check (max_items : option Z) (slice : Slice.t) : Check.outcome :=
  let out := Slice.output slice in
  let '(out, truncated) :=
    match max_items with
    | Some n =>
        match truncate n out with
        | Some cut => (cut, true)
        | None => (out, false)
        end
    | None => (out, false)
    end in
  Ok (Severity.INFO,
      Some [ ("slice_id", PStr (Slice.id slice));
             ("output", out);
             ("truncated", PBool truncated) ]).

Definition new (max_items : option Z) : Check.t :=
  Check.UnaryCheck "Summary" (check max_items).

End Summary.

(** The inputs a pass runs: what [vary] made of the original inputs for
    a variation with INPUT intent, the original inputs otherwise. *)
Definition applied_inputs (inputs : list Input.t) (variation : option Variation.t)
    (applied : list Input.t) : Prop :=
  match variation with
  | Some (Variation.InputVariation _ _ vary) =>
      exists (copied : list Input.t) (returned : option (list Input.t)),
        vary inputs = Ok (copied, returned)
        /\ applied = Variation.returned_or copied returned
  | _ => applied = inputs
  end.

(** The slices of one pass: one per input the pass ran, in order, each
    recording the variation of the pass. *)
Definition pass_batch (inputs : list Input.t) (variation : option Variation.t)
    (batch : list Slice.t) : Prop :=
  applied_inputs inputs variation (map Slice.input batch)
  /\ Forall (fun slice => Slice.variation slice = variation /\ Slice.meta slice = [])
            batch.

(** * Properties *)

(** ** Severity.merge *)

Section SeverityFacts.
Import Severity.

Lemma value_inj (a b : t) : value a = value b -> a = b.
Proof. destruct a, b; simpl; intros E; try reflexivity; discriminate E. Qed.

Lemma max_by_value_spec (others : list t) : forall first,
  (max_by_value first others = first \/ In (max_by_value first others) others)
  /\ (value first <= value (max_by_value first others))%Z
  /\ (forall s, In s others -> (value s <= value (max_by_value first others))%Z).
Proof.
  induction others as [|x xs IH]; intros first; simpl.
  - split; [now left|]. split; [lia|]. intros s [].
  - unfold max_by_value in *. simpl.
    destruct (Z.ltb_spec (value first) (value x)) as [Hlt|Hge].
    + destruct (IH x) as (Hin & Hle & Hall). repeat split.
      * destruct Hin as [-> | Hin]; right; [now left | now right].
      * lia.
      * intros s [<- | Hs]; [exact Hle | now apply Hall].
    + destruct (IH first) as (Hin & Hle & Hall). repeat split.
      * destruct Hin as [-> | Hin]; [now left | right; now right].
      * exact Hle.
      * intros s [<- | Hs]; [lia | now apply Hall].
Qed.

Lemma merge_In (l : list t) : l <> [] -> In (merge l) l.
Proof.
  destruct l as [|s rest]; [congruence|]. intros _. simpl.
  destruct (max_by_value_spec rest s) as ([-> | Hin] & _); [now left | now right].
Qed.

Lemma merge_upper (l : list t) (s : t) : In s l -> (value s <= value (merge l))%Z.
Proof.
  destruct l as [|a rest]; [intros []|]. simpl.
  destruct (max_by_value_spec rest a) as (_ & Hle & Hall).
  intros [<- | Hs]; [exact Hle | now apply Hall].
Qed.

(** [merge] only depends on which severities occur. *)
Lemma merge_same_elements (l l' : list t) :
  (forall s, In s l <-> In s l') -> merge l = merge l'.
Proof.
  intros Hsame. destruct l as [|a rest].
  - destruct l' as [|b rest']; [reflexivity|].
    exfalso. apply (proj2 (Hsame b)). now left.
  - assert (Hl' : l' <> []).
    { intros ->. apply (proj1 (Hsame a)). now left. }
    assert (Hl : a :: rest <> []) by congruence.
    apply value_inj. apply Z.le_antisymm.
    + apply merge_upper, Hsame, merge_In, Hl.
    + apply merge_upper, Hsame, merge_In, Hl'.
Qed.

End SeverityFacts.

(** C7: [Severity.merge] is INFO on the empty list and otherwise a member
    of the list with the largest ordinal value (INFO < PASS < WARN < FAIL);
    [merge [PASS; WARN; FAIL] = FAIL]; the result is invariant under
    permutation of the argument and under duplication of its elements. *)
Theorem merge_is_max_by_ordinal :
  Severity.merge [] = Severity.INFO
  /\ (Severity.value Severity.INFO < Severity.value Severity.PASS
      < Severity.value Severity.WARN)%Z
  /\ (Severity.value Severity.WARN < Severity.value Severity.FAIL)%Z
  /\ (forall l : list Severity.t, l <> [] ->
        In (Severity.merge l) l
        /\ forall s, In s l -> (Severity.value s <= Severity.value (Severity.merge l))%Z)
  /\ Severity.merge [Severity.PASS; Severity.WARN; Severity.FAIL] = Severity.FAIL
  /\ (forall l l' : list Severity.t, Permutation l l' -> Severity.merge l = Severity.merge l')
  /\ (forall (l : list Severity.t) (s : Severity.t),
        In s l -> Severity.merge (s :: l) = Severity.merge l)
  /\ (forall l : list Severity.t, Severity.merge (l ++ l) = Severity.merge l).
Proof.
  split; [reflexivity|]. split; [simpl; lia|]. split; [simpl; lia|].
  split.
  { intros l Hl. split; [now apply merge_In|].
    intros s. apply merge_upper. }
  split; [reflexivity|]. split.
  { intros l l' HP. apply merge_same_elements. intros s. split.
    - apply Permutation_in, HP.
    - apply Permutation_in, Permutation_sym, HP. }
  split.
  { intros l s Hs. apply merge_same_elements. intros x. simpl.
    split; [intros [<- | Hx]; assumption | now right]. }
  intros l. apply merge_same_elements. intros x.
  rewrite in_app_iff. tauto.
Qed.

(** ** Backend: configuration life cycle *)

Section BackendFacts.
Context {Sys : Type} `{Backend.Impl Sys}.

(** Both extension points leave the base maps and the function
    configuration alone and add exactly their own call to the history;
    [compute] leaves the environment alone too, [update_environment] does
    when the hook keeps it. *)
Lemma call_compute_frame (input : pyval) (fn : Config) (self : Backend.t Sys) :
  let self' := snd (Backend.call_compute input fn self) in
  Backend._base_environment self' = Backend._base_environment self
  /\ Backend._base_function self' = Backend._base_function self
  /\ Backend.environment self' = Backend.environment self
  /\ Backend.function self' = Backend.function self
  /\ Backend.history self' = Backend.history self ++ [EvCompute input fn].
Proof.
  unfold Backend.call_compute. simpl.
  destruct (Backend.compute input fn _) as [r sys]. simpl. repeat split.
Qed.

Lemma call_update_environment_frame (cfg : Config) (self : Backend.t Sys) :
  let self' := snd (Backend.call_update_environment cfg self) in
  Backend._base_environment self' = Backend._base_environment self
  /\ Backend._base_function self' = Backend._base_function self
  /\ (@Backend.keeps_environment Sys _ ->
        Backend.environment self' = Backend.environment self)
  /\ Backend.function self' = Backend.function self
  /\ Backend.history self' = Backend.history self ++ [EvUpdateEnvironment cfg].
Proof.
  unfold Backend.call_update_environment. simpl.
  destruct (Backend.update_environment cfg _) as [r [sys written]] eqn:Hhook. simpl.
  repeat split. intros Hkeeps.
  specialize (Hkeeps cfg (Backend.record (EvUpdateEnvironment cfg) self)).
  rewrite Hhook in Hkeeps. exact Hkeeps.
Qed.

Lemma run_finally_spec (cleanup_env cleanup_fn : bool) (pending : result pyval)
    (self : Backend.t Sys) :
  let r := fst (Backend.run_finally cleanup_env cleanup_fn pending self) in
  let self' := snd (Backend.run_finally cleanup_env cleanup_fn pending self) in
  Backend._base_environment self' = Backend._base_environment self
  /\ Backend._base_function self' = Backend._base_function self
  /\ Backend.function self' =
       (if cleanup_fn then Backend._base_function self else Backend.function self)
  /\ (cleanup_env = false \/ @Backend.keeps_environment Sys _ ->
        Backend.environment self' =
          (if cleanup_env then Backend._base_environment self
           else Backend.environment self))
  /\ Backend.history self' =
       Backend.history self
       ++ (if cleanup_env then [EvUpdateEnvironment (Backend._base_environment self)]
           else [])
  /\ (r = pending
      \/ cleanup_env = true
         /\ exists e,
              fst (Backend.call_update_environment (Backend._base_environment self)
                     (Backend.before_apply cleanup_fn self)) = Some e
              /\ r = Raise e).
Proof.
  unfold Backend.run_finally, Backend.before_apply.
  destruct cleanup_env.
  - set (s1 := if cleanup_fn then _ else self).
    assert (Hs1 : Backend._base_environment s1 = Backend._base_environment self
                  /\ Backend._base_function s1 = Backend._base_function self
                  /\ Backend.function s1 =
                       (if cleanup_fn then Backend._base_function self
                        else Backend.function self)
                  /\ Backend.history s1 = Backend.history self).
    { subst s1. destruct cleanup_fn; simpl; repeat split. }
    destruct Hs1 as (Hbe & Hbf & Hf & Hh).
    set (s2 := Backend.with_environment (Backend._base_environment s1) s1).
    replace (Backend.environment s2) with (Backend._base_environment self)
      by (subst s2; simpl; now rewrite Hbe).
    pose proof (call_update_environment_frame (Backend._base_environment self) s2)
      as (Fbe & Fbf & Fe & Ff & Fh).
    destruct (Backend.call_update_environment (Backend._base_environment self) s2)
      as [[e|] s3] eqn:Hcall; simpl in *;
      (split; [rewrite Fbe; subst s2; simpl; exact Hbe|]);
      (split; [rewrite Fbf; subst s2; simpl; exact Hbf|]);
      (split; [rewrite Ff; subst s2; simpl; exact Hf|]);
      (split; [intros [Hoff|Hkeeps]; [discriminate Hoff|];
               rewrite (Fe Hkeeps); subst s2; simpl; exact Hbe|]);
      (split; [rewrite Fh; subst s2; simpl; now rewrite Hh|]).
    + right. split; [reflexivity|]. exists e. split; reflexivity.
    + now left.
  - simpl. destruct cleanup_fn; simpl; rewrite ?app_nil_r; repeat split; now left.
Qed.

Lemma run_spec (input : pyval) (cleanup_env cleanup_fn : bool) (self : Backend.t Sys) :
  let entered := Backend.record (EvRun input cleanup_env cleanup_fn) self in
  let pending := fst (Backend.call_compute input (Backend.function self) entered) in
  let computed := snd (Backend.call_compute input (Backend.function self) entered) in
  let r := fst (Backend.run input cleanup_env cleanup_fn self) in
  let self' := snd (Backend.run input cleanup_env cleanup_fn self) in
  Backend._base_environment self' = Backend._base_environment self
  /\ Backend._base_function self' = Backend._base_function self
  /\ Backend.function self' =
       (if cleanup_fn then Backend._base_function self else Backend.function self)
  /\ (cleanup_env = false \/ @Backend.keeps_environment Sys _ ->
        Backend.environment self' =
          (if cleanup_env then Backend._base_environment self
           else Backend.environment self))
  /\ Backend.history self' =
       Backend.history self
       ++ [EvRun input cleanup_env cleanup_fn; EvCompute input (Backend.function self)]
       ++ (if cleanup_env then [EvUpdateEnvironment (Backend._base_environment self)]
           else [])
  /\ (r = pending
      \/ cleanup_env = true
         /\ exists e,
              fst (Backend.call_update_environment (Backend._base_environment self)
                     (Backend.before_apply cleanup_fn computed)) = Some e
              /\ r = Raise e).
Proof.
  unfold Backend.run. simpl.
  pose proof (call_compute_frame input (Backend.function self)
                (Backend.record (EvRun input cleanup_env cleanup_fn) self))
    as (Cbe & Cbf & Ce & Cf & Ch).
  replace (Backend.function (Backend.record (EvRun input cleanup_env cleanup_fn) self))
    with (Backend.function self) by reflexivity.
  destruct (Backend.call_compute input (Backend.function self) _) as [pending s1].
  simpl in *.
  pose proof (run_finally_spec cleanup_env cleanup_fn pending s1)
    as (Fbe & Fbf & Ff & Fe & Fh & Fr).
  simpl in *. rewrite Fbe, Fbf, Ff, Fh, Cbe, Cbf, Cf, Ch.
  split; [reflexivity|]. split; [reflexivity|]. split; [reflexivity|].
  split; [intros Hcase; rewrite (Fe Hcase), Cbe, Ce; reflexivity|].
  split; [now rewrite <- !app_assoc|].
  rewrite Cbe in Fr. exact Fr.
Qed.

(** [run], exit path by exit path. *)
Lemma run_exact (input : pyval) (cleanup_env cleanup_fn : bool) (self : Backend.t Sys) :
  let entered := Backend.record (EvRun input cleanup_env cleanup_fn) self in
  let pending := fst (Backend.call_compute input (Backend.function self) entered) in
  let computed := snd (Backend.call_compute input (Backend.function self) entered) in
  let applied := Backend.call_update_environment (Backend._base_environment self)
                   (Backend.before_apply cleanup_fn computed) in
  Backend.run input cleanup_env cleanup_fn self
  = if cleanup_env
    then match fst applied with
         | Some e => (Raise e, snd applied)
         | None => (pending, snd applied)
         end
    else (pending,
          if cleanup_fn
          then Backend.with_function (Backend._base_function computed) computed
          else computed).
Proof.
  unfold Backend.run. cbv zeta.
  change (Backend.function (Backend.record (EvRun input cleanup_env cleanup_fn) self))
    with (Backend.function self).
  pose proof (call_compute_frame input (Backend.function self)
                (Backend.record (EvRun input cleanup_env cleanup_fn) self))
    as (Cbe & _).
  destruct (Backend.call_compute input (Backend.function self) _) as [pending computed].
  cbn [fst snd] in *. unfold Backend.run_finally, Backend.before_apply.
  destruct cleanup_env; [|reflexivity].
  replace (Backend.environment
             (Backend.with_environment
                (Backend._base_environment
                   (if cleanup_fn
                    then Backend.with_function (Backend._base_function computed) computed
                    else computed))
                (if cleanup_fn
                 then Backend.with_function (Backend._base_function computed) computed
                 else computed)))
    with (Backend._base_environment self)
    by (destruct cleanup_fn; cbn; now rewrite Cbe).
  destruct (Backend.call_update_environment _ _) as [[e|] s]; reflexivity.
Qed.

End BackendFacts.

(** C4 (as amended): [Backend.run] cleans up on every exit path.
    Whatever [compute] does (return or raise), after [run] the function
    configuration is the base one when [cleanup_fn] is true; when
    [cleanup_env] is true the environment is reassigned the base one and
    [update_environment] is then invoked with it, after [compute], so
    that the environment [run] leaves is what that hook left of the base
    environment: the base environment itself when the hook does not write
    it.  [run] makes no other call of an extension point.  The outcome of
    [run] is the outcome of [compute], its error included, unless the
    cleanup's own [update_environment] call raises: then [run] raises
    that error, and the outcome of [compute] is lost. *)
Theorem run_cleans_up_on_every_exit_path {Sys : Type} `{Backend.Impl Sys}
    (self : Backend.t Sys) (input : pyval) (cleanup_env cleanup_fn : bool) :
  let entered := Backend.record (EvRun input cleanup_env cleanup_fn) self in
  let pending := fst (Backend.call_compute input (Backend.function self) entered) in
  let computed := snd (Backend.call_compute input (Backend.function self) entered) in
  let applied := Backend.call_update_environment (Backend._base_environment self)
                   (Backend.before_apply cleanup_fn computed) in
  let r := fst (Backend.run input cleanup_env cleanup_fn self) in
  let self' := snd (Backend.run input cleanup_env cleanup_fn self) in
  (cleanup_fn = true -> Backend.function self' = Backend._base_function self')
  /\ (cleanup_env = true ->
        Backend.environment (Backend.before_apply cleanup_fn computed)
          = Backend._base_environment self'
        /\ Backend.environment self' = Backend.environment (snd applied)
        /\ (@Backend.keeps_environment Sys _ ->
              Backend.environment self' = Backend._base_environment self')
        /\ Backend.history self' =
             Backend.history self
             ++ [EvRun input cleanup_env cleanup_fn;
                 EvCompute input (Backend.function self);
                 EvUpdateEnvironment (Backend._base_environment self')])
  /\ (cleanup_fn = false -> Backend.function self' = Backend.function self)
  /\ (cleanup_env = false ->
        Backend.environment self' = Backend.environment self
        /\ Backend.history self' =
             Backend.history self
             ++ [EvRun input cleanup_env cleanup_fn;
                 EvCompute input (Backend.function self)])
  /\ Backend._base_environment self' = Backend._base_environment self
  /\ Backend._base_function self' = Backend._base_function self
  /\ r = match (if cleanup_env then fst applied else None) with
         | Some e' => Raise e'
         | None => pending
         end.
Proof.
  intros entered pending computed applied r self'.
  pose proof (run_spec input cleanup_env cleanup_fn self)
    as (Rbe & Rbf & Rf & Re & Rh & _).
  pose proof (run_exact input cleanup_env cleanup_fn self) as Hexact.
  cbv zeta in Hexact. fold entered in Hexact. fold pending computed in Hexact.
  fold applied in Hexact.
  cbv zeta in Rbe, Rbf, Rf, Re, Rh. fold self' in Rbe, Rbf, Rf, Re, Rh.
  rewrite Rbe, Rbf.
  assert (Hbefore : Backend.environment (Backend.before_apply cleanup_fn computed)
                    = Backend._base_environment self).
  { pose proof (call_compute_frame input (Backend.function self) entered)
      as (Cbe & _). fold computed in Cbe.
    unfold Backend.before_apply. destruct cleanup_fn; cbn; exact Cbe. }
  split; [intros ->; exact Rf|].
  split.
  { intros ->. split; [exact Hbefore|].
    split; [unfold self'; rewrite Hexact; destruct applied as [[e|] s]; reflexivity|].
    split; [intros Hkeeps; exact (Re (or_intror Hkeeps)) | exact Rh]. }
  split; [intros ->; exact Rf|].
  split; [intros ->; split; [exact (Re (or_introl eq_refl)) | exact Rh]|].
  split; [reflexivity|]. split; [reflexivity|].
  unfold r. rewrite Hexact. destruct cleanup_env; [|reflexivity].
  destruct applied as [[e|] s]; reflexivity.
Qed.

Lemma run_cleans_up_when_compute_raises :
  (fst (Backend.run (PInt 1) true true FailingBackend.fresh)
     = Raise (RuntimeError "compute failed")
   /\ Backend.function (snd (Backend.run (PInt 1) true true FailingBackend.fresh))
      = {["fn" := PStr "base"]}
   /\ Backend.environment (snd (Backend.run (PInt 1) true true FailingBackend.fresh))
      = {["env" := PStr "base"]}
   /\ update_environment_calls
        (Backend.history (snd (Backend.run (PInt 1) true true FailingBackend.fresh)))
      = [ {["env" := PStr "base"]} ])
  /\ (fst (Backend.run (PInt 1) true true UnreachableBackend.fresh)
        = Raise (RuntimeError "update failed")
      /\ Backend.function
           (snd (Backend.run (PInt 1) true true UnreachableBackend.fresh))
         = {["fn" := PStr "base"]}).
Proof.
  split.
  - pose proof (run_cleans_up_on_every_exit_path FailingBackend.fresh (PInt 1) true true)
      as (Hf & He & _ & _ & Hbe & Hbf & Hr).
    split; [rewrite Hr; reflexivity|].
    split; [rewrite (Hf eq_refl), Hbf; reflexivity|].
    destruct (He eq_refl) as (_ & _ & Henv & Hh).
    split; [rewrite (Henv (fun cfg self => eq_refl)), Hbe; reflexivity|].
    rewrite Hh, Hbe. reflexivity.
  - pose proof (run_cleans_up_on_every_exit_path UnreachableBackend.fresh (PInt 1)
                  true true) as (Hf & _ & _ & _ & _ & Hbf & Hr).
    split; [rewrite Hr; reflexivity|].
    rewrite (Hf eq_refl), Hbf. reflexivity.
Defined.

(** C4 fails as stated.  When [compute] raises and the cleanup's
    [update_environment] call raises too, [run] raises the error of the
    cleanup: the error of [compute] does not reach the caller.  And with
    a hook that writes [self.environment], as the one of [DatsLlm] does,
    the environment after a [run] with [cleanup_env] is not the base
    environment. *)
Lemma run_can_lose_the_compute_error :
  (fst (Backend.call_compute (PInt 1)
          (Backend.function UnreachableBackend.fresh)
          (Backend.record (EvRun (PInt 1) true true) UnreachableBackend.fresh))
     = Raise (RuntimeError "compute failed")
   /\ fst (Backend.run (PInt 1) true true UnreachableBackend.fresh)
      = Raise (RuntimeError "update failed"))
  /\ (ProjectBackend.new = Ok ProjectBackend.fresh
      /\ is_Ok (fst (Backend.run (PInt 1) true true ProjectBackend.fresh)) = true
      /\ Backend.environment (snd (Backend.run (PInt 1) true true ProjectBackend.fresh))
         <> Backend._base_environment
              (snd (Backend.run (PInt 1) true true ProjectBackend.fresh))).
Proof.
  split; [split; reflexivity|].
  split; [vm_compute; reflexivity|]. split; [vm_compute; reflexivity|].
  intros E. apply (f_equal (fun m : Config => m !! "project_id")) in E.
  vm_compute in E. discriminate E.
Qed.

(** C8: [Backend.set_function] stores the current function configuration
    overwritten key by key with the given partial map, never fails, and
    touches nothing else: the environment, both base maps, the system
    under evaluation and the history of calls (so no
    [update_environment]) are as before.  The new configuration is what
    the next [run] hands to [compute]. *)
Theorem set_function_merges_without_applying {Sys : Type} `{Backend.Impl Sys}
    (self : Backend.t Sys) (partial : Config) :
  let self' := snd (Backend.set_function partial self) in
  fst (Backend.set_function partial self) = Ok tt
  /\ Backend.function self' = partial ∪ Backend.function self
  /\ (forall key : string,
        Backend.function self' !! key =
          match partial !! key with
          | Some v => Some v
          | None => Backend.function self !! key
          end)
  /\ Backend.environment self' = Backend.environment self
  /\ Backend._base_environment self' = Backend._base_environment self
  /\ Backend._base_function self' = Backend._base_function self
  /\ Backend.system self' = Backend.system self
  /\ Backend.history self' = Backend.history self
  /\ (forall (input : pyval) (cleanup_env cleanup_fn : bool),
        compute_calls
          (drop (length (Backend.history self))
                (Backend.history (snd (Backend.run input cleanup_env cleanup_fn self'))))
        = [(input, partial ∪ Backend.function self)]).
Proof.
  simpl. repeat split.
  - intros key. rewrite lookup_union.
    destruct (partial !! key), (Backend.function self !! key); reflexivity.
  - intros input cleanup_env cleanup_fn.
    pose proof (run_spec input cleanup_env cleanup_fn
                  (Backend.with_function (partial ∪ Backend.function self) self))
      as (_ & _ & _ & _ & Rh & _).
    simpl in Rh. rewrite Rh. rewrite drop_app_length.
    destruct cleanup_env; reflexivity.
Qed.

(** ** Engine: one batch *)

Ltac monad_simpl := unfold bind, gets, ret, lift, raise in *; simpl in *.

Section EngineBatchFacts.
Context {Sys : Type} `{Backend.Impl Sys}.

Lemma intent_is_true (intent : option Variation.Intent) (wanted : Variation.Intent) :
  Engine.intent_is intent wanted = true <-> intent = Some wanted.
Proof.
  destruct intent as [[]|], wanted; simpl; split; intros E;
    try reflexivity; try discriminate E; congruence.
Qed.

Lemma is_last_input_when_last (input_index total_inputs : nat) (rest : list Input.t)
    (b : bool) :
  total_inputs = input_index + S (length rest) ->
  Engine.is_last_input input_index total_inputs && b = when_last rest b.
Proof.
  intros ->. unfold Engine.is_last_input. destruct rest as [|x rest]; simpl.
  - replace (Z.of_nat (input_index + 1) - 1)%Z with (Z.of_nat input_index) by lia.
    now rewrite Z.eqb_refl.
  - destruct (Z.eqb_spec (Z.of_nat input_index)
                (Z.of_nat (input_index + S (S (length rest))) - 1)) as [E|_];
      [lia | reflexivity].
Qed.

(** One iteration is one [Backend.run] with the flags of the engine. *)
Lemma run_input_spec (variation : option Variation.t) (total_inputs input_index : nat)
    (input : Input.t) (self : Backend.t Sys) :
  let cleanup_env := Engine.is_last_input input_index total_inputs
                     && Engine.intent_is (Engine.intent_of variation) Variation.ENVIRONMENT in
  let cleanup_fn := Engine.is_last_input input_index total_inputs
                    && Engine.intent_is (Engine.intent_of variation) Variation.FUNCTION in
  let ran := Backend.run (Input.data input) cleanup_env cleanup_fn self in
  snd (Engine.run_input variation total_inputs input_index input self) = snd ran
  /\ fst (Engine.run_input variation total_inputs input_index input self) =
       match fst ran with
       | Ok output =>
           Ok (Slice.mk input output (Backend.function self) (Backend.environment self)
                        variation [])
       | Raise e => Raise e
       end.
Proof.
  unfold Engine.run_input. monad_simpl.
  destruct (Backend.run _ _ _ self) as [[output|e] s]; simpl; split; reflexivity.
Qed.

(** The shape of a batch: the history grows by the events of the first
    [k] inputs ([k] is the whole batch unless a call raised on the way),
    the base maps stay, and the two current maps change only by the
    cleanup of the last input. *)
Lemma run_inputs_from_spec (variation : option Variation.t) (total_inputs : nat)
    (inputs : list Input.t) :
  forall (input_index : nat) (slices : list Slice.t) (self : Backend.t Sys),
    total_inputs = input_index + length inputs ->
    let intent := Engine.intent_of variation in
    let r := fst (Engine.run_inputs_from variation total_inputs input_index inputs
                    slices self) in
    let self' := snd (Engine.run_inputs_from variation total_inputs input_index inputs
                        slices self) in
    exists k : nat,
      k <= length inputs
      /\ (is_Ok r = true -> k = length inputs)
      /\ Backend.history self' =
           Backend.history self
           ++ concat (take k (batch_events intent (Backend.function self)
                                (Backend._base_environment self) inputs))
      /\ Backend._base_environment self' = Backend._base_environment self
      /\ Backend._base_function self' = Backend._base_function self
      /\ Backend.function self' =
           (if Nat.eqb k (length inputs) && negb (Nat.eqb k 0)
               && Engine.intent_is intent Variation.FUNCTION
            then Backend._base_function self else Backend.function self)
      /\ (Nat.eqb k (length inputs) && negb (Nat.eqb k 0)
            && Engine.intent_is intent Variation.ENVIRONMENT = false
          \/ @Backend.keeps_environment Sys _ ->
          Backend.environment self' =
            (if Nat.eqb k (length inputs) && negb (Nat.eqb k 0)
                && Engine.intent_is intent Variation.ENVIRONMENT
             then Backend._base_environment self else Backend.environment self)).
Proof.
  induction inputs as [|input rest IH]; intros input_index slices self Htotal.
  - exists 0. simpl. rewrite app_nil_r. repeat split; lia.
  - cbn [Engine.run_inputs_from]. unfold bind.
    pose proof (run_input_spec variation total_inputs input_index input self)
      as [Hsnd Hfst].
    cbn zeta in Hsnd, Hfst. simpl in Htotal.
    rewrite !(is_last_input_when_last _ _ rest _ Htotal) in Hsnd, Hfst.
    set (ce := when_last rest
                 (Engine.intent_is (Engine.intent_of variation) Variation.ENVIRONMENT)) in *.
    set (cf := when_last rest
                 (Engine.intent_is (Engine.intent_of variation) Variation.FUNCTION)) in *.
    pose proof (run_spec (Input.data input) ce cf self)
      as (Rbe & Rbf & Rf & Re & Rh & _).
    cbn zeta in Rbe, Rbf, Rf, Re, Rh.
    destruct (Engine.run_input variation total_inputs input_index input self)
      as [r1 s1] eqn:Hstep.
    cbn [fst snd] in Hsnd, Hfst. subst s1.
    set (s1 := snd (Backend.run (Input.data input) ce cf self)) in *.
    destruct r1 as [slice|e].
    + (* the call returned: the rest of the batch runs from [s1] *)
      destruct (IH (S input_index) (slices ++ [slice]) s1 ltac:(lia))
        as (k & Hk & Hok & Hh & Hbe & Hbf & Hf & He).
      exists (S k). cbn [length batch_events take concat].
      rewrite Hbe, Hbf, Hf, Hh, Rbe, Rbf, Rf, Rh.
      split; [lia|]. split; [intros Hr; f_equal; now apply Hok|].
      subst ce cf. destruct rest as [|input' rest']; cbn [when_last length] in *.
      * assert (k = 0) as -> by lia. cbn. rewrite !app_nil_r.
        split; [reflexivity|]. split; [reflexivity|]. split; [reflexivity|].
        split; [reflexivity|]. intros Hcase. exact (Re Hcase).
      * split; [unfold input_events; now rewrite <- !app_assoc|].
        split; [reflexivity|]. split; [reflexivity|].
        replace (Nat.eqb (S k) (S (S (length rest'))))
          with (Nat.eqb k (S (length rest'))) by reflexivity.
        specialize (Re (or_introl eq_refl)). cbn beta iota in Re.
        split.
        -- destruct (Nat.eqb_spec k (S (length rest'))) as [->|Hne]; cbn; reflexivity.
        -- destruct (Nat.eqb_spec k (S (length rest'))) as [->|Hne].
           ++ cbn [negb Nat.eqb andb] in *. intros Hcase.
              rewrite (He Hcase), Rbe, Re. reflexivity.
           ++ cbn [andb] in *. intros _. rewrite (He (or_introl eq_refl)).
              exact Re.
    + (* the call raised: the batch stops after this input *)
      exists 1. cbn [length batch_events take concat fst snd is_Ok].
      rewrite app_nil_r.
      split; [lia|]. split; [discriminate|].
      split; [exact Rh|]. split; [exact Rbe|]. split; [exact Rbf|].
      split.
      * subst ce cf. destruct rest as [|input' rest']; cbn in *; assumption.
      * subst ce cf. destruct rest as [|input' rest']; cbn in *; exact Re.
Qed.

End EngineBatchFacts.

Section BatchEventFacts.

Lemma run_calls_app (h1 h2 : list Event) :
  run_calls (h1 ++ h2) = run_calls h1 ++ run_calls h2.
Proof. apply omap_app. Qed.

Lemma compute_calls_app (h1 h2 : list Event) :
  compute_calls (h1 ++ h2) = compute_calls h1 ++ compute_calls h2.
Proof. apply omap_app. Qed.

Lemma update_environment_calls_app (h1 h2 : list Event) :
  update_environment_calls (h1 ++ h2)
  = update_environment_calls h1 ++ update_environment_calls h2.
Proof. apply omap_app. Qed.

Lemma run_calls_batch (intent : option Variation.Intent) (fn base_env : Config)
    (inputs : list Input.t) :
  forall k : nat,
    run_calls (concat (take k (batch_events intent fn base_env inputs)))
    = take k (batch_flags intent inputs).
Proof.
  induction inputs as [|input rest IH]; intros [|k]; try reflexivity.
  cbn [batch_events batch_flags take concat]. rewrite run_calls_app, IH.
  unfold input_events. destruct (when_last rest (Engine.intent_is intent _)); reflexivity.
Qed.

Lemma compute_calls_batch (intent : option Variation.Intent) (fn base_env : Config)
    (inputs : list Input.t) :
  forall k : nat,
    compute_calls (concat (take k (batch_events intent fn base_env inputs)))
    = take k (map (fun input => (Input.data input, fn)) inputs).
Proof.
  induction inputs as [|input rest IH]; intros [|k]; try reflexivity.
  cbn [batch_events map take concat]. rewrite compute_calls_app, IH.
  unfold input_events. destruct (when_last rest (Engine.intent_is intent _)); reflexivity.
Qed.

Lemma batch_flags_length (intent : option Variation.Intent) (inputs : list Input.t) :
  length (batch_flags intent inputs) = length inputs.
Proof. induction inputs as [|input rest IH]; simpl; congruence. Qed.

(** The flags of the [i]-th call: set for the last input only, and only
    the one the intent names. *)
Lemma batch_flags_lookup (intent : option Variation.Intent) (inputs : list Input.t) :
  forall (i : nat) (d : pyval) (cleanup_env cleanup_fn : bool),
    batch_flags intent inputs !! i = Some (d, cleanup_env, cleanup_fn) ->
    exists input : Input.t,
      inputs !! i = Some input
      /\ d = Input.data input
      /\ (cleanup_fn = true <->
            S i = length inputs /\ intent = Some Variation.FUNCTION)
      /\ (cleanup_env = true <->
            S i = length inputs /\ intent = Some Variation.ENVIRONMENT).
Proof.
  induction inputs as [|input rest IH]; intros i d ce cf Hi; [discriminate Hi|].
  destruct i as [|i]; simpl in Hi.
  - injection Hi as <- <- <-. exists input. split; [reflexivity|]. split; [reflexivity|].
    destruct rest as [|input' rest']; simpl.
    + rewrite !intent_is_true. tauto.
    + split; split; intros E; try discriminate E; destruct E as [E _]; lia.
  - destruct (IH i d ce cf Hi) as (x & Hx & Hd & Hf & He).
    exists x. split; [exact Hx|]. split; [exact Hd|]. simpl.
    split; [rewrite Hf | rewrite He]; split; intros [E1 E2]; split;
      try assumption; lia.
Qed.

End BatchEventFacts.

Section EnginePassFacts.
Context {Sys : Type} `{Backend.Impl Sys}.

Lemma _run_variation_spec (inputs : list Input.t) (variation : option Variation.t)
    (self : Backend.t Sys) :
  let intent := Engine.intent_of variation in
  let r := fst (Engine._run_variation inputs variation self) in
  let self' := snd (Engine._run_variation inputs variation self) in
  exists k : nat,
    k <= length inputs
    /\ (is_Ok r = true -> k = length inputs)
    /\ Backend.history self' =
         Backend.history self
         ++ concat (take k (batch_events intent (Backend.function self)
                              (Backend._base_environment self) inputs))
    /\ Backend._base_environment self' = Backend._base_environment self
    /\ Backend._base_function self' = Backend._base_function self
    /\ Backend.function self' =
         (if Nat.eqb k (length inputs) && negb (Nat.eqb k 0)
             && Engine.intent_is intent Variation.FUNCTION
          then Backend._base_function self else Backend.function self)
    /\ (Nat.eqb k (length inputs) && negb (Nat.eqb k 0)
          && Engine.intent_is intent Variation.ENVIRONMENT = false
        \/ @Backend.keeps_environment Sys _ ->
        Backend.environment self' =
          (if Nat.eqb k (length inputs) && negb (Nat.eqb k 0)
              && Engine.intent_is intent Variation.ENVIRONMENT
           then Backend._base_environment self else Backend.environment self)).
Proof.
  unfold Engine._run_variation.
  apply (run_inputs_from_spec variation (length inputs) inputs 0 [] self). reflexivity.
Qed.

(** What [FunctionVariation.apply] does when [vary] answers. *)
Lemma apply_function_variation (name : string) (hash : Z)
    (vary : Config -> result (Config * option Config)) (inputs : list Input.t)
    (self : Backend.t Sys) (copied : Config) (returned : option Config) :
  vary (Backend.function self) = Ok (copied, returned) ->
  Variation.apply (Variation.FunctionVariation name hash vary) inputs self
  = (Ok inputs,
     Backend.with_function
       (Variation.returned_or copied returned ∪ Backend.function self) self).
Proof. intros Hv. unfold Variation.apply. monad_simpl. now rewrite Hv. Qed.

(** A pass is [apply] followed by the batch. *)
Lemma variation_pass_applied (inputs applied : list Input.t)
    (total_variations variation_index : nat) (v : Variation.t)
    (report : Report.t) (all_slices : list Slice.t) (self s1 : Backend.t Sys) :
  Variation.apply v inputs self = (Ok applied, s1) ->
  Engine.variation_pass inputs total_variations variation_index (Some v)
    report all_slices self
  = match Engine._run_variation applied (Some v) s1 with
    | (Ok slices, s2) =>
        (Ok (Report.finish_variation variation_index total_variations (Some v)
               (length applied)
               (Report.start_variation variation_index total_variations (Some v) report),
             all_slices ++ slices), s2)
    | (Raise e, s2) => (Raise e, s2)
    end.
Proof.
  intros Happly. unfold Engine.variation_pass, bind. rewrite Happly.
  destruct (Engine._run_variation applied (Some v) s1) as [[slices|e] s2]; reflexivity.
Qed.

Lemma variation_pass_not_applied (inputs : list Input.t)
    (total_variations variation_index : nat) (v : Variation.t)
    (report : Report.t) (all_slices : list Slice.t) (self s1 : Backend.t Sys) (e : exn) :
  Variation.apply v inputs self = (Raise e, s1) ->
  Engine.variation_pass inputs total_variations variation_index (Some v)
    report all_slices self
  = (Raise e, s1).
Proof. intros Happly. unfold Engine.variation_pass, bind. now rewrite Happly. Qed.

Lemma variation_pass_none (inputs : list Input.t)
    (total_variations variation_index : nat)
    (report : Report.t) (all_slices : list Slice.t) (self : Backend.t Sys) :
  Engine.variation_pass inputs total_variations variation_index None
    report all_slices self
  = match Engine._run_variation inputs None self with
    | (Ok slices, s2) =>
        (Ok (Report.finish_variation variation_index total_variations None
               (length inputs)
               (Report.start_variation variation_index total_variations None report),
             all_slices ++ slices), s2)
    | (Raise e, s2) => (Raise e, s2)
    end.
Proof.
  unfold Engine.variation_pass, bind, ret.
  destruct (Engine._run_variation inputs None self) as [[slices|e] s2]; reflexivity.
Qed.

End EnginePassFacts.

(** C2: in a variation pass the engine calls [backend.run] once per
    input, in order, with [cleanup_fn] true exactly for the last input of
    a FUNCTION-intent variation and [cleanup_env] true exactly for the
    last input of an ENVIRONMENT-intent variation.  Consequently, in the
    pass of a FUNCTION-intent variation every [compute] call of the batch
    receives the mutated function configuration (what [vary] produced,
    merged over the current one), and when the batch is not empty the
    function configuration is the base one again once the last input has
    been processed. *)
Theorem variation_pass_cleanup_flags {Sys : Type} `{Backend.Impl Sys} :
  (forall (inputs : list Input.t) (variation : option Variation.t)
          (self : Backend.t Sys),
      exists new : list Event,
        Backend.history (snd (Engine._run_variation inputs variation self))
          = Backend.history self ++ new
        /\ length (run_calls new) <= length inputs
        /\ (is_Ok (fst (Engine._run_variation inputs variation self)) = true ->
              length (run_calls new) = length inputs)
        /\ forall (i : nat) (d : pyval) (cleanup_env cleanup_fn : bool),
             run_calls new !! i = Some (d, cleanup_env, cleanup_fn) ->
             exists input : Input.t,
               inputs !! i = Some input
               /\ d = Input.data input
               /\ (cleanup_fn = true <->
                     S i = length inputs
                     /\ Engine.intent_of variation = Some Variation.FUNCTION)
               /\ (cleanup_env = true <->
                     S i = length inputs
                     /\ Engine.intent_of variation = Some Variation.ENVIRONMENT))
  /\ (forall (name : string) (hash : Z)
             (vary : Config -> result (Config * option Config))
             (copied : Config) (returned : option Config)
             (inputs : list Input.t) (total_variations variation_index : nat)
             (report : Report.t) (all_slices : list Slice.t) (self : Backend.t Sys),
        vary (Backend.function self) = Ok (copied, returned) ->
        let mutated := Variation.returned_or copied returned ∪ Backend.function self in
        let pass := Engine.variation_pass inputs total_variations variation_index
                      (Some (Variation.FunctionVariation name hash vary))
                      report all_slices self in
        exists new : list Event,
          Backend.history (snd pass) = Backend.history self ++ new
          /\ (forall call, In call (compute_calls new) -> snd call = mutated)
          /\ (is_Ok (fst pass) = true ->
                compute_calls new
                = map (fun input => (Input.data input, mutated)) inputs)
          /\ (is_Ok (fst pass) = true -> inputs <> [] ->
                Backend.function (snd pass) = Backend._base_function (snd pass))).
Proof.
  split.
  - intros inputs variation self.
    destruct (_run_variation_spec inputs variation self)
      as (k & Hk & Hok & Hh & _).
    eexists. split; [exact Hh|].
    rewrite run_calls_batch, length_take, batch_flags_length.
    split; [lia|]. split; [intros Hr; rewrite (Hok Hr); lia|].
    intros i d ce cf Hi. apply lookup_take_Some in Hi as [Hi _].
    now apply batch_flags_lookup.
  - intros name hash vary copied returned inputs total_variations variation_index
      report all_slices self Hvary mutated pass.
    subst pass.
    rewrite (variation_pass_applied _ _ _ _ _ _ _ _ _
               (apply_function_variation _ _ _ inputs _ _ _ Hvary)).
    fold mutated. set (s1 := Backend.with_function mutated self).
    destruct (_run_variation_spec inputs
                (Some (Variation.FunctionVariation name hash vary)) s1)
      as (k & Hk & Hok & Hh & Hbe & Hbf & Hf & _).
    destruct (Engine._run_variation inputs _ s1) as [[slices|e] s2];
      cbn [fst snd is_Ok ret] in *.
    + specialize (Hok eq_refl). subst k.
      eexists. split; [exact Hh|]. rewrite compute_calls_batch.
      rewrite firstn_all2 by (rewrite length_map; lia).
      split.
      { intros call Hin. apply in_map_iff in Hin as (x & <- & _). reflexivity. }
      split; [reflexivity|]. intros _ Hne.
      rewrite Hf, Hbf, Nat.eqb_refl.
      destruct inputs as [|x rest]; [congruence | reflexivity].
    + eexists. split; [exact Hh|]. rewrite compute_calls_batch.
      split.
      { intros call Hin. apply list_elem_of_In, subseteq_take, list_elem_of_In in Hin.
        apply in_map_iff in Hin as (x & <- & _). reflexivity. }
      split; discriminate.
Qed.

Lemma function_variation_over_three_inputs :
  compute_calls
    (drop 1 (Backend.history
               (snd (Engine.variation_pass TrackingBackend.three_inputs 1 0
                       (Some (TrackingBackend.SetFn "var")) [] []
                       TrackingBackend.fresh))))
  = [ (PInt 1, {["fn" := PStr "var"]});
      (PInt 2, {["fn" := PStr "var"]});
      (PInt 3, {["fn" := PStr "var"]}) ]
  /\ Backend.function
       (snd (Engine.variation_pass TrackingBackend.three_inputs 1 0
               (Some (TrackingBackend.SetFn "var")) [] [] TrackingBackend.fresh))
     = {["fn" := PStr "base"]}.
Proof.
  destruct (proj2 variation_pass_cleanup_flags "SetFn" 1%Z
              (fun function => Ok (<["fn" := PStr "var"]> function,
                                   Some (<["fn" := PStr "var"]> function)))
              (<["fn" := PStr "var"]> (Backend.function TrackingBackend.fresh))
              (Some (<["fn" := PStr "var"]> (Backend.function TrackingBackend.fresh)))
              TrackingBackend.three_inputs 1 0 [] [] TrackingBackend.fresh eq_refl)
    as (new & Hh & _ & Hcalls & Hbase).
  change (Variation.FunctionVariation "SetFn" 1 _) with (TrackingBackend.SetFn "var")
    in Hh, Hcalls, Hbase.
  split.
  - rewrite Hh. change (Backend.history TrackingBackend.fresh ++ new)
      with (EvUpdateEnvironment {["env" := PStr "base"]} :: new).
    change (drop 1 (_ :: new)) with new.
    rewrite (Hcalls eq_refl). vm_compute. reflexivity.
  - rewrite (Hbase eq_refl); [|discriminate]. vm_compute. reflexivity.
Defined.

(** ** Engine: reference construction *)

Section ReferenceFacts.
Context {Sys : Type} `{Backend.Impl Sys}.

Lemma build_reference_provided (input : Input.t) (self : Backend.t Sys) :
  needs_run input = false ->
  Engine.build_reference input self
  = (Ok (Slice.mk input (Input.get_reference input) (Backend.function self)
                  (Backend.environment self) None [("source", PStr "provided")]),
     self).
Proof.
  unfold needs_run, Engine.build_reference, Engine.source_of. intros ->. reflexivity.
Qed.

Lemma build_reference_executed (input : Input.t) (self : Backend.t Sys) :
  needs_run input = true ->
  Engine.build_reference input self
  = match Backend.run (Input.data input) true true self with
    | (Ok output, self') =>
        (Ok (Slice.mk input output (Backend.function self) (Backend.environment self)
                      None [("source", PStr "executed")]), self')
    | (Raise e, self') => (Raise e, self')
    end.
Proof.
  unfold needs_run, Engine.build_reference, Engine.source_of. intros ->.
  monad_simpl. destruct (Backend.run _ _ _ self) as [[output|e] s]; reflexivity.
Qed.

(** One reference slice: the history grows by one full [run] exactly
    when the input needs it, and the configuration ends at base if it
    started there. *)
Lemma build_reference_spec (input : Input.t) (self : Backend.t Sys) :
  let r := fst (Engine.build_reference input self) in
  let self' := snd (Engine.build_reference input self) in
  Backend._base_environment self' = Backend._base_environment self
  /\ Backend._base_function self' = Backend._base_function self
  /\ ((Backend.function self = Backend._base_function self ->
         Backend.function self' = Backend._base_function self')
      /\ (@Backend.keeps_environment Sys _ -> at_base self -> at_base self'))
  /\ Backend.history self' =
       Backend.history self
       ++ (if needs_run input
           then [EvRun (Input.data input) true true;
                 EvCompute (Input.data input) (Backend.function self);
                 EvUpdateEnvironment (Backend._base_environment self)]
           else [])
  /\ (forall slice, r = Ok slice -> reference_slice_of input slice).
Proof.
  destruct (needs_run input) eqn:Hneeds.
  - rewrite (build_reference_executed _ _ Hneeds).
    pose proof (run_spec (Input.data input) true true self)
      as (Rbe & Rbf & Rf & Re & Rh & _).
    destruct (Backend.run (Input.data input) true true self) as [[output|e] s1];
      cbn [fst snd] in *; (split; [exact Rbe|]); (split; [exact Rbf|]);
      (split; [split; [intros _; congruence
                      | intros Hkeeps _; split;
                        [rewrite (Re (or_intror Hkeeps)); congruence | congruence]]|]);
      (split; [exact Rh|]).
    + intros slice [= <-]. unfold reference_slice_of, Engine.source_of, needs_run in *.
      rewrite Hneeds. simpl. repeat split. discriminate.
    + discriminate.
  - rewrite (build_reference_provided _ _ Hneeds). cbn [fst snd].
    rewrite app_nil_r.
    split; [reflexivity|]. split; [reflexivity|]. split; [tauto|]. split; [reflexivity|].
    intros slice [= <-]. unfold reference_slice_of, Engine.source_of, needs_run in *.
    rewrite Hneeds. simpl. repeat split.
Qed.

Lemma build_references_from_spec (inputs : list Input.t) :
  forall (references : gmap string Slice.t) (self : Backend.t Sys),
    let r := fst (Engine.build_references_from inputs references self) in
    let self' := snd (Engine.build_references_from inputs references self) in
    Backend._base_environment self' = Backend._base_environment self
    /\ Backend._base_function self' = Backend._base_function self
    /\ ((Backend.function self = Backend._base_function self ->
           Backend.function self' = Backend._base_function self')
        /\ (@Backend.keeps_environment Sys _ -> at_base self -> at_base self'))
    /\ exists new : list Event,
         Backend.history self' = Backend.history self ++ new
         /\ forall result_, r = Ok result_ ->
              run_calls new
                = map (fun input => (Input.data input, true, true))
                      (List.filter needs_run inputs)
              /\ map fst (compute_calls new)
                 = map Input.data (List.filter needs_run inputs)
              /\ exists slices : list Slice.t,
                   Forall2 reference_slice_of inputs slices
                   /\ result_ = store_all slices references.
Proof.
  induction inputs as [|input rest IH]; intros references self.
  - cbn. split; [reflexivity|]. split; [reflexivity|]. split; [tauto|].
    exists (@nil Event). rewrite app_nil_r. split; [reflexivity|].
    intros result_ [= <-]. split; [reflexivity|]. split; [reflexivity|].
    exists (@nil Slice.t). split; [constructor | reflexivity].
  - cbn [Engine.build_references_from]. unfold bind.
    pose proof (build_reference_spec input self) as (Sbe & Sbf & Sbase & Sh & Sslice).
    destruct (Engine.build_reference input self) as [[slice|e] s1]; cbn [fst snd] in *.
    + specialize (IH (<[Input.id input := slice]> references) s1).
      destruct IH as (Ibe & Ibf & Ibase & new & Ih & Iok).
      split; [congruence|]. split; [congruence|]. split; [tauto|].
      eexists. split; [rewrite Ih, Sh, <- app_assoc; reflexivity|].
      intros result_ Hr. destruct (Iok result_ Hr) as (Hruns & Hcomputes & slices & HF & ->).
      specialize (Sslice slice eq_refl).
      rewrite run_calls_app, compute_calls_app, map_app, Hruns, Hcomputes.
      cbn [List.filter].
      split; [destruct (needs_run input); reflexivity|].
      split; [destruct (needs_run input); reflexivity|].
      exists (slice :: slices). split; [now constructor|].
      unfold store_all. cbn [fold_left]. unfold Slice.input_id.
      destruct Sslice as (-> & _). reflexivity.
    + split; [exact Sbe|]. split; [exact Sbf|]. split; [exact Sbase|].
      eexists. split; [exact Sh|]. discriminate.
Qed.

(** The phase raises only what the [run] of an input without reference
    value raised, the inputs before it having been handled, and returns
    when no such [run] raises. *)
Lemma build_references_from_outcome (inputs : list Input.t) :
  forall (references : gmap string Slice.t) (self : Backend.t Sys),
    (forall e : exn,
        fst (Engine.build_references_from inputs references self) = Raise e ->
        exists (before after : list Input.t) (input : Input.t)
               (built : gmap string Slice.t) (reached : Backend.t Sys),
          inputs = before ++ input :: after
          /\ needs_run input = true
          /\ Engine.build_references_from before references self = (Ok built, reached)
          /\ fst (Backend.run (Input.data input) true true reached) = Raise e)
    /\ ((forall (input : Input.t) (reached : Backend.t Sys),
           In input inputs -> needs_run input = true ->
           is_Ok (fst (Backend.run (Input.data input) true true reached)) = true) ->
        is_Ok (fst (Engine.build_references_from inputs references self)) = true).
Proof.
  induction inputs as [|input rest IH]; intros references self.
  - split; [discriminate | reflexivity].
  - cbn [Engine.build_references_from]. unfold bind.
    destruct (needs_run input) eqn:Hneeds.
    + rewrite (build_reference_executed input self Hneeds).
      destruct (Backend.run (Input.data input) true true self) as [[output|e0] s1]
        eqn:Hrun.
      * match goal with
        | |- context [Engine.build_references_from rest ?m s1] =>
            destruct (IH m s1) as [Hraise Hreturns]
        end.
        split.
        -- intros e He.
           destruct (Hraise e He) as (before & after & x & built & reached
                                      & -> & Hx & Hbefore & Hfail).
           exists (input :: before), after, x, built, reached.
           split; [reflexivity|]. split; [exact Hx|]. split; [|exact Hfail].
           cbn [Engine.build_references_from]. unfold bind.
           rewrite (build_reference_executed input self Hneeds), Hrun. exact Hbefore.
        -- intros Hall. apply Hreturns. intros x reached Hin. apply Hall. now right.
      * split.
        -- intros e [= <-]. exists (@nil Input.t), rest, input, references, self.
           split; [reflexivity|]. split; [exact Hneeds|]. split; [reflexivity|].
           now rewrite Hrun.
        -- intros Hall. specialize (Hall input self (or_introl eq_refl) Hneeds).
           rewrite Hrun in Hall. discriminate Hall.
    + rewrite (build_reference_provided input self Hneeds).
      match goal with
      | |- context [Engine.build_references_from rest ?m self] =>
          destruct (IH m self) as [Hraise Hreturns]
      end.
      split.
      * intros e He.
        destruct (Hraise e He) as (before & after & x & built & reached
                                   & -> & Hx & Hbefore & Hfail).
        exists (input :: before), after, x, built, reached.
        split; [reflexivity|]. split; [exact Hx|]. split; [|exact Hfail].
        cbn [Engine.build_references_from]. unfold bind.
        rewrite (build_reference_provided input self Hneeds). exact Hbefore.
      * intros Hall. apply Hreturns. intros x reached Hin. apply Hall. now right.
Qed.

Lemma store_all_lookup_other (slices : list Slice.t) :
  forall (references : gmap string Slice.t) (key : string),
    ~ In key (map Slice.input_id slices) ->
    store_all slices references !! key = references !! key.
Proof.
  induction slices as [|s rest IH]; intros references key Hnot; [reflexivity|].
  unfold store_all in *. cbn [fold_left]. rewrite IH.
  - apply lookup_insert_ne. intros E. apply Hnot. now left.
  - intros Hin. apply Hnot. now right.
Qed.

(** A stored slice is found under its input id unless a later slice
    reuses that id. *)
Lemma store_all_lookup_last (before after : list Slice.t) (s : Slice.t)
    (references : gmap string Slice.t) :
  ~ In (Slice.input_id s) (map Slice.input_id after) ->
  store_all (before ++ s :: after) references !! Slice.input_id s = Some s.
Proof.
  intros Hnot. unfold store_all. rewrite fold_left_app. cbn [fold_left].
  fold (store_all after (<[Slice.input_id s := s]>
                           (fold_left (fun m s => <[Slice.input_id s := s]> m)
                                      before references))).
  rewrite store_all_lookup_other by exact Hnot. apply lookup_insert_eq.
Qed.

(** Every slice of the map sits under its own input id. *)
Lemma store_all_keyed (slices : list Slice.t) :
  forall references : gmap string Slice.t,
    (forall key s, references !! key = Some s -> Slice.input_id s = key) ->
    forall key s, store_all slices references !! key = Some s -> Slice.input_id s = key.
Proof.
  induction slices as [|x rest IH]; intros references Hkeyed key s; [apply Hkeyed|].
  unfold store_all in *. cbn [fold_left]. apply IH.
  intros k s'. rewrite lookup_insert. case_decide as E.
  - intros [= <-]. exact E.
  - apply Hkeyed.
Qed.

(** The keys of the map are the old keys and the stored input ids. *)
Lemma store_all_is_Some (slices : list Slice.t) :
  forall (references : gmap string Slice.t) (key : string),
    is_Some (store_all slices references !! key)
    <-> is_Some (references !! key) \/ In key (map Slice.input_id slices).
Proof.
  induction slices as [|x rest IH]; intros references key.
  - cbn. tauto.
  - unfold store_all in *. cbn [fold_left map In]. rewrite IH.
    rewrite lookup_insert. case_decide as E.
    + split; [intros _; right; now left | intros _; left; eauto].
    + split; [tauto|]. intros [Hs | [Hx | Hin]]; tauto.
Qed.

Lemma reference_slices_ids (inputs : list Input.t) (slices : list Slice.t) :
  Forall2 reference_slice_of inputs slices ->
  map Slice.input_id slices = map Input.id inputs.
Proof.
  induction 1 as [|input slice inputs slices Hs _ IH]; [reflexivity|].
  cbn [map]. rewrite IH. unfold Slice.input_id. destruct Hs as (-> & _). reflexivity.
Qed.

End ReferenceFacts.

Section ReferenceMapFacts.
Context {Sys : Type} `{Backend.Impl Sys}.

(** The reference slice of the [i]-th input is the one found under its
    id, provided no later input reuses the id. *)
Lemma reference_map_lookup (inputs : list Input.t) (slices : list Slice.t)
    (references : gmap string Slice.t) (i : nat) (input : Input.t) :
  Forall2 reference_slice_of inputs slices ->
  inputs !! i = Some input ->
  (forall (j : nat) (input' : Input.t),
     i < j -> inputs !! j = Some input' -> Input.id input' <> Input.id input) ->
  exists slice : Slice.t,
    store_all slices references !! Input.id input = Some slice
    /\ reference_slice_of input slice.
Proof.
  intros HF Hi Hlater.
  destruct (Forall2_lookup_l _ _ _ _ _ HF Hi) as (slice & Hslice & Hof).
  exists slice. split; [|exact Hof].
  assert (Hid : Slice.input_id slice = Input.id input).
  { unfold Slice.input_id. destruct Hof as (-> & _). reflexivity. }
  rewrite <- (take_drop_middle slices i slice Hslice), <- Hid.
  apply store_all_lookup_last. intros Hin.
  rewrite <- list_elem_of_In in Hin.
  change (map Slice.input_id (drop (S i) slices))
    with (fmap Slice.input_id (drop (S i) slices)) in Hin.
  rewrite fmap_drop in Hin.
  change (fmap Slice.input_id slices) with (map Slice.input_id slices) in Hin.
  rewrite (reference_slices_ids _ _ HF) in Hin.
  apply list_elem_of_lookup in Hin as (j & Hj). rewrite lookup_drop in Hj.
  change (map Input.id inputs) with (fmap Input.id inputs) in Hj.
  rewrite list_lookup_fmap in Hj.
  destruct (inputs !! (S i + j)) as [input'|] eqn:Hj'; [|discriminate Hj].
  cbn in Hj. injection Hj as Hj. apply (Hlater (S i + j) input'); [lia | exact Hj' |].
  congruence.
Qed.

End ReferenceMapFacts.

(** C3: an input that declares a reference value gets a reference slice
    whose output is that value and whose [meta] is [{"source":
    "provided"}], and building it leaves the backend untouched (no [run],
    no [compute]); an input without the key makes the engine call
    [backend.run] with both cleanup flags true, and the slice built from
    what it returns carries [{"source": "executed"}].  Over the whole
    phase the backend is run for exactly the inputs without a reference
    value, in order, and the map holds each input's slice under its id
    (the last one for an id that is reused).  The phase returns when no
    such [run] raises, in particular when every input declares a
    reference value, and it raises only what the [run] of an input
    without reference value raised, after the inputs before it have been
    handled. *)
Theorem references_provided_or_executed {Sys : Type} `{Backend.Impl Sys} :
  (forall (input : Input.t) (self : Backend.t Sys) (v : pyval),
      Input.reference input = Some v -> is_None v = false ->
      Engine.build_reference input self
      = (Ok (Slice.mk input v (Backend.function self) (Backend.environment self)
                      None [("source", PStr "provided")]),
         self))
  /\ (forall (input : Input.t) (self : Backend.t Sys),
        Input.reference input = None ->
        snd (Engine.build_reference input self)
          = snd (Backend.run (Input.data input) true true self)
        /\ run_calls (drop (length (Backend.history self))
                           (Backend.history (snd (Engine.build_reference input self))))
           = [(Input.data input, true, true)]
        /\ forall slice : Slice.t,
             fst (Engine.build_reference input self) = Ok slice ->
             fst (Backend.run (Input.data input) true true self) = Ok (Slice.output slice)
             /\ Slice.input slice = input
             /\ Slice.meta slice = [("source", PStr "executed")])
  /\ (forall (inputs : list Input.t) (self : Backend.t Sys)
             (references : gmap string Slice.t),
        fst (Engine._build_references inputs self) = Ok references ->
        exists new : list Event,
          Backend.history (snd (Engine._build_references inputs self))
            = Backend.history self ++ new
          /\ run_calls new
             = map (fun input => (Input.data input, true, true))
                   (List.filter needs_run inputs)
          /\ map fst (compute_calls new) = map Input.data (List.filter needs_run inputs)
          /\ forall (i : nat) (input : Input.t),
               inputs !! i = Some input ->
               (forall (j : nat) (input' : Input.t),
                  i < j -> inputs !! j = Some input' ->
                  Input.id input' <> Input.id input) ->
               exists slice : Slice.t,
                 references !! Input.id input = Some slice
                 /\ Slice.input slice = input
                 /\ (forall v, Input.reference input = Some v -> is_None v = false ->
                       Slice.output slice = v
                       /\ Slice.meta slice = [("source", PStr "provided")])
                 /\ (Input.reference input = None ->
                       Slice.meta slice = [("source", PStr "executed")]))
  /\ (forall (inputs : list Input.t) (self : Backend.t Sys),
        (forall (input : Input.t) (reached : Backend.t Sys),
            In input inputs -> needs_run input = true ->
            is_Ok (fst (Backend.run (Input.data input) true true reached)) = true) ->
        is_Ok (fst (Engine._build_references inputs self)) = true)
  /\ (forall (inputs : list Input.t) (self : Backend.t Sys) (e : exn),
        fst (Engine._build_references inputs self) = Raise e ->
        exists (before after : list Input.t) (input : Input.t)
               (built : gmap string Slice.t) (reached : Backend.t Sys),
          inputs = before ++ input :: after
          /\ needs_run input = true
          /\ Engine._build_references before self = (Ok built, reached)
          /\ fst (Backend.run (Input.data input) true true reached) = Raise e).
Proof.
  split; [|split; [|split; [|split]]].
  4: { intros inputs self.
       exact (proj2 (build_references_from_outcome inputs ∅ self)). }
  4: { intros inputs self.
       exact (proj1 (build_references_from_outcome inputs ∅ self)). }
  - intros input self v Href Hv.
    assert (Hget : Input.get_reference input = v)
      by (unfold Input.get_reference; now rewrite Href).
    rewrite build_reference_provided by (unfold needs_run; now rewrite Hget).
    now rewrite Hget.
  - intros input self Href.
    assert (Hneeds : needs_run input = true)
      by (unfold needs_run, Input.get_reference; now rewrite Href).
    rewrite (build_reference_executed _ _ Hneeds).
    pose proof (run_spec (Input.data input) true true self) as (_ & _ & _ & _ & Rh & _).
    destruct (Backend.run (Input.data input) true true self) as [[output|e] s1];
      cbn [fst snd] in *; (split; [reflexivity|]);
      (split; [rewrite Rh, drop_app_length; reflexivity|]).
    + intros slice [= <-]. repeat split.
    + discriminate.
  - intros inputs self references Hok.
    destruct (build_references_from_spec inputs ∅ self) as (_ & _ & _ & new & Hh & Hres).
    destruct (Hres references Hok) as (Hruns & Hcomputes & slices & HF & ->).
    exists new. split; [exact Hh|]. split; [exact Hruns|]. split; [exact Hcomputes|].
    intros i input Hi Hlater.
    destruct (reference_map_lookup inputs slices ∅ i input HF Hi Hlater)
      as (slice & Hlook & Hin & _ & Hmeta & Hout).
    exists slice. split; [exact Hlook|]. split; [exact Hin|]. split.
    + intros v Href Hv.
      assert (Hget : Input.get_reference input = v)
        by (unfold Input.get_reference; now rewrite Href).
      rewrite Hmeta, Hget. unfold Engine.source_of. rewrite Hv.
      split; [|reflexivity]. rewrite <- Hget. apply Hout.
      unfold needs_run. now rewrite Hget.
    + intros Href. rewrite Hmeta. unfold Input.get_reference. now rewrite Href.
Qed.

(** C10: an input that carries the key [reference] with the value [None]
    is handled exactly like the same input without the key: the test is
    on the value ([reference_output is not None]).  The backend is run
    with both cleanup flags true, the two runs of the engine step agree
    on the backend they leave and on success or failure, and the slice
    differs only in the input it records; its [meta] is [{"source":
    "executed"}]. *)
Theorem explicit_none_reference_is_executed {Sys : Type} `{Backend.Impl Sys}
    (id : string) (data : pyval) (self : Backend.t Sys) :
  let with_none := Input.mk id data (Some PNone) in
  let without := Input.mk id data None in
  snd (Engine.build_reference with_none self) = snd (Engine.build_reference without self)
  /\ snd (Engine.build_reference with_none self) = snd (Backend.run data true true self)
  /\ run_calls (drop (length (Backend.history self))
                     (Backend.history (snd (Engine.build_reference with_none self))))
     = [(data, true, true)]
  /\ (forall e, fst (Engine.build_reference with_none self) = Raise e <->
                fst (Engine.build_reference without self) = Raise e)
  /\ (forall e, fst (Engine.build_reference with_none self) = Raise e <->
                fst (Backend.run data true true self) = Raise e)
  /\ (forall output, fst (Backend.run data true true self) = Ok output ->
        fst (Engine.build_reference with_none self)
          = Ok (Slice.mk with_none output (Backend.function self)
                         (Backend.environment self) None [("source", PStr "executed")])
        /\ fst (Engine.build_reference without self)
           = Ok (Slice.mk without output (Backend.function self)
                          (Backend.environment self) None [("source", PStr "executed")])).
Proof.
  intros with_none without.
  rewrite (build_reference_executed with_none self eq_refl).
  rewrite (build_reference_executed without self eq_refl).
  pose proof (run_spec data true true self) as (_ & _ & _ & _ & Rh & _).
  change (Input.data with_none) with data. change (Input.data without) with data.
  destruct (Backend.run data true true self) as [[output|e] s1]; cbn [fst snd] in *.
  - split; [reflexivity|]. split; [reflexivity|].
    split; [rewrite Rh, drop_app_length; reflexivity|].
    split; [intros e; split; discriminate|]. split; [intros e; split; discriminate|].
    intros o [= <-]. split; reflexivity.
  - split; [reflexivity|]. split; [reflexivity|].
    split; [rewrite Rh, drop_app_length; reflexivity|].
    split; [intros e'; tauto|].
    split; [intros e'; split; intros [= ->]; reflexivity|]. discriminate.
Qed.

(** ** Engine: the configuration cycle is closed after each pass *)

Section EngineCycleFacts.
Context {Sys : Type} `{Backend.Impl Sys}.

Lemma _run_variation_at_base (inputs : list Input.t) (variation : option Variation.t)
    (self : Backend.t Sys) :
  let r := fst (Engine._run_variation inputs variation self) in
  let self' := snd (Engine._run_variation inputs variation self) in
  is_Ok r = true ->
  Backend._base_environment self' = Backend._base_environment self
  /\ Backend._base_function self' = Backend._base_function self
  /\ Backend.function self' =
       (if negb (Nat.eqb (length inputs) 0)
           && Engine.intent_is (Engine.intent_of variation) Variation.FUNCTION
        then Backend._base_function self else Backend.function self)
  /\ (negb (Nat.eqb (length inputs) 0)
        && Engine.intent_is (Engine.intent_of variation) Variation.ENVIRONMENT = false
      \/ @Backend.keeps_environment Sys _ ->
      Backend.environment self' =
        (if negb (Nat.eqb (length inputs) 0)
            && Engine.intent_is (Engine.intent_of variation) Variation.ENVIRONMENT
         then Backend._base_environment self else Backend.environment self)).
Proof.
  intros r self' Hr. subst r self'.
  destruct (_run_variation_spec inputs variation self)
    as (k & _ & Hok & _ & Hbe & Hbf & Hf & He).
  specialize (Hok Hr). subst k. rewrite Nat.eqb_refl in Hf, He.
  repeat split; assumption.
Qed.

(** A pass that completes keeps the function configuration at base, and
    the environment too when the hook does not write it. *)
Lemma variation_pass_at_base (inputs : list Input.t)
    (total_variations variation_index : nat) (variation : option Variation.t)
    (report : Report.t) (all_slices : list Slice.t) (self : Backend.t Sys) :
  let pass := Engine.variation_pass inputs total_variations variation_index variation
                report all_slices self in
  Backend.function self = Backend._base_function self ->
  inputs <> [] \/ leaves_backend variation ->
  is_Ok (fst pass) = true ->
  Backend.function (snd pass) = Backend._base_function (snd pass)
  /\ (@Backend.keeps_environment Sys _ ->
      Backend.environment self = Backend._base_environment self ->
      Backend.environment (snd pass) = Backend._base_environment (snd pass)).
Proof.
  intros pass Hfn Hcond Hok. subst pass.
  assert (Hlen : leaves_backend variation \/ Nat.eqb (length inputs) 0 = false).
  { destruct Hcond as [Hne | Hl]; [right | now left].
    destruct inputs; [congruence | reflexivity]. }
  destruct variation as [[name hash vary | name hash vary | name hash vary]|].
  - (* InputVariation: the backend is not touched by [apply] *)
    destruct (vary inputs) as [[copied returned]|e] eqn:Hvary.
    + rewrite (variation_pass_applied inputs (Variation.returned_or copied returned)
                 _ _ _ _ _ self self) in Hok |- *
        by (unfold Variation.apply; monad_simpl; now rewrite Hvary).
      pose proof (_run_variation_at_base (Variation.returned_or copied returned)
                    (Some (Variation.InputVariation name hash vary)) self) as Hrun.
      destruct (Engine._run_variation _ _ self) as [[slices|e] s2];
        cbn [fst snd is_Ok] in *; [|discriminate Hok].
      destruct (Hrun eq_refl) as (Hbe & Hbf & Hf & He).
      specialize (He (or_introl (andb_false_r _))).
      rewrite andb_false_r in Hf, He. split; [congruence|]. intros _ Henv. congruence.
    + rewrite (variation_pass_not_applied inputs _ _ _ _ _ self self e) in Hok
        by (unfold Variation.apply; monad_simpl; now rewrite Hvary).
      discriminate Hok.
  - (* FunctionVariation: mutated until the last input of the batch *)
    destruct Hlen as [[Hl | Hl] | Hlen]; [discriminate Hl | discriminate Hl |].
    destruct (vary (Backend.function self)) as [[copied returned]|e] eqn:Hvary.
    + rewrite (variation_pass_applied _ _ _ _ _ _ _ _ _
                 (apply_function_variation _ _ _ inputs _ _ _ Hvary)) in Hok |- *.
      set (s1 := Backend.with_function _ self) in *.
      pose proof (_run_variation_at_base inputs
                    (Some (Variation.FunctionVariation name hash vary)) s1) as Hrun.
      destruct (Engine._run_variation _ _ s1) as [[slices|e] s2];
        cbn [fst snd is_Ok] in *; [|discriminate Hok].
      destruct (Hrun eq_refl) as (Hbe & Hbf & Hf & He).
      specialize (He (or_introl (andb_false_r _))).
      rewrite Hlen in Hf, He. subst s1. cbn in Hf, He, Hbe, Hbf.
      split; [congruence|]. intros _ Henv. congruence.
    + rewrite (variation_pass_not_applied inputs _ _ _ _ _ self self e) in Hok
        by (unfold Variation.apply; monad_simpl; now rewrite Hvary).
      discriminate Hok.
  - (* EnvironmentVariation: applied at once, undone by the last input *)
    destruct Hlen as [[Hl | Hl] | Hlen]; [discriminate Hl | discriminate Hl |].
    destruct (vary (Backend.environment self)) as [[copied returned]|e] eqn:Hvary.
    + set (cfg := Variation.returned_or copied returned ∪ Backend.environment self).
      pose proof (call_update_environment_frame cfg (Backend.with_environment cfg self))
        as (Ube & Ubf & _ & Uf & _).
      destruct (Backend.call_update_environment cfg (Backend.with_environment cfg self))
        as [[e|] s1] eqn:Hcall; cbn [fst snd] in *.
      * rewrite (variation_pass_not_applied inputs _ _ _ _ _ self s1 e) in Hok.
        -- discriminate Hok.
        -- unfold Variation.apply. monad_simpl. rewrite Hvary. cbn.
           unfold Backend.set_environment. fold cfg. now rewrite Hcall.
      * rewrite (variation_pass_applied inputs inputs _ _ _ _ _ self s1) in Hok |- *.
        2,3: unfold Variation.apply; monad_simpl; rewrite Hvary; cbn;
             unfold Backend.set_environment; fold cfg; now rewrite Hcall.
        pose proof (_run_variation_at_base inputs
                      (Some (Variation.EnvironmentVariation name hash vary)) s1) as Hrun.
        destruct (Engine._run_variation _ _ s1) as [[slices|e] s2];
          cbn [fst snd is_Ok] in *; [|discriminate Hok].
        destruct (Hrun eq_refl) as (Hbe & Hbf & Hf & He).
        rewrite Hlen in Hf, He. cbn in *. split; [congruence|].
        intros Hkeeps _. rewrite (He (or_intror Hkeeps)). congruence.
    + rewrite (variation_pass_not_applied inputs _ _ _ _ _ self self e) in Hok
        by (unfold Variation.apply; monad_simpl; now rewrite Hvary).
      discriminate Hok.
  - (* no variation *)
    rewrite variation_pass_none in Hok |- *.
    pose proof (_run_variation_at_base inputs None self) as Hrun.
    destruct (Engine._run_variation inputs None self) as [[slices|e] s2];
      cbn [fst snd is_Ok] in *; [|discriminate Hok].
    destruct (Hrun eq_refl) as (Hbe & Hbf & Hf & He).
    specialize (He (or_introl (andb_false_r _))).
    rewrite andb_false_r in Hf, He. split; [congruence|]. intros _ Henv. congruence.
Qed.

Lemma variation_passes_from_at_base (inputs : list Input.t) (total_variations : nat)
    (variations : list (option Variation.t)) :
  forall (variation_index : nat) (report : Report.t) (all_slices : list Slice.t)
         (self : Backend.t Sys),
    let passes := Engine.variation_passes_from inputs total_variations variation_index
                    variations report all_slices self in
    Backend.function self = Backend._base_function self ->
    inputs <> [] \/ Forall leaves_backend variations ->
    is_Ok (fst passes) = true ->
    Backend.function (snd passes) = Backend._base_function (snd passes)
    /\ (@Backend.keeps_environment Sys _ ->
        Backend.environment self = Backend._base_environment self ->
        Backend.environment (snd passes) = Backend._base_environment (snd passes)).
Proof.
  induction variations as [|variation rest IH];
    intros variation_index report all_slices self passes Hfn Hcond Hok; subst passes;
    [split; [exact Hfn | intros _ Henv; exact Henv]|].
  cbn [Engine.variation_passes_from] in *. unfold bind in *.
  pose proof (variation_pass_at_base inputs total_variations variation_index variation
                report all_slices self Hfn) as Hpass.
  cbn zeta in Hpass.
  destruct (Engine.variation_pass inputs total_variations variation_index variation
              report all_slices self) as [[r|e] s1]; cbn [fst snd is_Ok] in *.
  - assert (Hhead : inputs <> [] \/ leaves_backend variation)
      by (destruct Hcond as [Hne | HF]; [now left | right; now inversion HF]).
    assert (Htail : inputs <> [] \/ Forall leaves_backend rest)
      by (destruct Hcond as [Hne | HF]; [now left | right; now inversion HF]).
    destruct (Hpass Hhead eq_refl) as [Hfn1 Henv1].
    destruct (IH (S variation_index) (fst r) (snd r) s1 Hfn1 Htail Hok) as [Hfn2 Henv2].
    split; [exact Hfn2|]. intros Hkeeps Henv. exact (Henv2 Hkeeps (Henv1 Hkeeps Henv)).
  - discriminate Hok.
Qed.

End EngineCycleFacts.

(** C1 (as amended): a run of [Engine.run] that completes ends with the
    current function configuration equal to the base one, provided it
    was so when the run started and the input list is not empty, or no
    variation has FUNCTION or ENVIRONMENT intent.  Under the same
    conditions it ends with the current environment equal to the base
    one when it was so when the run started and the backend's
    [update_environment] does not write [self.environment]. *)
Theorem run_restores_base_configuration {Sys : Type} `{Backend.Impl Sys}
    (report : Report.t) (inputs : list Input.t)
    (variations : list (option Variation.t)) (checks : list Check.t)
    (self : Backend.t Sys) :
  Backend.function self = Backend._base_function self ->
  inputs <> [] \/ Forall leaves_backend variations ->
  is_Ok (fst (Engine.run report inputs variations checks self)) = true ->
  Backend.function (snd (Engine.run report inputs variations checks self))
    = Backend._base_function (snd (Engine.run report inputs variations checks self))
  /\ (@Backend.keeps_environment Sys _ ->
      Backend.environment self = Backend._base_environment self ->
      Backend.environment (snd (Engine.run report inputs variations checks self))
      = Backend._base_environment
          (snd (Engine.run report inputs variations checks self))).
Proof.
  intros Hfn Hcond Hok. unfold Engine.run, Engine._build_references, bind, lift in *.
  destruct (build_references_from_spec inputs ∅ self) as (_ & _ & [Hrefs_fn Hrefs] & _).
  specialize (Hrefs_fn Hfn).
  destruct (Engine.build_references_from inputs ∅ self) as [[references|e] s1];
    cbn [fst snd is_Ok] in *; [|discriminate Hok].
  pose proof (variation_passes_from_at_base inputs (length variations) variations 0
                report [] s1 Hrefs_fn Hcond) as Hpasses.
  cbn zeta in Hpasses.
  destruct (Engine.variation_passes_from inputs (length variations) 0 variations
              report [] s1) as [[r|e] s2]; cbn [fst snd is_Ok] in *;
    [|discriminate Hok].
  destruct (Hpasses eq_refl) as [Hfn2 Henv2].
  split; [exact Hfn2|]. intros Hkeeps Henv.
  exact (Henv2 Hkeeps (proj1 (Hrefs Hkeeps (conj Henv Hfn)))).
Qed.

Lemma cleanup_test_run_ends_at_base :
  is_Ok (fst (Engine.run [] TrackingBackend.test_inputs TrackingBackend.test_variations
                TrackingBackend.test_checks TrackingBackend.fresh)) = true
  /\ Backend.environment
       (snd (Engine.run [] TrackingBackend.test_inputs TrackingBackend.test_variations
               TrackingBackend.test_checks TrackingBackend.fresh))
     = {["env" := PStr "base"]}
  /\ Backend.function
       (snd (Engine.run [] TrackingBackend.test_inputs TrackingBackend.test_variations
               TrackingBackend.test_checks TrackingBackend.fresh))
     = {["fn" := PStr "base"]}.
Proof.
  assert (Hok : is_Ok (fst (Engine.run [] TrackingBackend.test_inputs
                              TrackingBackend.test_variations
                              TrackingBackend.test_checks TrackingBackend.fresh)) = true)
    by (vm_compute; reflexivity).
  assert (Hne : TrackingBackend.test_inputs <> []) by discriminate.
  split; [exact Hok|].
  destruct (run_restores_base_configuration [] TrackingBackend.test_inputs
              TrackingBackend.test_variations TrackingBackend.test_checks
              TrackingBackend.fresh eq_refl (or_introl Hne) Hok)
    as [Hfn Henv].
  split; [rewrite (Henv (fun cfg self => eq_refl) eq_refl) | rewrite Hfn];
    vm_compute; reflexivity.
Defined.

(** C1 fails as stated.  On a freshly constructed backend, a run over an
    empty input list with one FUNCTION-intent variation completes and
    leaves the mutated function configuration in place: there is no last
    input whose [run] would clean up.  A run started on a backend that
    is not in its base configuration, whose inputs all declare a
    reference and whose only pass has no variation, completes without
    ever asking for a cleanup.  And on a backend whose
    [update_environment] writes [self.environment], as the one of
    [DatsLlm] does, the environment differs from the base one right
    after construction and after every run, cleanups included. *)
Lemma run_can_end_away_from_base :
  (TrackingBackend.new = Ok TrackingBackend.fresh
   /\ is_Ok (fst (Engine.run [] [] [Some (TrackingBackend.SetFn "var")] []
                    TrackingBackend.fresh)) = true
   /\ Backend.function
        (snd (Engine.run [] [] [Some (TrackingBackend.SetFn "var")] []
                TrackingBackend.fresh))
      <> Backend._base_function
           (snd (Engine.run [] [] [Some (TrackingBackend.SetFn "var")] []
                   TrackingBackend.fresh)))
  /\ (is_Ok (fst (Engine.run [] [TrackingBackend.provided_input] [None] []
                    TrackingBackend.mutated)) = true
      /\ Backend.function
           (snd (Engine.run [] [TrackingBackend.provided_input] [None] []
                   TrackingBackend.mutated))
         <> Backend._base_function
              (snd (Engine.run [] [TrackingBackend.provided_input] [None] []
                      TrackingBackend.mutated)))
  /\ (ProjectBackend.new = Ok ProjectBackend.fresh
      /\ is_Ok (fst (Engine.run [] TrackingBackend.test_inputs [None] []
                       ProjectBackend.fresh)) = true
      /\ Backend.environment
           (snd (Engine.run [] TrackingBackend.test_inputs [None] []
                   ProjectBackend.fresh))
         <> Backend._base_environment
              (snd (Engine.run [] TrackingBackend.test_inputs [None] []
                      ProjectBackend.fresh))).
Proof.
  split; [split; [|split]|split; [split|split; [|split]]].
  - vm_compute. reflexivity.
  - vm_compute. reflexivity.
  - intros E. apply (f_equal (fun m : Config => m !! "fn")) in E.
    vm_compute in E. discriminate E.
  - vm_compute. reflexivity.
  - intros E. apply (f_equal (fun m : Config => m !! "fn")) in E.
    vm_compute in E. discriminate E.
  - vm_compute. reflexivity.
  - vm_compute. reflexivity.
  - intros E. apply (f_equal (fun m : Config => m !! "project_id")) in E.
    vm_compute in E. discriminate E.
Qed.

(** ** Insertion-ordered dictionaries: facts *)

Section DictFacts.
Context {V : Type}.

Lemma dict_get_set_eq (k : string) (v : V) (d : list (string * V)) :
  dict_get k (dict_set k v d) = Some v.
Proof.
  induction d as [|[k' v'] rest IH]; simpl.
  - now rewrite String.eqb_refl.
  - destruct (String.eqb_spec k k') as [->|Hne]; simpl.
    + now rewrite String.eqb_refl.
    + destruct (String.eqb_spec k k') as [E|_]; [contradiction | exact IH].
Qed.

Lemma dict_get_set_ne (k k' : string) (v : V) (d : list (string * V)) :
  k <> k' -> dict_get k' (dict_set k v d) = dict_get k' d.
Proof.
  intros Hne. induction d as [|[k0 v0] rest IH]; simpl.
  - destruct (String.eqb_spec k' k) as [E|_]; [congruence | reflexivity].
  - destruct (String.eqb_spec k k0) as [->|Hne0]; simpl.
    + destruct (String.eqb_spec k' k0) as [E|_]; [congruence | reflexivity].
    + now rewrite IH.
Qed.

(** Overwriting keeps the keys; a new key goes to the end. *)
Lemma dict_keys_set (k : string) (v : V) (d : list (string * V)) :
  dict_keys (dict_set k v d)
  = match dict_get k d with
    | Some _ => dict_keys d
    | None => dict_keys d ++ [k]
    end.
Proof.
  induction d as [|[k' v'] rest IH]; simpl; [reflexivity|].
  destruct (String.eqb_spec k k') as [->|Hne]; simpl; [reflexivity|].
  unfold dict_keys in *. rewrite IH. now destruct (dict_get k rest).
Qed.

Lemma dict_get_Some_keys (k : string) (d : list (string * V)) :
  is_Some (dict_get k d) <-> In k (dict_keys d).
Proof.
  induction d as [|[k' v'] rest IH]; simpl.
  - split; [intros [x Hx]; discriminate Hx | intros []].
  - destruct (String.eqb_spec k k') as [->|Hne].
    + split; [now left | eauto].
    + rewrite IH. split; [now right | intros [E|Hin]; [congruence | exact Hin]].
Qed.

Lemma dict_keys_set_In (k k' : string) (v : V) (d : list (string * V)) :
  In k' (dict_keys (dict_set k v d)) <-> k' = k \/ In k' (dict_keys d).
Proof.
  rewrite dict_keys_set. destruct (dict_get k d) as [x|] eqn:Hget.
  - split; [now right|]. intros [-> | Hin]; [|exact Hin].
    apply dict_get_Some_keys. eauto.
  - rewrite in_app_iff. simpl. intuition congruence.
Qed.

End DictFacts.

Section AnnotateFacts.

Lemma annotate_keys (keyed : list (string * (Severity.t * option dict))) :
  forall (start : dict) (k : string),
    In k (dict_keys (annotate keyed start))
    <-> In k (dict_keys start) \/ In k (map fst keyed).
Proof.
  induction keyed as [|[k0 o] rest IH]; intros start k.
  - cbn. tauto.
  - unfold annotate in *. cbn [fold_left map In fst snd]. rewrite IH, dict_keys_set_In.
    intuition congruence.
Qed.

Lemma annotate_get_other (keyed : list (string * (Severity.t * option dict))) :
  forall (start : dict) (k : string),
    ~ In k (map fst keyed) -> dict_get k (annotate keyed start) = dict_get k start.
Proof.
  induction keyed as [|[k0 o] rest IH]; intros start k Hnot; [reflexivity|].
  unfold annotate in *. cbn [fold_left fst snd]. rewrite IH.
  - apply dict_get_set_ne. intros ->. apply Hnot. now left.
  - intros Hin. apply Hnot. now right.
Qed.

(** The entry of a key is the one made from the last answer for it. *)
Lemma annotate_get_last (before after : list (string * (Severity.t * option dict)))
    (k : string) (o : Severity.t * option dict) (start : dict) :
  ~ In k (map fst after) ->
  dict_get k (annotate (before ++ (k, o) :: after) start)
  = Some (PDict (Check.entry (fst o) (snd o))).
Proof.
  intros Hnot. unfold annotate. rewrite fold_left_app. cbn [fold_left fst snd].
  fold (annotate after (dict_set k (PDict (Check.entry (fst o) (snd o)))
                          (fold_left
                             (fun d ko => dict_set (fst ko)
                                            (PDict (Check.entry (fst (snd ko)) (snd (snd ko)))) d)
                             before start))).
  rewrite annotate_get_other by exact Hnot. apply dict_get_set_eq.
Qed.

End AnnotateFacts.

(** ** ReferenceCheck.evaluate *)

Section ReferenceCheckFacts.
Variable check : Slice.t -> Slice.t -> Check.outcome.

(** The loop returns only after every pair passed the alignment test and
    its [check]; it then has invoked [check] on every pair, in order. *)
Lemma reference_loop_Ok (pairs : list (Slice.t * Slice.t)) :
  forall (severities : list Severity.t) (result_ : dict) (calls : list Check.Call)
         (severities' : list Severity.t) (result' : dict),
    fst (Check.reference_loop check pairs severities result_ calls)
      = Ok (severities', result') ->
    Forall aligned pairs
    /\ snd (Check.reference_loop check pairs severities result_ calls)
       = calls ++ map call_of_pair pairs
    /\ exists outs : list (Severity.t * option dict),
         Forall2 (fun pair o => check (fst pair) (snd pair) = Ok o) pairs outs
         /\ severities' = severities ++ map fst outs
         /\ result' = annotate (zip (map (fun pair => Slice.id (fst pair)) pairs) outs)
                               result_.
Proof.
  induction pairs as [|[slice reference] rest IH];
    intros severities result_ calls severities' result' Hok.
  - cbn in Hok. injection Hok as <- <-. cbn. rewrite !app_nil_r.
    split; [constructor|]. split; [reflexivity|].
    exists (@nil (Severity.t * option dict)). cbn. rewrite app_nil_r.
    split; [constructor|]. split; reflexivity.
  - cbn [Check.reference_loop] in *.
    destruct (String.eqb_spec (Slice.input_id slice) (Slice.input_id reference))
      as [Heq|Hne]; cbn [negb] in *; [|discriminate Hok].
    destruct (check slice reference) as [[severity annotation]|e] eqn:Hcheck;
      [|discriminate Hok].
    destruct (IH _ _ _ _ _ Hok) as (Hal & Hcalls & outs & HF & -> & ->).
    split; [constructor; [exact Heq | exact Hal]|].
    split; [rewrite Hcalls, <- app_assoc; reflexivity|].
    exists ((severity, annotation) :: outs).
    split; [constructor; [exact Hcheck | exact HF]|].
    split; [now rewrite <- app_assoc | reflexivity].
Qed.

(** [check] is invoked on a pair only after the pair passed the
    alignment test. *)
Lemma reference_loop_calls_aligned (pairs : list (Slice.t * Slice.t)) :
  forall (severities : list Severity.t) (result_ : dict) (calls : list Check.Call),
    exists n : nat,
      snd (Check.reference_loop check pairs severities result_ calls)
        = calls ++ map call_of_pair (take n pairs)
      /\ Forall aligned (take n pairs).
Proof.
  induction pairs as [|[slice reference] rest IH]; intros severities result_ calls.
  - exists 0. cbn. rewrite app_nil_r. split; [reflexivity | constructor].
  - cbn [Check.reference_loop].
    destruct (String.eqb_spec (Slice.input_id slice) (Slice.input_id reference))
      as [Heq|Hne]; cbn [negb].
    + destruct (check slice reference) as [[severity annotation]|e].
      * destruct (IH (severities ++ [severity])
                     (dict_set (Slice.id slice)
                        (PDict (Check.entry severity annotation)) result_)
                     (calls ++ [Check.CallReference slice reference]))
          as (n & Hcalls & Hal).
        exists (S n). cbn [take map]. rewrite Hcalls, <- app_assoc.
        split; [reflexivity|]. constructor; [exact Heq | exact Hal].
      * exists 1. cbn. split; [reflexivity|]. constructor; [exact Heq | constructor].
    + exists 0. cbn. rewrite app_nil_r. split; [reflexivity | constructor].
Qed.

(** The first misaligned pair stops the loop with the alignment error,
    before its [check]. *)
Lemma reference_loop_misaligned (before after : list (Slice.t * Slice.t))
    (slice reference : Slice.t) (outs : list (Severity.t * option dict)) :
  Forall aligned before ->
  Forall2 (fun pair o => check (fst pair) (snd pair) = Ok o) before outs ->
  Slice.input_id slice <> Slice.input_id reference ->
  forall (severities : list Severity.t) (result_ : dict) (calls : list Check.Call),
    Check.reference_loop check (before ++ (slice, reference) :: after)
      severities result_ calls
    = (Raise (ValueError (Check.alignment_msg (Slice.input_id slice)
                                              (Slice.input_id reference))),
       calls ++ map call_of_pair before).
Proof.
  intros Hal HF Hne. revert outs HF.
  induction before as [|[s r] rest IH]; intros outs HF severities result_ calls.
  - cbn. rewrite app_nil_r.
    destruct (String.eqb_spec (Slice.input_id slice) (Slice.input_id reference))
      as [E|_]; [contradiction | reflexivity].
  - inversion Hal as [|? ? Hsr Hrest]; subst.
    inversion HF as [|? o ? outs' Ho HF']; subst.
    cbn [app Check.reference_loop]. unfold aligned in Hsr. cbn [fst snd] in Hsr, Ho.
    destruct (String.eqb_spec (Slice.input_id s) (Slice.input_id r)) as [_|E];
      [|contradiction].
    cbn [negb]. rewrite Ho. destruct o as [severity annotation].
    rewrite (IH Hrest outs' HF'). cbn [map]. now rewrite <- app_assoc.
Qed.

(** With every pair aligned, the loop returns or raises what a [check]
    raised. *)
Lemma reference_loop_aligned (pairs : list (Slice.t * Slice.t)) :
  Forall aligned pairs ->
  forall (severities : list Severity.t) (result_ : dict) (calls : list Check.Call),
    (exists v, fst (Check.reference_loop check pairs severities result_ calls) = Ok v)
    \/ (exists slice reference e,
          In (slice, reference) pairs
          /\ check slice reference = Raise e
          /\ fst (Check.reference_loop check pairs severities result_ calls) = Raise e).
Proof.
  induction 1 as [|[slice reference] rest Hsr _ IH]; intros severities result_ calls.
  - left. cbn. eauto.
  - cbn [Check.reference_loop]. unfold aligned in Hsr. cbn [fst snd] in Hsr.
    destruct (String.eqb_spec (Slice.input_id slice) (Slice.input_id reference))
      as [_|E]; [|contradiction].
    cbn [negb]. destruct (check slice reference) as [[severity annotation]|e] eqn:Hcheck.
    + destruct (IH (severities ++ [severity])
                   (dict_set (Slice.id slice)
                      (PDict (Check.entry severity annotation)) result_)
                   (calls ++ [Check.CallReference slice reference]))
        as [Hok | (s & r & e & Hin & Hc & Hr)]; [now left|].
      right. exists s, r, e. split; [now right|]. split; assumption.
    + right. exists slice, reference, e. split; [now left|]. split; [exact Hcheck|].
      reflexivity.
Qed.

(** The loop returns when every pair is aligned and every [check]
    returns. *)
Lemma reference_loop_returns (pairs : list (Slice.t * Slice.t))
    (outs : list (Severity.t * option dict)) :
  Forall2 (fun pair o => aligned pair /\ check (fst pair) (snd pair) = Ok o) pairs outs ->
  forall (severities : list Severity.t) (result_ : dict) (calls : list Check.Call),
    Check.reference_loop check pairs severities result_ calls
    = (Ok (severities ++ map fst outs,
           annotate (zip (map (fun pair => Slice.id (fst pair)) pairs) outs) result_),
       calls ++ map call_of_pair pairs).
Proof.
  induction 1 as [|[slice reference] o pairs outs [Hal Ho] _ IH];
    intros severities result_ calls.
  - cbn. now rewrite !app_nil_r.
  - cbn [Check.reference_loop]. unfold aligned in Hal. cbn [fst snd] in Hal, Ho.
    rewrite Hal, String.eqb_refl. cbn [negb]. rewrite Ho.
    destruct o as [severity annotation]. rewrite IH. cbn.
    now rewrite <- !app_assoc.
Qed.

End ReferenceCheckFacts.

Section ReferenceEvaluateFacts.
Variable check : Slice.t -> Slice.t -> Check.outcome.

Lemma reference_evaluate_nonempty (slices references : list Slice.t) :
  slices <> [] ->
  Check.reference_evaluate check slices references
  = if negb (Nat.eqb (length slices) (length references)) then
      (Raise (ValueError (Check.count_mismatch_msg (length slices) (length references))),
       [])
    else
      match Check.reference_loop check (zip slices references) [] [] [] with
      | (Raise e, calls) => (Raise e, calls)
      | (Ok (severities, result_), calls) =>
          (Ok (Severity.merge severities, result_), calls)
      end.
Proof. destruct slices as [|s rest]; [congruence | reflexivity]. Qed.

Lemma zip_slice_ids (slices references : list Slice.t) :
  length slices = length references ->
  map (fun pair : Slice.t * Slice.t => Slice.id (fst pair)) (zip slices references)
  = map Slice.id slices.
Proof.
  revert references. induction slices as [|s rest IH]; intros [|r refs] Hlen;
    try discriminate Hlen; [reflexivity|].
  cbn. f_equal. apply IH. now injection Hlen.
Qed.

Lemma zip_keys_fst {A B : Type} (keys : list A) (outs : list B) :
  length keys = length outs -> map fst (zip keys outs) = keys.
Proof.
  revert outs. induction keys as [|k rest IH]; intros [|o outs] Hlen;
    try discriminate Hlen; [reflexivity|].
  cbn. f_equal. apply IH. now injection Hlen.
Qed.

End ReferenceEvaluateFacts.

(** C5 (as amended): [ReferenceCheck.evaluate] raises on zero slices; on
    a count mismatch it raises before any [check] is invoked; at the
    first pair whose input ids differ it raises a [ValueError] with the
    alignment message without invoking that pair's [check], and [check]
    is never invoked on a misaligned pair; it returns only when there is
    at least one slice, the counts agree and every pair is aligned, and
    then answers the merged severity of the [check] results and an
    annotation whose keys are the slice ids; and it does return then,
    provided every [check] returns. *)
Theorem reference_evaluate_guards (check : Slice.t -> Slice.t -> Check.outcome) :
  (forall references : list Slice.t,
      Check.reference_evaluate check [] references
      = (Raise (ValueError "Reference checks require at least one slice."), []))
  /\ (forall slices references : list Slice.t,
        slices <> [] -> length slices <> length references ->
        Check.reference_evaluate check slices references
        = (Raise (ValueError (Check.count_mismatch_msg (length slices)
                                                       (length references))), []))
  /\ (forall (slices references : list Slice.t)
             (before after : list (Slice.t * Slice.t)) (slice reference : Slice.t)
             (outs : list (Severity.t * option dict)),
        slices <> [] -> length slices = length references ->
        zip slices references = before ++ (slice, reference) :: after ->
        Forall aligned before ->
        Forall2 (fun pair o => check (fst pair) (snd pair) = Ok o) before outs ->
        Slice.input_id slice <> Slice.input_id reference ->
        Check.reference_evaluate check slices references
        = (Raise (ValueError (Check.alignment_msg (Slice.input_id slice)
                                                  (Slice.input_id reference))),
           map call_of_pair before))
  /\ (forall (slices references : list Slice.t) (slice reference : Slice.t),
        In (Check.CallReference slice reference)
           (snd (Check.reference_evaluate check slices references)) ->
        Slice.input_id slice = Slice.input_id reference
        /\ In (slice, reference) (zip slices references))
  /\ (forall (slices references : list Slice.t) (severity : Severity.t)
             (annotation : dict),
        fst (Check.reference_evaluate check slices references)
          = Ok (severity, annotation) ->
        slices <> []
        /\ length slices = length references
        /\ Forall aligned (zip slices references)
        /\ snd (Check.reference_evaluate check slices references)
           = map call_of_pair (zip slices references)
        /\ exists outs : list (Severity.t * option dict),
             Forall2 (fun pair o => check (fst pair) (snd pair) = Ok o)
                     (zip slices references) outs
             /\ severity = Severity.merge (map fst outs)
             /\ annotation = annotate (zip (map Slice.id slices) outs) []
             /\ forall key : string,
                  In key (dict_keys annotation) <-> In key (map Slice.id slices))
  /\ (forall (slices references : list Slice.t)
             (outs : list (Severity.t * option dict)),
        slices <> [] -> length slices = length references ->
        Forall2 (fun pair o => aligned pair /\ check (fst pair) (snd pair) = Ok o)
                (zip slices references) outs ->
        Check.reference_evaluate check slices references
        = (Ok (Severity.merge (map fst outs),
               annotate (zip (map Slice.id slices) outs) []),
           map call_of_pair (zip slices references))).
Proof.
  split; [reflexivity|]. split; [|split; [|split; [|split]]].
  5: { intros slices references outs Hne Hlen HF.
       rewrite reference_evaluate_nonempty by exact Hne.
       rewrite Hlen, Nat.eqb_refl. cbn [negb].
       rewrite (reference_loop_returns check _ outs HF).
       rewrite zip_slice_ids by exact Hlen. reflexivity. }
  - intros slices references Hne Hlen.
    rewrite reference_evaluate_nonempty by exact Hne.
    destruct (Nat.eqb_spec (length slices) (length references)) as [E|_];
      [contradiction | reflexivity].
  - intros slices references before after slice reference outs Hne Hlen Hzip Hal HF Hmis.
    rewrite reference_evaluate_nonempty by exact Hne.
    rewrite Hlen, Nat.eqb_refl. cbn [negb]. rewrite Hzip.
    rewrite (reference_loop_misaligned check before after slice reference outs Hal HF Hmis).
    reflexivity.
  - intros slices references slice reference Hin.
    destruct slices as [|s0 rest]; [destruct Hin|].
    rewrite reference_evaluate_nonempty in Hin by discriminate.
    destruct (negb (Nat.eqb (length (s0 :: rest)) (length references)));
      [destruct Hin|].
    destruct (reference_loop_calls_aligned check (zip (s0 :: rest) references) [] [] [])
      as (n & Hcalls & Hal).
    destruct (Check.reference_loop check (zip (s0 :: rest) references) [] [] [])
      as [[[severities result_]|e] calls]; cbn [fst snd] in *; subst calls;
      cbn [app] in Hin; apply in_map_iff in Hin as ([s r] & Hcall & Hp);
      injection Hcall as -> ->;
      apply list_elem_of_In in Hp;
      (split; [exact (proj1 (Forall_forall _ _) Hal _ Hp)
              | apply list_elem_of_In; exact (subseteq_take _ _ _ Hp)]).
  - intros slices references severity annotation Hok.
    destruct slices as [|s0 rest]; [discriminate Hok|].
    rewrite reference_evaluate_nonempty in Hok |- * by discriminate.
    destruct (Nat.eqb_spec (length (s0 :: rest)) (length references)) as [Hlen|Hlen];
      cbn [negb] in *; [|discriminate Hok].
    pose proof (reference_loop_Ok check (zip (s0 :: rest) references) [] [] []) as Hloop.
    destruct (Check.reference_loop check (zip (s0 :: rest) references) [] [] [])
      as [[[severities result_]|e] calls]; cbn [fst snd] in *; [|discriminate Hok].
    injection Hok as <- <-.
    destruct (Hloop _ _ eq_refl) as (Hal & Hcalls & outs & HF & -> & ->).
    split; [discriminate|]. split; [exact Hlen|]. split; [exact Hal|].
    split; [exact Hcalls|]. exists outs. split; [exact HF|]. split; [reflexivity|].
    rewrite zip_slice_ids by exact Hlen. split; [reflexivity|].
    intros key. rewrite annotate_keys, zip_keys_fst.
    + change (dict_keys (@nil (string * pyval))) with (@nil string).
      split; [intros [[] | Hin]; exact Hin | now right].
    + rewrite length_map, <- (Forall2_length _ _ _ HF), length_zip_with. lia.
Qed.

(** C5 fails as stated.  The exception raised at a misaligned pair is a
    [ValueError]: the program defines no exception class
    [AlignmentError], and none of the exceptions it raises has that
    class. *)
Lemma misaligned_pair_raises_value_error :
  (exists e : exn,
      fst (Check.reference_evaluate Samples.pass_pair [Samples.a1; Samples.b1]
             [Samples.a_reference; Samples.a_reference]) = Raise e
      /\ Slice.input_id Samples.b1 <> Slice.input_id Samples.a_reference
      /\ class_name e = "ValueError"
      /\ class_name e <> "AlignmentError")
  /\ (forall e : exn, class_name e <> "AlignmentError").
Proof.
  split.
  - eexists. split; [vm_compute; reflexivity|].
    split; [discriminate|]. split; [reflexivity | discriminate].
  - intros []; discriminate.
Qed.

(** ** Engine: references handed to a REFERENCE check *)

Section LookupFacts.

Lemma lookup_references_Ok (m : gmap string Slice.t) (slices : list Slice.t) :
  forall references : list Slice.t,
    Engine.lookup_references m slices = Ok references
    <-> Forall2 (fun s r => m !! Slice.input_id s = Some r) slices references.
Proof.
  induction slices as [|s rest IH]; intros references; cbn [Engine.lookup_references].
  - split.
    + intros [= <-]. constructor.
    + intros HF. inversion HF. reflexivity.
  - destruct (m !! Slice.input_id s) as [r|] eqn:Hs.
    + destruct (Engine.lookup_references m rest) as [refs|e] eqn:Hrest.
      * split.
        -- intros [= <-]. constructor; [exact Hs | now apply IH].
        -- intros HF. inversion HF as [|? r' ? refs' Hr HF']; subst.
           apply IH in HF'. congruence.
      * split; [discriminate|].
        intros HF. inversion HF as [|? r' ? refs' Hr HF']; subst.
        apply IH in HF'. discriminate HF'.
    + split; [discriminate|].
      intros HF. inversion HF as [|? r' ? refs' Hr HF']; subst. congruence.
Qed.

(** The comprehension raises [KeyError] at the first slice whose input
    id is not a key of the map. *)
Lemma lookup_references_Raise (m : gmap string Slice.t) (slices : list Slice.t) :
  forall e : exn,
    Engine.lookup_references m slices = Raise e ->
    exists (before : list Slice.t) (s : Slice.t) (after : list Slice.t),
      slices = before ++ s :: after
      /\ Forall (fun x => is_Some (m !! Slice.input_id x)) before
      /\ m !! Slice.input_id s = None
      /\ e = KeyError (Slice.input_id s).
Proof.
  induction slices as [|s rest IH]; intros e; cbn [Engine.lookup_references];
    [discriminate|].
  destruct (m !! Slice.input_id s) as [r|] eqn:Hs.
  - destruct (Engine.lookup_references m rest) as [refs|e'] eqn:Hrest; [discriminate|].
    intros [= <-]. destruct (IH e' eq_refl) as (before & x & after & -> & HF & Hx & ->).
    exists (s :: before), x, after. split; [reflexivity|].
    split; [constructor; [rewrite Hs; eauto | exact HF]|]. split; [exact Hx | reflexivity].
  - intros [= <-]. exists (@nil Slice.t), s, rest.
    split; [reflexivity|]. split; [constructor|]. split; [exact Hs | reflexivity].
Qed.

Lemma lookup_pairs_aligned (m : gmap string Slice.t) :
  (forall key s, m !! key = Some s -> Slice.input_id s = key) ->
  forall slices references : list Slice.t,
    Forall2 (fun s r => m !! Slice.input_id s = Some r) slices references ->
    Forall aligned (zip slices references).
Proof.
  intros Hkeyed slices references HF.
  induction HF as [|s r slices references Hs _ IH]; [constructor|].
  cbn. constructor; [|exact IH]. unfold aligned. cbn [fst snd].
  symmetry. exact (Hkeyed _ _ Hs).
Qed.

End LookupFacts.

Section ReferenceMapDomain.
Context {Sys : Type} `{Backend.Impl Sys}.

(** The map of [_build_references]: its keys are the input ids, and
    every slice sits under its own input id. *)
Lemma _build_references_map (inputs : list Input.t) (self : Backend.t Sys)
    (m : gmap string Slice.t) :
  fst (Engine._build_references inputs self) = Ok m ->
  (forall key : string, is_Some (m !! key) <-> In key (map Input.id inputs))
  /\ (forall key s, m !! key = Some s -> Slice.input_id s = key).
Proof.
  intros Hok. destruct (build_references_from_spec inputs ∅ self)
    as (_ & _ & _ & new & _ & Hres).
  destruct (Hres m Hok) as (_ & _ & slices & HF & ->). split.
  - intros key. rewrite store_all_is_Some, (reference_slices_ids _ _ HF), lookup_empty.
    split; [intros [[x Hx] | Hin]; [discriminate Hx | exact Hin] | now right].
  - apply store_all_keyed. intros key s Hs. rewrite lookup_empty in Hs. discriminate Hs.
Qed.

End ReferenceMapDomain.

(** C9: for a REFERENCE-intent check the engine's [references] list is
    the reference map indexed with each accumulated slice's input id, in
    slice order.  Hence, when every accumulated slice's input id is the id
    of an original input, the list has the length of the slice list and
    every positional pair has equal input ids, so that
    [ReferenceCheck.evaluate] returns or raises what the [check] hook
    raised (its count and alignment errors cannot occur); and when some
    slice's input id is not the id of any original input, the check pass
    raises [KeyError] for the first such id without [evaluate] (and so
    [check]) being invoked. *)
Theorem reference_lookup_is_aligned {Sys : Type} `{Backend.Impl Sys}
    (inputs : list Input.t) (self : Backend.t Sys) (m : gmap string Slice.t)
    (all_slices : list Slice.t) (name : string)
    (check : Slice.t -> Slice.t -> Check.outcome) :
  fst (Engine._build_references inputs self) = Ok m ->
  (forall references : list Slice.t,
      Engine.references_for (Check.ReferenceCheck name check) m all_slices = Ok references
      <-> Forall2 (fun s r => m !! Slice.input_id s = Some r) all_slices references)
  /\ (Forall (fun s => In (Slice.input_id s) (map Input.id inputs)) all_slices ->
        exists references : list Slice.t,
          Engine.references_for (Check.ReferenceCheck name check) m all_slices
            = Ok references
          /\ length references = length all_slices
          /\ Forall aligned (zip all_slices references)
          /\ (all_slices <> [] ->
                (exists v,
                    fst (Check.evaluate (Check.ReferenceCheck name check)
                           all_slices references) = Ok v)
                \/ (exists slice reference e,
                      In (slice, reference) (zip all_slices references)
                      /\ check slice reference = Raise e
                      /\ fst (Check.evaluate (Check.ReferenceCheck name check)
                                all_slices references) = Raise e)))
  /\ (~ Forall (fun s => In (Slice.input_id s) (map Input.id inputs)) all_slices ->
        exists (before : list Slice.t) (s : Slice.t) (after : list Slice.t),
          all_slices = before ++ s :: after
          /\ Forall (fun x => In (Slice.input_id x) (map Input.id inputs)) before
          /\ ~ In (Slice.input_id s) (map Input.id inputs)
          /\ forall (total_checks check_index : nat) (report : Report.t),
               Engine.check_pass m all_slices total_checks check_index
                 (Check.ReferenceCheck name check) report
               = (Raise (KeyError (Slice.input_id s)), [])).
Proof.
  intros Hok. destruct (_build_references_map inputs self m Hok) as [Hdom Hkeyed].
  change (Engine.references_for (Check.ReferenceCheck name check) m all_slices)
    with (Engine.lookup_references m all_slices).
  split; [apply lookup_references_Ok|]. split.
  - intros Hall.
    destruct (Engine.lookup_references m all_slices) as [references|e] eqn:Hlook.
    + pose proof (proj1 (lookup_references_Ok m all_slices references) Hlook) as HF.
      pose proof (lookup_pairs_aligned m Hkeyed _ _ HF) as Hal.
      exists references. split; [reflexivity|].
      split; [symmetry; exact (Forall2_length _ _ _ HF)|]. split; [exact Hal|].
      intros Hne. cbn [Check.evaluate].
      rewrite reference_evaluate_nonempty by exact Hne.
      rewrite (Forall2_length _ _ _ HF), Nat.eqb_refl. cbn [negb].
      destruct (reference_loop_aligned check _ Hal [] [] [])
        as [[[severities result_] Hv] | (slice & reference & e & Hin & Hc & Hr)].
      * left. destruct (Check.reference_loop check _ [] [] []) as [r calls].
        cbn [fst] in Hv. subst r. cbn. eauto.
      * right. exists slice, reference, e. split; [exact Hin|]. split; [exact Hc|].
        destruct (Check.reference_loop check _ [] [] []) as [r calls].
        cbn [fst] in Hr. subst r. reflexivity.
    + exfalso.
      destruct (lookup_references_Raise m all_slices e Hlook)
        as (before & s & after & -> & _ & Hs & _).
      apply Forall_app in Hall as [_ Hall]. inversion Hall as [|? ? Hin _]; subst.
      apply Hdom in Hin. rewrite Hs in Hin. destruct Hin as [x Hx]. discriminate Hx.
  - intros Hnot.
    destruct (Engine.lookup_references m all_slices) as [references|e] eqn:Hlook.
    + exfalso. apply Hnot.
      pose proof (proj1 (lookup_references_Ok m all_slices references) Hlook) as HF.
      clear Hlook Hnot. induction HF as [|s r slices references Hs _ IH]; constructor.
      * apply Hdom. rewrite Hs. eauto.
      * exact IH.
    + destruct (lookup_references_Raise m all_slices e Hlook)
        as (before & s & after & Hsplit & Hbefore & Hs & ->).
      exists before, s, after. split; [exact Hsplit|]. split.
      { eapply Forall_impl; [exact Hbefore|]. intros x Hx. now apply Hdom. }
      split.
      { intros Hin. apply Hdom in Hin. rewrite Hs in Hin. destruct Hin as [x Hx].
        discriminate Hx. }
      intros total_checks check_index report. unfold Engine.check_pass.
      change (Engine.references_for (Check.ReferenceCheck name check) m all_slices)
        with (Engine.lookup_references m all_slices).
      now rewrite Hlook.
Qed.

Lemma renamed_input_has_no_reference :
  exists key : string,
    Engine.check_pass TrackingBackend.test_references TrackingBackend.foreign_slices 1 0
      TrackingBackend.AcceptsAll []
    = (Raise (KeyError key), []).
Proof.
  assert (Hok : fst (Engine._build_references TrackingBackend.test_inputs
                       TrackingBackend.fresh) = Ok TrackingBackend.test_references)
    by (vm_compute; reflexivity).
  destruct (reference_lookup_is_aligned TrackingBackend.test_inputs TrackingBackend.fresh
              TrackingBackend.test_references TrackingBackend.foreign_slices
              "AcceptsAll" (fun _ _ => Ok (Severity.PASS, None)) Hok)
    as (_ & _ & Hforeign).
  destruct Hforeign as (before & s & after & _ & _ & _ & Hpass).
  - intros HF. inversion HF as [|? ? Hin _]; subst. cbn in Hin.
    destruct Hin as [E | [E | []]]; discriminate E.
  - exists (Slice.input_id s). apply Hpass.
Defined.

Example run_with_renamed_inputs_raises_key_error :
  fst (Engine.run [] TrackingBackend.test_inputs [Some TrackingBackend.Rename]
         [TrackingBackend.AcceptsAll] TrackingBackend.fresh)
  = Raise (KeyError "0-v").
Proof. vm_compute. reflexivity. Qed.

(** ** GroupCheck.evaluate: the partition by input id *)

Section KeyedListFacts.
Context {V : Type}.
Variable f : string -> V.

Lemma dict_get_keyed_In (keys : list string) (k : string) :
  In k keys -> dict_get k (map (fun key => (key, f key)) keys) = Some (f k).
Proof.
  induction keys as [|key rest IH]; intros Hin; [destruct Hin|].
  cbn. destruct (String.eqb_spec k key) as [->|Hne]; [reflexivity|].
  apply IH. destruct Hin as [E|Hin]; [congruence | exact Hin].
Qed.

Lemma dict_get_keyed_not_In (keys : list string) (k : string) :
  ~ In k keys -> dict_get k (map (fun key => (key, f key)) keys) = None.
Proof.
  induction keys as [|key rest IH]; intros Hnot; [reflexivity|].
  cbn. destruct (String.eqb_spec k key) as [->|Hne].
  - exfalso. apply Hnot. now left.
  - apply IH. intros Hin. apply Hnot. now right.
Qed.

Lemma dict_set_keyed_In (keys : list string) (k : string) (v : V) :
  List.NoDup keys -> In k keys ->
  dict_set k v (map (fun key => (key, f key)) keys)
  = map (fun key => (key, if String.eqb key k then v else f key)) keys.
Proof.
  induction keys as [|key rest IH]; intros Hnd Hin; [destruct Hin|].
  inversion Hnd as [|? ? Hnotin Hnd']; subst. cbn.
  destruct (String.eqb_spec k key) as [->|Hne].
  - rewrite String.eqb_refl. f_equal. apply map_ext_in. intros key' Hin'.
    destruct (String.eqb_spec key' key) as [->|_]; [contradiction | reflexivity].
  - destruct (String.eqb_spec key k) as [E|_]; [congruence|].
    f_equal. apply IH; [exact Hnd'|]. destruct Hin as [E|Hin]; [congruence | exact Hin].
Qed.

Lemma dict_set_keyed_not_In (keys : list string) (k : string) (v : V) :
  ~ In k keys ->
  dict_set k v (map (fun key => (key, f key)) keys)
  = map (fun key => (key, f key)) keys ++ [(k, v)].
Proof.
  induction keys as [|key rest IH]; intros Hnot; [reflexivity|].
  cbn. destruct (String.eqb_spec k key) as [->|Hne].
  - exfalso. apply Hnot. now left.
  - f_equal. apply IH. intros Hin. apply Hnot. now right.
Qed.

End KeyedListFacts.

Section FirstOccurrencesFacts.

Lemma first_occurrences_In (keys : list string) (k : string) :
  In k (first_occurrences keys) <-> In k keys.
Proof.
  induction keys as [|key rest IH]; [reflexivity|].
  cbn [first_occurrences In]. rewrite filter_In, IH.
  destruct (String.eqb_spec k key) as [->|Hne]; cbn.
  - split; [now left | now left].
  - split; [intros [E | [Hin _]]; [now left | now right]|].
    intros [E | Hin]; [now left | right; split; [exact Hin | reflexivity]].
Qed.

Lemma first_occurrences_NoDup (keys : list string) :
  List.NoDup (first_occurrences keys).
Proof.
  induction keys as [|key rest IH]; cbn [first_occurrences]; constructor.
  - rewrite filter_In. intros [_ E]. rewrite String.eqb_refl in E. discriminate E.
  - apply List.NoDup_filter, IH.
Qed.

(** A key arriving last is new or has been seen. *)
Lemma first_occurrences_snoc (keys : list string) (k : string) :
  first_occurrences (keys ++ [k])
  = if existsb (String.eqb k) keys then first_occurrences keys
    else first_occurrences keys ++ [k].
Proof.
  induction keys as [|key rest IH]; [reflexivity|].
  cbn [app first_occurrences existsb]. rewrite IH.
  destruct (String.eqb_spec k key) as [->|Hne]; cbn [orb].
  - f_equal. destruct (existsb (String.eqb key) rest); [reflexivity|].
    rewrite List.filter_app. cbn. rewrite String.eqb_refl. cbn. now rewrite app_nil_r.
  - destruct (existsb (String.eqb k) rest); [reflexivity|].
    cbn. f_equal. rewrite List.filter_app. cbn.
    destruct (String.eqb_spec k key) as [E|_]; [congruence | reflexivity].
Qed.

Lemma existsb_eqb_In (keys : list string) (k : string) :
  existsb (String.eqb k) keys = true <-> In k keys.
Proof.
  rewrite existsb_exists. split.
  - intros (x & Hin & E). apply String.eqb_eq in E. now subst.
  - intros Hin. exists k. split; [exact Hin | apply String.eqb_refl].
Qed.

End FirstOccurrencesFacts.

Section PartitionFacts.

Lemma members_snoc (key : string) (slices : list Slice.t) (s : Slice.t) :
  members key (slices ++ [s])
  = members key slices ++ (if String.eqb (Slice.input_id s) key then [s] else []).
Proof. unfold members. rewrite List.filter_app. reflexivity. Qed.

Lemma members_nonempty (key : string) (slices : list Slice.t) :
  In key (map Slice.input_id slices) <-> members key slices <> [].
Proof.
  unfold members. induction slices as [|s rest IH]; cbn [map In List.filter].
  - split; [intros [] | congruence].
  - destruct (String.eqb_spec (Slice.input_id s) key) as [E|Hne].
    + split; [discriminate | now left].
    + rewrite <- IH. split; [intros [E|Hin]; [contradiction | exact Hin] | now right].
Qed.

Lemma members_absent (key : string) (slices : list Slice.t) :
  ~ In key (map Slice.input_id slices) -> members key slices = [].
Proof.
  intros Hnot. destruct (members key slices) as [|s rest] eqn:Hm; [reflexivity|].
  exfalso. apply Hnot, members_nonempty. rewrite Hm. discriminate.
Qed.

(** One step of the grouping loop extends the partition by one slice. *)
Lemma setdefault_append_partition (prefix : list Slice.t) (s : Slice.t) :
  Check.setdefault_append (Slice.input_id s) s (partition_by_input_id prefix)
  = partition_by_input_id (prefix ++ [s]).
Proof.
  unfold Check.setdefault_append, partition_by_input_id.
  rewrite map_app. cbn [map]. rewrite first_occurrences_snoc.
  set (k := Slice.input_id s). set (ids := map Slice.input_id prefix).
  destruct (existsb (String.eqb k) ids) eqn:Hmem.
  - assert (Hin : In k (first_occurrences ids))
      by (apply first_occurrences_In, existsb_eqb_In, Hmem).
    rewrite (dict_get_keyed_In (fun key => members key prefix) _ _ Hin).
    rewrite (dict_set_keyed_In (fun key => members key prefix) _ _ _
               (first_occurrences_NoDup ids) Hin).
    apply map_ext. intros key. rewrite members_snoc. fold k.
    rewrite (String.eqb_sym k key).
    destruct (String.eqb key k) eqn:E.
    + apply String.eqb_eq in E. now subst.
    + now rewrite app_nil_r.
  - assert (Hnot : ~ In k ids).
    { intros Hin. apply existsb_eqb_In in Hin. congruence. }
    assert (Hnot' : ~ In k (first_occurrences ids))
      by (rewrite first_occurrences_In; exact Hnot).
    rewrite (dict_get_keyed_not_In (fun key => members key prefix) _ _ Hnot').
    rewrite (dict_set_keyed_not_In (fun key => members key prefix) _ _ _ Hnot').
    rewrite map_app. cbn [map]. f_equal.
    + apply map_ext_in. intros key Hkey. rewrite members_snoc. fold k.
      destruct (String.eqb_spec k key) as [E|_]; [subst; contradiction|].
      now rewrite app_nil_r.
    + rewrite members_snoc. fold k. rewrite String.eqb_refl.
      subst ids. now rewrite (members_absent _ _ Hnot).
Qed.

Lemma group_by_from_partition (rest : list Slice.t) :
  forall prefix : list Slice.t,
    fold_left (fun groups s => Check.setdefault_append (Slice.input_id s) s groups)
              rest (partition_by_input_id prefix)
    = partition_by_input_id (prefix ++ rest).
Proof.
  induction rest as [|s rest IH]; intros prefix.
  - now rewrite app_nil_r.
  - cbn [fold_left]. rewrite setdefault_append_partition, IH, <- app_assoc. reflexivity.
Qed.

(** The first loop of [GroupCheck.evaluate] computes the partition. *)
Lemma group_by_input_id_partition (slices : list Slice.t) :
  Check.group_by_input_id slices = partition_by_input_id slices.
Proof. exact (group_by_from_partition slices []). Qed.

Lemma partition_keys (slices : list Slice.t) :
  map fst (partition_by_input_id slices) = first_occurrences (map Slice.input_id slices).
Proof.
  unfold partition_by_input_id. rewrite map_map. cbn. apply map_id.
Qed.

Lemma partition_In (slices : list Slice.t) (g : string * list Slice.t) :
  In g (partition_by_input_id slices)
  <-> In (fst g) (map Slice.input_id slices) /\ snd g = members (fst g) slices.
Proof.
  unfold partition_by_input_id. rewrite in_map_iff. split.
  - intros (key & <- & Hin). cbn. split; [now apply first_occurrences_In | reflexivity].
  - intros [Hin Hg]. exists (fst g). split; [|now apply first_occurrences_In].
    destruct g as [k l]. cbn in *. now subst.
Qed.

End PartitionFacts.

(** ** GroupCheck.evaluate: the loop over the groups *)

Section GroupLoopFacts.
Variable check : list Slice.t -> Check.outcome.

Lemma group_loop_Ok (groups : list (string * list Slice.t)) :
  forall acc acc' : Check.GroupAcc,
    fst (Check.group_loop check groups acc) = Ok acc' ->
    exists outs : list (Severity.t * option dict),
      Forall2 (fun g o => check (snd g) = Ok o) (evaluated_groups groups) outs
      /\ Check.acc_severities acc' = Check.acc_severities acc ++ map fst outs
      /\ Check.acc_results acc'
         = annotate (zip (map fst (evaluated_groups groups)) outs) (Check.acc_results acc)
      /\ Check.acc_skipped acc' = Check.acc_skipped acc ++ skipped_ids groups
      /\ snd (Check.group_loop check groups acc)
         = Check.acc_calls acc ++ map call_of_group (evaluated_groups groups).
Proof.
  induction groups as [|[input_id group] rest IH]; intros acc acc' Hok.
  - cbn in Hok. injection Hok as <-. exists (@nil (Severity.t * option dict)).
    cbn. rewrite !app_nil_r. split; [constructor|]. repeat split.
  - cbn [Check.group_loop] in *. unfold evaluated_groups, skipped_ids, is_small in *.
    cbn [List.filter snd].
    destruct (Nat.ltb (length group) 2) eqn:Hsmall; cbn [negb].
    + destruct (IH _ _ Hok) as (outs & HF & Hsev & Hres & Hskip & Hcalls).
      cbn [Check.acc_severities Check.acc_results Check.acc_skipped Check.acc_calls] in *.
      exists outs. split; [exact HF|]. split; [exact Hsev|]. split; [exact Hres|].
      split; [rewrite Hskip; cbn [map fst]; now rewrite <- app_assoc | exact Hcalls].
    + destruct (check group) as [[severity annotation]|e] eqn:Hcheck; [|discriminate Hok].
      destruct (IH _ _ Hok) as (outs & HF & Hsev & Hres & Hskip & Hcalls).
      cbn [Check.acc_severities Check.acc_results Check.acc_skipped Check.acc_calls] in *.
      exists ((severity, annotation) :: outs).
      split; [constructor; [exact Hcheck | exact HF]|].
      split; [rewrite Hsev; cbn [map fst]; now rewrite <- app_assoc|].
      split; [rewrite Hres; reflexivity|].
      split; [exact Hskip|].
      rewrite Hcalls. cbn [map]. now rewrite <- app_assoc.
Qed.

(** Whatever the outcome, [check] is only ever invoked on a group of at
    least two slices. *)
Lemma group_loop_calls (groups : list (string * list Slice.t)) :
  forall (acc : Check.GroupAcc) (g : list Slice.t),
    In (Check.CallGroup g) (snd (Check.group_loop check groups acc)) ->
    In (Check.CallGroup g) (Check.acc_calls acc)
    \/ (In g (map snd groups) /\ 2 <= length g).
Proof.
  induction groups as [|[input_id group] rest IH]; intros acc g Hin.
  - cbn in Hin. now left.
  - cbn [Check.group_loop] in Hin.
    destruct (Nat.ltb_spec (length group) 2) as [Hsmall|Hbig].
    + destruct (IH _ _ Hin) as [Hacc | [Hg Hlen]]; [now left|].
      right. split; [now right | exact Hlen].
    + assert (Hhere : In (Check.CallGroup g)
                (Check.acc_calls acc ++ [Check.CallGroup group]) ->
              In (Check.CallGroup g) (Check.acc_calls acc)
              \/ (In g (map snd ((input_id, group) :: rest)) /\ 2 <= length g)).
      { rewrite in_app_iff. intros [Hacc | [E | []]]; [now left|].
        injection E as <-. right. split; [now left | exact Hbig]. }
      destruct (check group) as [[severity annotation]|e]; [|exact (Hhere Hin)].
      destruct (IH _ _ Hin) as [Hacc | [Hg Hlen]]; [exact (Hhere Hacc)|].
      right. split; [now right | exact Hlen].
Qed.

(** The loop returns when every [check] of a group it evaluates returns,
    and raises only what such a [check] raised. *)
Lemma group_loop_outcome (groups : list (string * list Slice.t)) :
  forall acc : Check.GroupAcc,
    (Forall (fun g => is_Ok (check (snd g)) = true) (evaluated_groups groups) ->
     is_Ok (fst (Check.group_loop check groups acc)) = true)
    /\ (forall e : exn,
          fst (Check.group_loop check groups acc) = Raise e ->
          exists g, In g (evaluated_groups groups) /\ check (snd g) = Raise e).
Proof.
  induction groups as [|[input_id group] rest IH]; intros acc.
  - split; [reflexivity | discriminate].
  - cbn [Check.group_loop]. unfold evaluated_groups in *. cbn [List.filter].
    assert (Hsmall : is_small (input_id, group) = Nat.ltb (length group) 2)
      by reflexivity.
    rewrite Hsmall. destruct (Nat.ltb (length group) 2); cbn [negb].
    + apply IH.
    + destruct (check group) as [[severity annotation]|e0] eqn:Hcheck.
      * match goal with
        | |- context [Check.group_loop check rest ?a] => destruct (IH a) as [Hok Hraise]
        end.
        split.
        -- intros HF. apply Hok. now inversion HF.
        -- intros e He. destruct (Hraise e He) as (g & Hin & Hg).
           exists g. split; [now right | exact Hg].
      * split.
        -- intros HF. inversion HF as [|? ? Hhead _]; subst. cbn [snd] in Hhead.
           rewrite Hcheck in Hhead. discriminate Hhead.
        -- intros e [= <-]. exists (input_id, group). split; [now left | exact Hcheck].
Qed.

End GroupLoopFacts.

Section GroupKeyFacts.

Lemma annotate_keys_fresh (keyed : list (string * (Severity.t * option dict))) :
  forall start : dict,
    List.NoDup (dict_keys start ++ map fst keyed) ->
    dict_keys (annotate keyed start) = dict_keys start ++ map fst keyed.
Proof.
  induction keyed as [|[k o] rest IH]; intros start Hnd.
  - cbn. now rewrite app_nil_r.
  - unfold annotate in *. cbn [fold_left map fst snd] in *.
    assert (Hfresh : dict_get k start = None).
    { destruct (dict_get k start) as [x|] eqn:Hget; [|reflexivity].
      exfalso. apply NoDup_remove_2 in Hnd. apply Hnd, in_or_app. left.
      apply dict_get_Some_keys. eauto. }
    rewrite IH; rewrite dict_keys_set, Hfresh.
    + now rewrite <- app_assoc.
    + rewrite <- app_assoc. exact Hnd.
Qed.

Lemma NoDup_map_fst_filter {A B : Type} (p : A * B -> bool) (l : list (A * B)) :
  List.NoDup (map fst l) -> List.NoDup (map fst (List.filter p l)).
Proof.
  induction l as [|x rest IH]; intros Hnd; [constructor|].
  cbn [map] in Hnd. inversion Hnd as [|? ? Hnot Hnd']; subst.
  cbn [List.filter]. destruct (p x); [|now apply IH].
  cbn [map]. constructor; [|now apply IH].
  intros Hin. apply Hnot. apply in_map_iff in Hin as (y & Hy & Hfy).
  apply filter_In in Hfy as [Hfy _]. apply in_map_iff. eauto.
Qed.

Lemma evaluated_keys_NoDup (slices : list Slice.t) :
  List.NoDup (map fst (evaluated_groups (partition_by_input_id slices))).
Proof.
  apply NoDup_map_fst_filter. rewrite partition_keys. apply first_occurrences_NoDup.
Qed.

(** An input id is skipped exactly when it has one slice. *)
Lemma skipped_ids_spec (slices : list Slice.t) (key : string) :
  In key (skipped_ids (partition_by_input_id slices))
  <-> length (members key slices) = 1.
Proof.
  unfold skipped_ids, is_small. rewrite in_map_iff. split.
  - intros ([k g] & <- & Hin). apply filter_In in Hin as [Hin Hsmall].
    apply partition_In in Hin as [Hk Hg]. cbn [fst snd] in *. subst g.
    apply Nat.ltb_lt in Hsmall. apply members_nonempty in Hk.
    destruct (members k slices) as [|s [|s' rest]]; cbn in *;
      [congruence | reflexivity | lia].
  - intros Hlen. exists (key, members key slices). split; [reflexivity|].
    apply filter_In. split.
    + apply partition_In. cbn. split; [|reflexivity].
      apply members_nonempty. intros E. rewrite E in Hlen. discriminate Hlen.
    + cbn. rewrite Hlen. reflexivity.
Qed.

(** An input id is evaluated exactly when it has at least two slices. *)
Lemma evaluated_ids_spec (slices : list Slice.t) (key : string) :
  In key (map fst (evaluated_groups (partition_by_input_id slices)))
  <-> 2 <= length (members key slices).
Proof.
  unfold evaluated_groups, is_small. rewrite in_map_iff. split.
  - intros ([k g] & <- & Hin). apply filter_In in Hin as [Hin Hbig].
    apply partition_In in Hin as [Hk Hg]. cbn [fst snd] in *. subst g.
    apply negb_true_iff, Nat.ltb_ge in Hbig. exact Hbig.
  - intros Hlen. exists (key, members key slices). split; [reflexivity|].
    apply filter_In. split.
    + apply partition_In. cbn. split; [|reflexivity].
      apply members_nonempty. intros E. rewrite E in Hlen. cbn in Hlen. lia.
    + cbn [snd]. apply negb_true_iff, Nat.ltb_ge. exact Hlen.
Qed.

End GroupKeyFacts.

Section GroupEvaluateFacts.
Variable check : list Slice.t -> Check.outcome.

Lemma group_evaluate_nonempty (slices references : list Slice.t) :
  slices <> [] ->
  Check.group_evaluate check slices references
  = match Check.group_loop check (partition_by_input_id slices)
            (Check.mkGroupAcc [] [] [] []) with
    | (Raise e, calls) => (Raise e, calls)
    | (Ok acc, calls) =>
        (Ok (Severity.merge (Check.acc_severities acc),
             Check.group_out (Check.acc_results acc) (Check.acc_skipped acc)), calls)
    end.
Proof.
  destruct slices as [|s rest]; [congruence|]. intros _.
  unfold Check.group_evaluate. rewrite group_by_input_id_partition.
  destruct (Check.group_loop check _ _) as [[acc|e] calls]; [|reflexivity].
  destruct (Check.acc_severities acc); reflexivity.
Qed.

Lemma annotate_get_nodup (keyed : list (string * (Severity.t * option dict)))
    (start : dict) (k : string) (o : Severity.t * option dict) :
  List.NoDup (map fst keyed) -> In (k, o) keyed ->
  dict_get k (annotate keyed start) = Some (PDict (Check.entry (fst o) (snd o))).
Proof.
  intros Hnd Hin. apply in_split in Hin as (before & after & ->).
  apply annotate_get_last. rewrite map_app in Hnd. cbn [map fst] in Hnd.
  apply NoDup_remove_2 in Hnd. intros Hafter. apply Hnd, in_or_app. now right.
Qed.

End GroupEvaluateFacts.

(** C6: [GroupCheck.evaluate] raises on zero slices.  Otherwise it
    partitions the slices by input id, ids in order of first appearance
    and slice order kept inside a group; [check] is invoked on the groups
    of at least two slices, in order, and on no other group; the ids of
    the other groups (those with exactly one slice) are listed in
    [skipped], never appear in [groups], and contribute no severity.  The
    severity is the merge of the severities of the evaluated groups (INFO
    when there is none) and the annotation is the dictionary
    [{groups, n_groups, skipped, n_skipped}].  On a non-empty list of
    slices the evaluation returns whenever the [check] of every
    evaluated group returns, and it raises only what the [check] of an
    evaluated group raised. *)
Theorem group_evaluate_partitions_and_skips (check : list Slice.t -> Check.outcome) :
  (forall references : list Slice.t,
      Check.group_evaluate check [] references
      = (Raise (ValueError "Group checks require at least one slice."), []))
  /\ (forall slices : list Slice.t,
        Check.group_by_input_id slices
        = map (fun key => (key, members key slices))
              (first_occurrences (map Slice.input_id slices)))
  /\ (forall (slices references : list Slice.t) (g : list Slice.t),
        In (Check.CallGroup g) (snd (Check.group_evaluate check slices references)) ->
        2 <= length g /\ exists key, g = members key slices)
  /\ (forall (slices references : list Slice.t) (severity : Severity.t)
             (annotation : dict),
        fst (Check.group_evaluate check slices references) = Ok (severity, annotation) ->
        let groups := Check.group_by_input_id slices in
        exists (outs : list (Severity.t * option dict)) (results : dict),
          Forall2 (fun g o => check (snd g) = Ok o) (evaluated_groups groups) outs
          /\ snd (Check.group_evaluate check slices references)
             = map call_of_group (evaluated_groups groups)
          /\ severity = Severity.merge (map fst outs)
          /\ (evaluated_groups groups = [] -> severity = Severity.INFO)
          /\ annotation
             = [ ("groups", PDict results);
                 ("n_groups", PInt (Z.of_nat (length (evaluated_groups groups))));
                 ("skipped", PList (map PStr (skipped_ids groups)));
                 ("n_skipped", PInt (Z.of_nat (length (skipped_ids groups)))) ]
          /\ dict_keys results = map fst (evaluated_groups groups)
          /\ (forall key o,
                In (key, o) (zip (map fst (evaluated_groups groups)) outs) ->
                dict_get key results = Some (PDict (Check.entry (fst o) (snd o))))
          /\ (forall key, In key (skipped_ids groups)
                          <-> length (members key slices) = 1)
          /\ (forall key, In key (dict_keys results)
                          <-> 2 <= length (members key slices))
          /\ (forall key, length (members key slices) = 1 ->
                In key (skipped_ids groups) /\ ~ In key (dict_keys results)))
  /\ (forall slices references : list Slice.t,
        slices <> [] ->
        Forall (fun g => is_Ok (check (snd g)) = true)
               (evaluated_groups (Check.group_by_input_id slices)) ->
        is_Ok (fst (Check.group_evaluate check slices references)) = true)
  /\ (forall (slices references : list Slice.t) (e : exn),
        slices <> [] ->
        fst (Check.group_evaluate check slices references) = Raise e ->
        exists g : string * list Slice.t,
          In g (evaluated_groups (Check.group_by_input_id slices))
          /\ check (snd g) = Raise e).
Proof.
  split; [reflexivity|]. split; [exact group_by_input_id_partition|]. split; [|split].
  3: { split.
       - intros slices references Hne HF.
         rewrite group_by_input_id_partition in HF.
         rewrite (group_evaluate_nonempty check _ _ Hne).
         pose proof (proj1 (group_loop_outcome check (partition_by_input_id slices)
                              (Check.mkGroupAcc [] [] [] [])) HF) as Hok.
         destruct (Check.group_loop check (partition_by_input_id slices) _)
           as [[acc|e] calls]; [reflexivity | discriminate Hok].
       - intros slices references e Hne Hraise.
         rewrite group_by_input_id_partition.
         rewrite (group_evaluate_nonempty check _ _ Hne) in Hraise.
         pose proof (proj2 (group_loop_outcome check (partition_by_input_id slices)
                              (Check.mkGroupAcc [] [] [] [])) e) as Hwhy.
         destruct (Check.group_loop check (partition_by_input_id slices) _)
           as [[acc|e'] calls]; cbn [fst] in *; [discriminate Hraise|].
         injection Hraise as ->. apply Hwhy. reflexivity. }
  - intros slices references g Hin.
    destruct slices as [|s0 rest]; [destruct Hin|].
    rewrite group_evaluate_nonempty in Hin by discriminate.
    assert (Hcalls : In (Check.CallGroup g)
                       (snd (Check.group_loop check (partition_by_input_id (s0 :: rest))
                               (Check.mkGroupAcc [] [] [] [])))).
    { destruct (Check.group_loop check _ _) as [[acc|e] calls]; exact Hin. }
    destruct (group_loop_calls check _ _ _ Hcalls) as [[] | [Hg Hlen]].
    split; [exact Hlen|]. apply in_map_iff in Hg as ([key g'] & <- & Hp).
    apply partition_In in Hp as [_ Hp]. exists key. exact Hp.
  - intros slices references severity annotation Hok groups. subst groups.
    rewrite group_by_input_id_partition.
    destruct slices as [|s0 rest]; [discriminate Hok|].
    rewrite group_evaluate_nonempty in Hok |- * by discriminate.
    set (slices := s0 :: rest) in *.
    pose proof (group_loop_Ok check (partition_by_input_id slices)
                  (Check.mkGroupAcc [] [] [] [])) as Hloop.
    destruct (Check.group_loop check (partition_by_input_id slices) _)
      as [[acc|e] calls]; cbn [fst snd] in *; [|discriminate Hok].
    injection Hok as <- <-.
    destruct (Hloop acc eq_refl) as (outs & HF & Hsev & Hres & Hskip & Hcalls).
    cbn [Check.acc_severities Check.acc_results Check.acc_skipped Check.acc_calls app]
      in Hsev, Hres, Hskip, Hcalls.
    set (evaluated := evaluated_groups (partition_by_input_id slices)) in *.
    assert (Hlen : length (map fst evaluated) = length outs)
      by (rewrite length_map; exact (Forall2_length _ _ _ HF)).
    assert (Hkeys : dict_keys (Check.acc_results acc) = map fst evaluated).
    { rewrite Hres, annotate_keys_fresh; rewrite (zip_keys_fst _ _ Hlen).
      - reflexivity.
      - apply evaluated_keys_NoDup. }
    exists outs, (Check.acc_results acc).
    split; [exact HF|]. split; [exact Hcalls|]. split; [now rewrite Hsev|].
    split.
    { intros Hnone. rewrite Hsev. rewrite Hnone in HF. inversion HF. reflexivity. }
    split.
    { assert (Hn : length (Check.acc_results acc) = length evaluated).
      { apply (f_equal (@length string)) in Hkeys. unfold dict_keys in Hkeys.
        now rewrite !length_map in Hkeys. }
      unfold Check.group_out. rewrite Hskip, Hn. reflexivity. }
    split; [exact Hkeys|]. split.
    { intros key o Hin. rewrite Hres. apply annotate_get_nodup; [|exact Hin].
      rewrite (zip_keys_fst _ _ Hlen). apply evaluated_keys_NoDup. }
    split; [intros key; apply skipped_ids_spec|]. split.
    { intros key. rewrite Hkeys. apply evaluated_ids_spec. }
    intros key Hone. split; [now apply skipped_ids_spec|].
    rewrite Hkeys. unfold evaluated. rewrite evaluated_ids_spec. lia.
Qed.

(** ** The checks on concrete slices *)

Example group_check_skips_singleton :
  Check.group_evaluate Samples.warn_group [Samples.a1; Samples.b1; Samples.a2] []
  = (Ok (Severity.WARN,
         [ ("groups", PDict [("a", PDict [("severity", PStr "warn"); ("n", PInt 2)])]);
           ("n_groups", PInt 1);
           ("skipped", PList [PStr "b"]);
           ("n_skipped", PInt 1) ]),
     [Check.CallGroup [Samples.a1; Samples.a2]]).
Proof. vm_compute. reflexivity. Qed.

Example group_check_without_group_is_info :
  fst (Check.group_evaluate Samples.warn_group [Samples.a1; Samples.b1] [])
  = Ok (Severity.INFO,
        [ ("groups", PDict []); ("n_groups", PInt 0);
          ("skipped", PList [PStr "a"; PStr "b"]); ("n_skipped", PInt 2) ]).
Proof. vm_compute. reflexivity. Qed.

Example reference_check_count_mismatch :
  Check.reference_evaluate Samples.pass_pair [Samples.a1; Samples.b1]
    [Samples.a_reference]
  = (Raise (ValueError "Mismatched number of slices and reference slices: 2 != 1"), []).
Proof. vm_compute. reflexivity. Qed.

Example reference_check_misaligned_second_pair :
  Check.reference_evaluate Samples.pass_pair [Samples.a1; Samples.b1]
    [Samples.a_reference; Samples.a_reference]
  = (Raise (ValueError "Mismatched slice/reference alignment: input_id b != a"),
     [Check.CallReference Samples.a1 Samples.a_reference]).
Proof. vm_compute. reflexivity. Qed.

Example reference_check_aligned :
  fst (Check.reference_evaluate Samples.pass_pair [Samples.a1; Samples.b1]
         [Samples.a_reference; Samples.b_reference])
  = Ok (Severity.PASS,
        [ ("input-a-variation-SetFn-1", PDict [("severity", PStr "pass")]);
          ("input-b-variation-SetFn-1", PDict [("severity", PStr "pass")]) ]).
Proof. vm_compute. reflexivity. Qed.

Example provided_reference_is_not_executed :
  Engine._build_references [TrackingBackend.provided_input] TrackingBackend.fresh
  = (Ok {[ "0" := Slice.mk TrackingBackend.provided_input (PInt 7)
                    {["fn" := PStr "base"]} {["env" := PStr "base"]} None
                    [("source", PStr "provided")] ]},
     TrackingBackend.fresh).
Proof. vm_compute. reflexivity. Qed.

Example cleanup_test_history :
  Backend.history
    (snd (Engine.run [] TrackingBackend.test_inputs TrackingBackend.test_variations
            TrackingBackend.test_checks TrackingBackend.fresh))
  = [ EvUpdateEnvironment {["env" := PStr "base"]};
      (* references *)
      EvRun (PInt 1) true true; EvCompute (PInt 1) {["fn" := PStr "base"]};
      EvUpdateEnvironment {["env" := PStr "base"]};
      EvRun (PInt 2) true true; EvCompute (PInt 2) {["fn" := PStr "base"]};
      EvUpdateEnvironment {["env" := PStr "base"]};
      (* SetFn *)
      EvRun (PInt 1) false false; EvCompute (PInt 1) {["fn" := PStr "var"]};
      EvRun (PInt 2) false true; EvCompute (PInt 2) {["fn" := PStr "var"]};
      (* SetEnv *)
      EvUpdateEnvironment {["env" := PStr "var"]};
      EvRun (PInt 1) false false; EvCompute (PInt 1) {["fn" := PStr "base"]};
      EvRun (PInt 2) true false; EvCompute (PInt 2) {["fn" := PStr "base"]};
      EvUpdateEnvironment {["env" := PStr "base"]} ].
Proof. vm_compute. reflexivity. Qed.

(** * Further properties of the core *)

(** ** Backend: construction, environment updates and reset *)

(** X1: a backend that [__init__] returns has the given maps (or empty
    maps for [None]) as base maps, its function configuration equal to
    the base one, and has applied the base environment exactly once; its
    environment is what that first [update_environment] left of the base
    environment, the base environment itself when the hook does not
    write [self.environment].  [__init__] fails exactly when that first
    [update_environment] raises, with its error. *)
Theorem init_applies_base_once {Sys : Type} `{Backend.Impl Sys}
    (environment function : option Config) (sys : Sys) :
  let blank := Backend.mk (Backend.or_empty environment) (Backend.or_empty function)
                 (Backend.or_empty environment) (Backend.or_empty function) sys [] in
  let applied := Backend.call_update_environment (Backend.or_empty environment) blank in
  match Backend.__init__ environment function sys with
  | Ok self =>
      Backend._base_environment self = Backend.or_empty environment
      /\ Backend._base_function self = Backend.or_empty function
      /\ Backend.environment self = Backend.environment (snd applied)
      /\ (@Backend.keeps_environment Sys _ ->
            Backend.environment self = Backend._base_environment self)
      /\ Backend.function self = Backend._base_function self
      /\ Backend.history self = [EvUpdateEnvironment (Backend.or_empty environment)]
      /\ fst applied = None
  | Raise e => fst applied = Some e
  end.
Proof.
  intros blank applied. unfold Backend.__init__. fold blank.
  change (Backend.environment blank) with (Backend.or_empty environment).
  fold applied.
  pose proof (call_update_environment_frame (Backend.or_empty environment) blank)
    as (Fbe & Fbf & Fe & Ff & Fh). fold applied in Fbe, Fbf, Fe, Ff, Fh.
  destruct applied as [[e|] self]; cbn [fst snd] in *; [reflexivity|].
  rewrite Fbe, Fbf, Ff, Fh.
  split; [reflexivity|]. split; [reflexivity|]. split; [reflexivity|].
  split; [intros Hkeeps; exact (Fe Hkeeps)|]. repeat split.
Qed.

Example project_backend_starts_away_from_base :
  ProjectBackend.new = Ok ProjectBackend.fresh
  /\ Backend.environment ProjectBackend.fresh
     = <["project_id" := PInt 7]> (Backend._base_environment ProjectBackend.fresh)
  /\ Backend.environment ProjectBackend.fresh
     <> Backend._base_environment ProjectBackend.fresh.
Proof.
  split; [vm_compute; reflexivity|]. split; [reflexivity|].
  intros E. apply (f_equal (fun m : Config => m !! "project_id")) in E.
  vm_compute in E. discriminate E.
Qed.

(** The tracking backend of the tests keeps the environment; the hook of
    [DatsLlm] does not. *)
Example tracking_backend_keeps_environment :
  @Backend.keeps_environment TrackingBackend.state _.
Proof. intros cfg self. reflexivity. Qed.

Example project_backend_writes_environment :
  ~ @Backend.keeps_environment ProjectBackend.state _.
Proof.
  intros Hkeeps.
  specialize (Hkeeps ProjectBackend.base_environment
                (Backend.mk ProjectBackend.base_environment ∅
                            ProjectBackend.base_environment ∅ 7%Z [])).
  apply (f_equal (fun m : Config => m !! "project_id")) in Hkeeps.
  vm_compute in Hkeeps. discriminate Hkeeps.
Qed.

Section SetEnvironmentFacts.
Context {Sys : Type} `{Backend.Impl Sys}.

Lemma set_environment_spec (self : Backend.t Sys) (partial : Config) :
  let merged := partial ∪ Backend.environment self in
  let applied := Backend.call_update_environment merged
                   (Backend.with_environment merged self) in
  let r := fst (Backend.set_environment partial self) in
  let self' := snd (Backend.set_environment partial self) in
  (Backend.environment self' = Backend.environment (snd applied)
   /\ (@Backend.keeps_environment Sys _ -> Backend.environment self' = merged))
  /\ Backend.function self' = Backend.function self
  /\ Backend._base_environment self' = Backend._base_environment self
  /\ Backend._base_function self' = Backend._base_function self
  /\ Backend.history self' = Backend.history self ++ [EvUpdateEnvironment merged]
  /\ r = match fst applied with
         | Some e => Raise e
         | None => Ok tt
         end.
Proof.
  intros merged applied r self'. subst r self'.
  unfold Backend.set_environment. fold merged. fold applied.
  pose proof (call_update_environment_frame merged (Backend.with_environment merged self))
    as (Fbe & Fbf & Fe & Ff & Fh). fold applied in Fbe, Fbf, Fe, Ff, Fh.
  destruct applied as [[e|] s1]; cbn [fst snd] in *; rewrite Fbe, Fbf, Ff, Fh;
    (split; [split; [reflexivity | intros Hkeeps; exact (Fe Hkeeps)]|]); repeat split.
Qed.

Lemma reset_spec (s : Backend.t Sys) :
  Backend.function (snd (Backend.reset s)) = Backend._base_function s
  /\ (@Backend.keeps_environment Sys _ ->
      Backend.environment (snd (Backend.reset s)) = Backend._base_environment s)
  /\ Backend._base_environment (snd (Backend.reset s)) = Backend._base_environment s
  /\ Backend._base_function (snd (Backend.reset s)) = Backend._base_function s
  /\ Backend.history (snd (Backend.reset s))
     = Backend.history s ++ [EvUpdateEnvironment (Backend._base_environment s)]
  /\ Backend.reset s
     = match Backend.call_update_environment (Backend._base_environment s)
               (Backend.with_environment (Backend._base_environment s)
                  (Backend.with_function (Backend._base_function s) s)) with
       | (Some e, s') => (Raise e, s')
       | (None, s') => (Ok tt, s')
       end.
Proof.
  unfold Backend.reset.
  set (s1 := Backend.with_environment _ _).
  change (Backend.environment s1) with (Backend._base_environment s).
  pose proof (call_update_environment_frame (Backend._base_environment s) s1)
    as (Fbe & Fbf & Fe & Ff & Fh).
  destruct (Backend.call_update_environment (Backend._base_environment s) s1)
    as [[e|] s2]; cbn [fst snd] in *; rewrite Fbe, Fbf, Ff, Fh;
    (split; [reflexivity|]); (split; [intros Hkeeps; exact (Fe Hkeeps)|]);
    repeat split.
Qed.

End SetEnvironmentFacts.

(** X2: [set_environment] stores the current environment overwritten key
    by key with the given map and then calls [update_environment] exactly
    once, with the merged map; the function configuration and both base
    maps stay.  The environment it leaves is what the hook left of the
    merged one: the merged one itself, key by key, when the hook does not
    write [self.environment].  When that call raises, the error
    propagates and nothing is rolled back. *)
Theorem set_environment_applies_merged {Sys : Type} `{Backend.Impl Sys}
    (self : Backend.t Sys) (partial : Config) :
  let merged := partial ∪ Backend.environment self in
  let stored := Backend.with_environment merged self in
  let applied := Backend.call_update_environment merged stored in
  let r := fst (Backend.set_environment partial self) in
  let self' := snd (Backend.set_environment partial self) in
  (forall key : string,
      Backend.environment stored !! key =
        match partial !! key with
        | Some v => Some v
        | None => Backend.environment self !! key
        end)
  /\ Backend.set_environment partial self
     = (match fst applied with Some e => Raise e | None => Ok tt end, snd applied)
  /\ (@Backend.keeps_environment Sys _ -> Backend.environment self' = merged)
  /\ Backend.function self' = Backend.function self
  /\ Backend._base_environment self' = Backend._base_environment self
  /\ Backend._base_function self' = Backend._base_function self
  /\ Backend.history self' = Backend.history self ++ [EvUpdateEnvironment merged]
  /\ r = match fst applied with
         | Some e => Raise e
         | None => Ok tt
         end.
Proof.
  intros merged stored applied r self'.
  destruct (set_environment_spec self partial) as ([_ He] & Hf & Hbe & Hbf & Hh & Hr).
  split.
  { intros key. subst stored merged. cbn. rewrite lookup_union.
    destruct (partial !! key), (Backend.environment self !! key); reflexivity. }
  split.
  { unfold Backend.set_environment. fold merged. fold stored. fold applied.
    destruct applied as [[e|] s1]; reflexivity. }
  repeat split; assumption.
Qed.

(** X3: [reset] always leaves the function configuration equal to the
    base one, whatever the state before and even when its
    [update_environment] call raises, and the environment too when the
    hook does not write [self.environment]; it calls
    [update_environment] exactly once, with the base environment.  A
    [reset] after any [set_function] and [set_environment] gives the
    function configuration of a [reset] alone, and the same environment
    when the hook does not write it. *)
Theorem reset_restores_base {Sys : Type} `{Backend.Impl Sys} (self : Backend.t Sys) :
  Backend.function (snd (Backend.reset self))
    = Backend._base_function (snd (Backend.reset self))
  /\ (@Backend.keeps_environment Sys _ -> at_base (snd (Backend.reset self)))
  /\ Backend._base_environment (snd (Backend.reset self)) = Backend._base_environment self
  /\ Backend._base_function (snd (Backend.reset self)) = Backend._base_function self
  /\ Backend.history (snd (Backend.reset self))
     = Backend.history self ++ [EvUpdateEnvironment (Backend._base_environment self)]
  /\ (forall fn env : Config,
        let changed := snd (Backend.set_environment env
                              (snd (Backend.set_function fn self))) in
        Backend.function (snd (Backend.reset changed))
          = Backend.function (snd (Backend.reset self))
        /\ (@Backend.keeps_environment Sys _ ->
              Backend.environment (snd (Backend.reset changed))
              = Backend.environment (snd (Backend.reset self)))).
Proof.
  destruct (reset_spec self) as (Hf & He & Hbe & Hbf & Hh & _).
  split; [congruence|].
  split; [intros Hkeeps; split; [rewrite (He Hkeeps) | ]; congruence|].
  split; [exact Hbe|]. split; [exact Hbf|]. split; [exact Hh|].
  intros fn env changed.
  destruct (reset_spec changed) as (Hf' & He' & _).
  destruct (set_environment_spec (snd (Backend.set_function fn self)) env)
    as (_ & _ & Sbe & Sbf & _).
  cbn zeta in Sbe, Sbf. fold changed in Sbe, Sbf.
  split; [rewrite Hf', Hf, Sbf; reflexivity|].
  intros Hkeeps. rewrite (He' Hkeeps), (He Hkeeps), Sbe. reflexivity.
Qed.

(** X4: successive [set_function] calls compose into one call with the
    later map laid over the earlier one; repeating a call changes nothing
    more; and a key is read from the latest call that set it. *)
Theorem set_function_composes {Sys : Type} `{Backend.Impl Sys}
    (self : Backend.t Sys) (first second : Config) :
  snd (Backend.set_function second (snd (Backend.set_function first self)))
    = snd (Backend.set_function (second ∪ first) self)
  /\ snd (Backend.set_function first (snd (Backend.set_function first self)))
     = snd (Backend.set_function first self)
  /\ (forall key : string,
        Backend.function
          (snd (Backend.set_function second (snd (Backend.set_function first self))))
          !! key
        = match second !! key, first !! key with
          | Some v, _ => Some v
          | None, Some v => Some v
          | None, None => Backend.function self !! key
          end).
Proof.
  unfold Backend.set_function, Backend.with_function. cbn.
  split; [now rewrite (assoc_L (∪))|].
  split; [now rewrite (assoc_L (∪)), (idemp_L (∪))|].
  intros key. rewrite !lookup_union.
  destruct (second !! key), (first !! key), (Backend.function self !! key); reflexivity.
Qed.

(** ** Variation.apply of the three classes *)

(** X5: [InputVariation.apply] never touches the backend and answers the
    list [vary] returned, or the copy it mutated when it returned nothing.
    [FunctionVariation.apply] hands the inputs through, changes only the
    current function configuration (to the outcome of [vary] laid over
    it) and calls no extension point.  [EnvironmentVariation.apply] hands
    the inputs through, leaves the function configuration and the base
    maps alone and calls [update_environment] exactly once, with the
    outcome of [vary] laid over the current environment; that is the
    environment it leaves when the hook does not write
    [self.environment].  When [vary] raises, the backend is as before. *)
Theorem apply_touches_only_its_domain {Sys : Type} `{Backend.Impl Sys}
    (name : string) (hash : Z) (inputs : list Input.t) (self : Backend.t Sys) :
  (forall vary : list Input.t -> result (list Input.t * option (list Input.t)),
      snd (Variation.apply (Variation.InputVariation name hash vary) inputs self) = self
      /\ fst (Variation.apply (Variation.InputVariation name hash vary) inputs self)
         = match vary inputs with
           | Ok (copied, Some returned) => Ok returned
           | Ok (copied, None) => Ok copied
           | Raise e => Raise e
           end)
  /\ (forall vary : Config -> result (Config * option Config),
        let v := Variation.FunctionVariation name hash vary in
        let self' := snd (Variation.apply v inputs self) in
        Backend.environment self' = Backend.environment self
        /\ Backend._base_environment self' = Backend._base_environment self
        /\ Backend._base_function self' = Backend._base_function self
        /\ Backend.system self' = Backend.system self
        /\ Backend.history self' = Backend.history self
        /\ match vary (Backend.function self) with
           | Ok (copied, returned) =>
               fst (Variation.apply v inputs self) = Ok inputs
               /\ Backend.function self'
                  = Variation.returned_or copied returned ∪ Backend.function self
           | Raise e =>
               fst (Variation.apply v inputs self) = Raise e
               /\ Backend.function self' = Backend.function self
           end)
  /\ (forall vary : Config -> result (Config * option Config),
        let v := Variation.EnvironmentVariation name hash vary in
        let self' := snd (Variation.apply v inputs self) in
        Backend.function self' = Backend.function self
        /\ Backend._base_environment self' = Backend._base_environment self
        /\ Backend._base_function self' = Backend._base_function self
        /\ match vary (Backend.environment self) with
           | Ok (copied, returned) =>
               let merged := Variation.returned_or copied returned
                             ∪ Backend.environment self in
               (@Backend.keeps_environment Sys _ ->
                  Backend.environment self' = merged)
               /\ Backend.history self'
                  = Backend.history self ++ [EvUpdateEnvironment merged]
               /\ (forall applied,
                     fst (Variation.apply v inputs self) = Ok applied ->
                     applied = inputs)
           | Raise e =>
               Variation.apply v inputs self = (Raise e, self)
           end).
Proof.
  split; [|split].
  - intros vary. unfold Variation.apply. monad_simpl.
    destruct (vary inputs) as [[copied [returned|]]|e]; split; reflexivity.
  - intros vary v self'. subst v self'. unfold Variation.apply. monad_simpl.
    destruct (vary (Backend.function self)) as [[copied returned]|e]; cbn;
      repeat split.
  - intros vary v self'. subst v self'. unfold Variation.apply. monad_simpl.
    destruct (vary (Backend.environment self)) as [[copied returned]|e]; cbn;
      [|repeat split].
    destruct (set_environment_spec self (Variation.returned_or copied returned))
      as ([_ He] & Hf & Hbe & Hbf & Hh & Hr).
    cbn zeta in *.
    destruct (Backend.set_environment (Variation.returned_or copied returned) self)
      as [[[]|e] s1]; cbn [fst snd] in *;
      (split; [exact Hf|]); (split; [exact Hbe|]); (split; [exact Hbf|]);
      (split; [exact He|]); (split; [exact Hh|]).
    + intros applied [= <-]. reflexivity.
    + discriminate.
Qed.

(** ** Built-in SetFunction and SetEnvironment *)

(** X6: applying the built-in [SetFunction] sets exactly the given keys
    of the current function configuration and keeps every other key,
    hands the inputs through and calls no extension point; applying it a
    second time changes nothing.  The built-in [SetEnvironment] has
    [update_environment] called once with the current environment
    overwritten by the given keys and leaves the function configuration
    alone; the environment it leaves is that overwritten environment
    when the hook does not write [self.environment]. *)
Theorem builtin_set_variations {Sys : Type} `{Backend.Impl Sys}
    (hash : Z) (kwargs : Config) (inputs : list Input.t) (self : Backend.t Sys) :
  Variation.apply (Builtin.SetFunction hash kwargs) inputs self
    = (Ok inputs, Backend.with_function (kwargs ∪ Backend.function self) self)
  /\ (forall key : string,
        Backend.function
          (snd (Variation.apply (Builtin.SetFunction hash kwargs) inputs self)) !! key
        = match kwargs !! key with
          | Some v => Some v
          | None => Backend.function self !! key
          end)
  /\ snd (Variation.apply (Builtin.SetFunction hash kwargs) inputs
            (snd (Variation.apply (Builtin.SetFunction hash kwargs) inputs self)))
     = snd (Variation.apply (Builtin.SetFunction hash kwargs) inputs self)
  /\ (@Backend.keeps_environment Sys _ ->
        Backend.environment
          (snd (Variation.apply (Builtin.SetEnvironment hash kwargs) inputs self))
        = kwargs ∪ Backend.environment self)
  /\ Backend.function
       (snd (Variation.apply (Builtin.SetEnvironment hash kwargs) inputs self))
     = Backend.function self
  /\ Backend.history
       (snd (Variation.apply (Builtin.SetEnvironment hash kwargs) inputs self))
     = Backend.history self
       ++ [EvUpdateEnvironment (kwargs ∪ Backend.environment self)].
Proof.
  assert (Hfn : forall s : Backend.t Sys,
             Variation.apply (Builtin.SetFunction hash kwargs) inputs s
             = (Ok inputs, Backend.with_function (kwargs ∪ Backend.function s) s)).
  { intros s. unfold Builtin.SetFunction, Variation.apply. monad_simpl.
    now rewrite <- (assoc_L (∪)), (idemp_L (∪)). }
  split; [apply Hfn|]. split.
  { intros key. rewrite Hfn. cbn. rewrite lookup_union.
    destruct (kwargs !! key), (Backend.function self !! key); reflexivity. }
  split.
  { rewrite !Hfn. cbn. unfold Backend.with_function. cbn.
    now rewrite (assoc_L (∪)), (idemp_L (∪)). }
  unfold Builtin.SetEnvironment, Variation.apply. monad_simpl.
  destruct (set_environment_spec self (kwargs ∪ Backend.environment self))
    as ([_ He] & Hf & _ & _ & Hh & _).
  cbn zeta in *. rewrite <- (assoc_L (∪)), (idemp_L (∪)) in He, Hh.
  destruct (Backend.set_environment (kwargs ∪ Backend.environment self) self)
    as [[[]|e] s1]; cbn [fst snd] in *; repeat split; assumption.
Qed.

(** ** UnaryCheck.evaluate *)

Section UnaryCheckFacts.
Variable check : Slice.t -> Check.outcome.

Lemma unary_loop_Ok (slices : list Slice.t) :
  forall (severities : list Severity.t) (result_ : dict) (calls : list Check.Call)
         (severities' : list Severity.t) (result' : dict),
    fst (Check.unary_loop check slices severities result_ calls)
      = Ok (severities', result') ->
    snd (Check.unary_loop check slices severities result_ calls)
      = calls ++ map call_of_slice slices
    /\ exists outs : list (Severity.t * option dict),
         Forall2 (fun slice o => check slice = Ok o) slices outs
         /\ severities' = severities ++ map fst outs
         /\ result' = annotate (zip (map Slice.id slices) outs) result_.
Proof.
  induction slices as [|slice rest IH];
    intros severities result_ calls severities' result' Hok.
  - cbn in Hok. injection Hok as <- <-. cbn. rewrite !app_nil_r.
    split; [reflexivity|]. exists (@nil (Severity.t * option dict)).
    cbn. rewrite app_nil_r. split; [constructor|]. split; reflexivity.
  - cbn [Check.unary_loop] in *.
    destruct (check slice) as [[severity annotation]|e] eqn:Hcheck; [|discriminate Hok].
    destruct (IH _ _ _ _ _ Hok) as (Hcalls & outs & HF & -> & ->).
    split; [rewrite Hcalls, <- app_assoc; reflexivity|].
    exists ((severity, annotation) :: outs).
    split; [constructor; [exact Hcheck | exact HF]|].
    split; [now rewrite <- app_assoc | reflexivity].
Qed.

(** The first [check] that raises ends the loop with its error; the
    slices after it are not looked at. *)
Lemma unary_loop_raises (before after : list Slice.t) (slice : Slice.t) (e : exn)
    (outs : list (Severity.t * option dict)) :
  Forall2 (fun s o => check s = Ok o) before outs ->
  check slice = Raise e ->
  forall (severities : list Severity.t) (result_ : dict) (calls : list Check.Call),
    Check.unary_loop check (before ++ slice :: after) severities result_ calls
    = (Raise e, calls ++ map call_of_slice (before ++ [slice])).
Proof.
  intros HF Hraise. induction HF as [|s o before outs Ho _ IH];
    intros severities result_ calls.
  - cbn. now rewrite Hraise.
  - cbn [app Check.unary_loop]. rewrite Ho. destruct o as [severity annotation].
    rewrite IH. cbn [map app]. now rewrite <- app_assoc.
Qed.

Lemma unary_evaluate_nonempty (slices references : list Slice.t) :
  slices <> [] ->
  Check.unary_evaluate check slices references
  = match Check.unary_loop check slices [] [] [] with
    | (Raise e, calls) => (Raise e, calls)
    | (Ok (severities, result_), calls) =>
        (Ok (Severity.merge severities, result_), calls)
    end.
Proof. destruct slices as [|s rest]; [congruence | reflexivity]. Qed.

(** The loop returns when every [check] returns. *)
Lemma unary_loop_returns (slices : list Slice.t)
    (outs : list (Severity.t * option dict)) :
  Forall2 (fun slice o => check slice = Ok o) slices outs ->
  forall (severities : list Severity.t) (result_ : dict) (calls : list Check.Call),
    Check.unary_loop check slices severities result_ calls
    = (Ok (severities ++ map fst outs,
           annotate (zip (map Slice.id slices) outs) result_),
       calls ++ map call_of_slice slices).
Proof.
  induction 1 as [|slice o slices outs Ho _ IH]; intros severities result_ calls.
  - cbn. now rewrite !app_nil_r.
  - cbn [Check.unary_loop]. rewrite Ho. destruct o as [severity annotation].
    rewrite IH. cbn. now rewrite <- !app_assoc.
Qed.

End UnaryCheckFacts.

(** X7: [UnaryCheck.evaluate] raises on zero slices and never reads the
    references.  It invokes [check] on the slices in order; the first
    [check] that raises ends the evaluation with that error, later slices
    not being checked.  When every [check] returns, the evaluation
    returns, after one [check] per slice: the severity is the merge of
    the severities and the annotation has exactly the slice ids as
    keys. *)
Theorem unary_evaluate_checks_each_slice (check : Slice.t -> Check.outcome) :
  (forall references : list Slice.t,
      Check.unary_evaluate check [] references
      = (Raise (ValueError "Unary checks require at least one slice."), []))
  /\ (forall slices references references' : list Slice.t,
        Check.unary_evaluate check slices references
        = Check.unary_evaluate check slices references')
  /\ (forall (before after references : list Slice.t) (slice : Slice.t) (e : exn)
             (outs : list (Severity.t * option dict)),
        Forall2 (fun s o => check s = Ok o) before outs ->
        check slice = Raise e ->
        Check.unary_evaluate check (before ++ slice :: after) references
        = (Raise e, map call_of_slice (before ++ [slice])))
  /\ (forall (slices references : list Slice.t) (severity : Severity.t)
             (annotation : dict),
        fst (Check.unary_evaluate check slices references) = Ok (severity, annotation) ->
        slices <> []
        /\ snd (Check.unary_evaluate check slices references)
           = map call_of_slice slices
        /\ exists outs : list (Severity.t * option dict),
             Forall2 (fun slice o => check slice = Ok o) slices outs
             /\ severity = Severity.merge (map fst outs)
             /\ annotation = annotate (zip (map Slice.id slices) outs) []
             /\ forall key : string,
                  In key (dict_keys annotation) <-> In key (map Slice.id slices))
  /\ (forall (slices references : list Slice.t)
             (outs : list (Severity.t * option dict)),
        slices <> [] ->
        Forall2 (fun slice o => check slice = Ok o) slices outs ->
        Check.unary_evaluate check slices references
        = (Ok (Severity.merge (map fst outs),
               annotate (zip (map Slice.id slices) outs) []),
           map call_of_slice slices)).
Proof.
  split; [reflexivity|]. split; [intros [|s rest] references references'; reflexivity|].
  split; [|split].
  3: { intros slices references outs Hne HF.
       rewrite (unary_evaluate_nonempty check _ _ Hne).
       rewrite (unary_loop_returns check slices outs HF). reflexivity. }
  - intros before after references slice e outs HF Hraise.
    rewrite unary_evaluate_nonempty by (destruct before; discriminate).
    now rewrite (unary_loop_raises check before after slice e outs HF Hraise).
  - intros slices references severity annotation Hok.
    destruct slices as [|s0 rest]; [discriminate Hok|].
    rewrite unary_evaluate_nonempty in Hok |- * by discriminate.
    pose proof (unary_loop_Ok check (s0 :: rest) [] [] []) as Hloop.
    destruct (Check.unary_loop check (s0 :: rest) [] [] [])
      as [[[severities result_]|e] calls]; cbn [fst snd] in *; [|discriminate Hok].
    injection Hok as <- <-.
    destruct (Hloop _ _ eq_refl) as (Hcalls & outs & HF & -> & ->).
    split; [discriminate|]. split; [exact Hcalls|].
    exists outs. split; [exact HF|]. split; [reflexivity|]. split; [reflexivity|].
    intros key. rewrite annotate_keys, zip_keys_fst.
    + change (dict_keys (@nil (string * pyval))) with (@nil string).
      split; [intros [[] | Hin]; exact Hin | now right].
    + rewrite length_map. exact (Forall2_length _ _ _ HF).
Qed.

(** ** Engine: the slices of a batch *)

Section BatchSliceFacts.
Context {Sys : Type} `{Backend.Impl Sys}.

Lemma run_inputs_from_slices (variation : option Variation.t) (total_inputs : nat)
    (inputs : list Input.t) :
  forall (input_index : nat) (slices : list Slice.t) (self : Backend.t Sys)
         (result_ : list Slice.t),
    total_inputs = input_index + length inputs ->
    fst (Engine.run_inputs_from variation total_inputs input_index inputs slices self)
      = Ok result_ ->
    exists added : list Slice.t,
      result_ = slices ++ added
      /\ Forall2 (records_input variation (Backend.function self)
                    (Backend.environment self)) inputs added.
Proof.
  induction inputs as [|input rest IH];
    intros input_index slices self result_ Htotal Hok.
  - cbn in Hok. injection Hok as <-. exists (@nil Slice.t).
    rewrite app_nil_r. split; [reflexivity | constructor].
  - cbn [Engine.run_inputs_from] in Hok. unfold bind in Hok.
    pose proof (run_input_spec variation total_inputs input_index input self)
      as [Hsnd Hfst].
    cbn zeta in Hsnd, Hfst. simpl in Htotal.
    rewrite !(is_last_input_when_last _ _ rest _ Htotal) in Hsnd, Hfst.
    set (ce := when_last rest
                 (Engine.intent_is (Engine.intent_of variation) Variation.ENVIRONMENT)) in *.
    set (cf := when_last rest
                 (Engine.intent_is (Engine.intent_of variation) Variation.FUNCTION)) in *.
    pose proof (run_spec (Input.data input) ce cf self) as (_ & _ & Rf & Re & _).
    cbn zeta in Rf, Re.
    destruct (Engine.run_input variation total_inputs input_index input self)
      as [[slice|e] s1]; cbn [fst snd] in *; [|discriminate Hok].
    subst s1.
    destruct (fst (Backend.run (Input.data input) ce cf self)) as [output|e];
      [|discriminate Hfst].
    injection Hfst as ->.
    destruct rest as [|input' rest'].
    + cbn in Hok. injection Hok as <-. eexists. split; [reflexivity|].
      constructor; [repeat split | constructor].
    + assert (Htotal' : total_inputs = S input_index + length (input' :: rest'))
        by (simpl in *; lia).
      destruct (IH (S input_index) _ _ result_ Htotal' Hok) as (added & -> & HF).
      subst ce cf. cbn [when_last] in Rf, Re, HF.
      rewrite Rf, (Re (or_introl eq_refl)) in HF.
      eexists. split; [rewrite <- app_assoc; reflexivity|].
      constructor; [repeat split | exact HF].
Qed.

Lemma _run_variation_slices (inputs : list Input.t) (variation : option Variation.t)
    (self : Backend.t Sys) (slices : list Slice.t) :
  fst (Engine._run_variation inputs variation self) = Ok slices ->
  Forall2 (records_input variation (Backend.function self) (Backend.environment self))
          inputs slices.
Proof.
  intros Hok. unfold Engine._run_variation in Hok.
  destruct (run_inputs_from_slices variation (length inputs) inputs 0 [] self slices
              eq_refl Hok) as (added & -> & HF).
  exact HF.
Qed.

End BatchSliceFacts.

(** X8: a batch that completes yields exactly one slice per input, in
    input order; each slice records its input, the variation of the pass,
    and the function configuration and environment the backend had when
    the batch started (for a FUNCTION or ENVIRONMENT pass: the mutated
    ones, also in the slice of the last input, after which the backend is
    reset). *)
Theorem _run_variation_one_slice_per_input {Sys : Type} `{Backend.Impl Sys}
    (inputs : list Input.t) (variation : option Variation.t) (self : Backend.t Sys)
    (slices : list Slice.t) :
  fst (Engine._run_variation inputs variation self) = Ok slices ->
  length slices = length inputs
  /\ map Slice.input slices = inputs
  /\ map Slice.input_id slices = map Input.id inputs
  /\ forall (i : nat) (slice : Slice.t),
       slices !! i = Some slice ->
       inputs !! i = Some (Slice.input slice)
       /\ Slice.variation slice = variation
       /\ Slice.function slice = Backend.function self
       /\ Slice.environment slice = Backend.environment self
       /\ Slice.meta slice = [].
Proof.
  intros Hok. pose proof (_run_variation_slices inputs variation self slices Hok) as HF.
  split; [symmetry; exact (Forall2_length _ _ _ HF)|].
  assert (Hinputs : map Slice.input slices = inputs).
  { clear Hok. induction HF as [|input slice inputs slices Hs _ IH]; [reflexivity|].
    cbn. rewrite IH. destruct Hs as (-> & _). reflexivity. }
  split; [exact Hinputs|]. split.
  { rewrite <- Hinputs, map_map. reflexivity. }
  intros i slice Hi.
  destruct (Forall2_lookup_r _ _ _ _ _ HF Hi) as (input & Hinput & Hrec).
  destruct Hrec as (Hin & Hv & Hf & He & Hm).
  rewrite Hin. repeat split; assumption.
Qed.

Lemma tracking_batch_slices :
  exists slices : list Slice.t,
    fst (Engine._run_variation TrackingBackend.three_inputs None TrackingBackend.fresh)
      = Ok slices
    /\ map Slice.input slices = TrackingBackend.three_inputs.
Proof.
  destruct (fst (Engine._run_variation TrackingBackend.three_inputs None
                   TrackingBackend.fresh)) as [slices|e] eqn:Hrun.
  - exists slices. split; [reflexivity|].
    exact (proj1 (proj2 (_run_variation_one_slice_per_input
                           TrackingBackend.three_inputs None TrackingBackend.fresh
                           slices Hrun))).
  - exfalso. vm_compute in Hrun. discriminate Hrun.
Defined.

(** X9: the cleanup of a batch hangs on its last input.  If a batch
    stops before the [run] of its last input is entered (an earlier
    [compute] raised), the batch has failed and the current function
    configuration and environment are left as they were when the batch
    started, for a FUNCTION or ENVIRONMENT pass the mutated ones.  Once the
    [run] of the last input has been entered, whether it returned or
    raised, the function configuration of a FUNCTION pass is the base one
    again, and so is the environment of an ENVIRONMENT pass when the
    backend's [update_environment] does not write [self.environment]. *)
Theorem batch_cleanup_needs_last_input {Sys : Type} `{Backend.Impl Sys}
    (inputs : list Input.t) (variation : option Variation.t) (self : Backend.t Sys) :
  exists new : list Event,
    Backend.history (snd (Engine._run_variation inputs variation self))
      = Backend.history self ++ new
    /\ length (run_calls new) <= length inputs
    /\ (length (run_calls new) < length inputs ->
          is_Ok (fst (Engine._run_variation inputs variation self)) = false
          /\ Backend.function (snd (Engine._run_variation inputs variation self))
             = Backend.function self
          /\ Backend.environment (snd (Engine._run_variation inputs variation self))
             = Backend.environment self)
    /\ (length (run_calls new) = length inputs -> inputs <> [] ->
          (Engine.intent_of variation = Some Variation.FUNCTION ->
             Backend.function (snd (Engine._run_variation inputs variation self))
             = Backend._base_function self)
          /\ (Engine.intent_of variation = Some Variation.ENVIRONMENT ->
                @Backend.keeps_environment Sys _ ->
                Backend.environment (snd (Engine._run_variation inputs variation self))
                = Backend._base_environment self)).
Proof.
  destruct (_run_variation_spec inputs variation self)
    as (k & Hk & Hok & Hh & _ & _ & Hf & He).
  eexists. split; [exact Hh|].
  rewrite run_calls_batch, length_take, batch_flags_length.
  replace (k `min` length inputs) with k by lia.
  split; [exact Hk|]. split.
  - intros Hlt. split.
    + destruct (is_Ok _); [specialize (Hok eq_refl); lia | reflexivity].
    + destruct (Nat.eqb_spec k (length inputs)) as [E|_]; [lia|].
      cbn in Hf, He. split; [assumption | exact (He (or_introl eq_refl))].
  - intros -> Hne. rewrite Nat.eqb_refl in Hf, He.
    assert (Hpos : Nat.eqb (length inputs) 0 = false)
      by (destruct inputs; [congruence | reflexivity]).
    rewrite Hpos in Hf, He. cbn in Hf, He. split; intros Hintent.
    + apply intent_is_true in Hintent. now rewrite Hintent in Hf.
    + intros Hkeeps. apply intent_is_true in Hintent.
      specialize (He (or_intror Hkeeps)). now rewrite Hintent in He.
Qed.

Example failed_batch_keeps_mutated_function :
  fst (Engine.variation_pass TrackingBackend.test_inputs 1 0
         (Some (Builtin.SetFunction 1 {["fn" := PStr "x"]})) [] []
         FailingBackend.fresh)
    = Raise (RuntimeError "compute failed")
  /\ Backend.function
       (snd (Engine.variation_pass TrackingBackend.test_inputs 1 0
               (Some (Builtin.SetFunction 1 {["fn" := PStr "x"]})) [] []
               FailingBackend.fresh))
     = {["fn" := PStr "x"]}
  /\ Backend._base_function
       (snd (Engine.variation_pass TrackingBackend.test_inputs 1 0
               (Some (Builtin.SetFunction 1 {["fn" := PStr "x"]})) [] []
               FailingBackend.fresh))
     = {["fn" := PStr "base"]}.
Proof. repeat split; vm_compute; reflexivity. Qed.

(** ** Engine: what reference construction does to the backend *)

Section ReferenceCleanupFacts.
Context {Sys : Type} `{Backend.Impl Sys}.

Lemma build_references_from_provided (inputs : list Input.t) :
  forall (references : gmap string Slice.t) (self : Backend.t Sys),
    forallb (fun input => negb (needs_run input)) inputs = true ->
    snd (Engine.build_references_from inputs references self) = self
    /\ is_Ok (fst (Engine.build_references_from inputs references self)) = true.
Proof.
  induction inputs as [|input rest IH]; intros references self Hall;
    [split; reflexivity|].
  cbn [forallb] in Hall. apply andb_true_iff in Hall as [Hin Hrest].
  apply negb_true_iff in Hin.
  cbn [Engine.build_references_from]. unfold bind.
  rewrite (build_reference_provided input self Hin). now apply IH.
Qed.

Lemma build_references_from_forces_base (inputs : list Input.t) :
  forall (references : gmap string Slice.t) (self : Backend.t Sys),
    let self' := snd (Engine.build_references_from inputs references self) in
    existsb needs_run inputs = true ->
    is_Ok (fst (Engine.build_references_from inputs references self)) = true ->
    Backend.function self' = Backend._base_function self'
    /\ (@Backend.keeps_environment Sys _ -> at_base self').
Proof.
  induction inputs as [|input rest IH]; intros references self self' Hsome Hok;
    subst self'; [discriminate Hsome|].
  cbn [Engine.build_references_from] in *. unfold bind in *.
  destruct (needs_run input) eqn:Hneeds.
  - rewrite (build_reference_executed input self Hneeds) in *.
    pose proof (run_spec (Input.data input) true true self)
      as (Rbe & Rbf & Rf & Re & _).
    cbn zeta in Rbe, Rbf, Rf, Re.
    destruct (Backend.run (Input.data input) true true self) as [[output|e] s1];
      cbn [fst snd] in *; [|discriminate Hok].
    match type of Hok with
    | is_Ok (fst (Engine.build_references_from rest ?m s1)) = true =>
        destruct (build_references_from_spec rest m s1) as (_ & _ & [Hfn Hbase] & _)
    end.
    split; [apply Hfn; congruence|].
    intros Hkeeps. apply (Hbase Hkeeps). split; [|congruence].
    rewrite (Re (or_intror Hkeeps)). congruence.
  - rewrite (build_reference_provided input self Hneeds) in *.
    cbn [existsb] in Hsome. rewrite Hneeds in Hsome. now apply IH.
Qed.

End ReferenceCleanupFacts.

(** X10: reference construction either leaves the backend exactly as it
    found it (every input declares a reference value: the phase cannot
    fail and makes no call at all), or, as soon as one input has to be
    executed and the phase completes, ends with the function
    configuration equal to the base one, whatever configuration the
    backend had before, and with the environment equal to the base one
    too when the backend's [update_environment] does not write
    [self.environment]. *)
Theorem _build_references_untouched_or_base {Sys : Type} `{Backend.Impl Sys}
    (inputs : list Input.t) (self : Backend.t Sys) :
  (forallb (fun input => negb (needs_run input)) inputs = true ->
     snd (Engine._build_references inputs self) = self
     /\ is_Ok (fst (Engine._build_references inputs self)) = true)
  /\ (existsb needs_run inputs = true ->
        is_Ok (fst (Engine._build_references inputs self)) = true ->
        Backend.function (snd (Engine._build_references inputs self))
          = Backend._base_function (snd (Engine._build_references inputs self))
        /\ (@Backend.keeps_environment Sys _ ->
              at_base (snd (Engine._build_references inputs self)))).
Proof.
  split.
  - apply build_references_from_provided.
  - apply build_references_from_forces_base.
Qed.

Example references_reset_a_mutated_backend :
  ~ at_base TrackingBackend.mutated
  /\ Backend.function
       (snd (Engine._build_references TrackingBackend.test_inputs TrackingBackend.mutated))
     = {["fn" := PStr "base"]}
  /\ compute_calls
       (Backend.history
          (snd (Engine._build_references TrackingBackend.test_inputs
                  TrackingBackend.mutated)))
     = [ (PInt 1, {["fn" := PStr "var"]}); (PInt 2, {["fn" := PStr "base"]}) ].
Proof.
  split; [|split; vm_compute; reflexivity].
  intros [_ E]. apply (f_equal (fun m : Config => m !! "fn")) in E.
  vm_compute in E. discriminate E.
Qed.

(** ** Engine.run: what a completed run reports *)

Section RunReportFacts.
Context {Sys : Type} `{Backend.Impl Sys}.

Lemma apply_hands_inputs_through (v : Variation.t) (inputs applied : list Input.t)
    (self s1 : Backend.t Sys) :
  Variation.intent v <> Variation.INPUT ->
  Variation.apply v inputs self = (Ok applied, s1) ->
  applied = inputs.
Proof.
  intros Hintent. destruct v as [name hash vary | name hash vary | name hash vary];
    [cbn in Hintent; congruence| |]; unfold Variation.apply; monad_simpl.
  - destruct (vary (Backend.function self)) as [[copied returned]|e]; cbn; congruence.
  - destruct (vary (Backend.environment self)) as [[copied returned]|e]; cbn;
      [|congruence].
    destruct (Backend.set_environment _ self) as [[[]|e] s2]; cbn; congruence.
Qed.

Lemma variation_pass_Ok (inputs : list Input.t) (total_variations variation_index : nat)
    (variation : option Variation.t) (report report' : Report.t)
    (all_slices all_slices' : list Slice.t) (self : Backend.t Sys) :
  fst (Engine.variation_pass inputs total_variations variation_index variation
         report all_slices self) = Ok (report', all_slices') ->
  exists slices : list Slice.t,
    report' = report ++ variation_entries total_variations variation_index
                          [(variation, length slices)]
    /\ all_slices' = all_slices ++ slices
    /\ pass_batch inputs variation slices.
Proof.
  intros Hok.
  assert (Hbatch : forall applied s1 slices,
             fst (Engine._run_variation applied variation s1) = Ok slices ->
             length slices = length applied
             /\ map Slice.input slices = applied
             /\ Forall (fun slice => Slice.variation slice = variation
                                     /\ Slice.meta slice = []) slices).
  { intros applied s1 slices Hrun.
    pose proof (_run_variation_slices applied variation s1 slices Hrun) as HF.
    split; [symmetry; exact (Forall2_length _ _ _ HF)|].
    clear Hrun. induction HF as [|input slice applied slices Hs _ [IHin IHvar]].
    - split; [reflexivity | constructor].
    - destruct Hs as (Hin & Hv & _ & _ & Hmeta). split.
      + cbn [map]. now rewrite Hin, IHin.
      + constructor; [split; assumption | exact IHvar]. }
  destruct variation as [v|].
  - destruct (Variation.apply v inputs self) as [[applied|e] s1] eqn:Happly.
    + rewrite (variation_pass_applied _ _ _ _ _ _ _ _ _ Happly) in Hok.
      specialize (Hbatch applied s1).
      destruct (Engine._run_variation applied (Some v) s1) as [[slices|e] s2];
        cbn [fst] in *; [|discriminate Hok].
      injection Hok as <- <-. destruct (Hbatch slices eq_refl) as (Hlen & Hin & Hvar).
      exists slices.
      unfold Report.finish_variation, Report.start_variation. rewrite <- app_assoc.
      split; [cbn; now rewrite Hlen|]. split; [reflexivity|].
      split; [|exact Hvar]. rewrite Hin.
      destruct v as [name hash vary | name hash vary | name hash vary];
        cbn [applied_inputs].
      * unfold Variation.apply in Happly. monad_simpl.
        destruct (vary inputs) as [[copied returned]|e]; [|discriminate Happly].
        injection Happly as <- _. exists copied, returned. split; reflexivity.
      * apply (apply_hands_inputs_through _ _ _ _ _) in Happly;
          [exact Happly | discriminate].
      * apply (apply_hands_inputs_through _ _ _ _ _) in Happly;
          [exact Happly | discriminate].
    + rewrite (variation_pass_not_applied _ _ _ _ _ _ _ _ _ Happly) in Hok.
      discriminate Hok.
  - rewrite variation_pass_none in Hok. specialize (Hbatch inputs self).
    destruct (Engine._run_variation inputs None self) as [[slices|e] s2];
      cbn [fst] in *; [|discriminate Hok].
    injection Hok as <- <-. destruct (Hbatch slices eq_refl) as (Hlen & Hin & Hvar).
    exists slices.
    unfold Report.finish_variation, Report.start_variation. rewrite <- app_assoc.
    split; [cbn; now rewrite Hlen|]. split; [reflexivity|].
    split; [exact Hin | exact Hvar].
Qed.

Lemma variation_passes_from_Ok (inputs : list Input.t) (total_variations : nat)
    (variations : list (option Variation.t)) :
  forall (variation_index : nat) (report report' : Report.t)
         (all_slices all_slices' : list Slice.t) (self : Backend.t Sys),
    fst (Engine.variation_passes_from inputs total_variations variation_index
           variations report all_slices self) = Ok (report', all_slices') ->
    exists batches : list (list Slice.t),
      length batches = length variations
      /\ report' = report ++ variation_entries total_variations variation_index
                              (zip variations (map (@length Slice.t) batches))
      /\ all_slices' = all_slices ++ concat batches
      /\ Forall2 (pass_batch inputs) variations batches.
Proof.
  induction variations as [|variation rest IH];
    intros variation_index report report' all_slices all_slices' self Hok.
  - cbn in Hok. injection Hok as <- <-. exists (@nil (list Slice.t)). cbn.
    rewrite !app_nil_r. repeat split. constructor.
  - cbn [Engine.variation_passes_from] in Hok. unfold bind in Hok.
    pose proof (fun r' a' => variation_pass_Ok inputs total_variations variation_index
                               variation report r' all_slices a' self) as Hpass.
    destruct (Engine.variation_pass inputs total_variations variation_index variation
                report all_slices self) as [[[report1 slices1]|e] s1];
      cbn [fst snd] in *; [|discriminate Hok].
    destruct (Hpass report1 slices1 eq_refl) as (slices & -> & -> & Hbatch).
    destruct (IH _ _ _ _ _ _ Hok) as (batches & Hlen & -> & -> & HF).
    exists (slices :: batches). cbn [length map zip zip_with variation_entries concat].
    split; [now rewrite Hlen|]. split; [now rewrite <- app_assoc|].
    split; [now rewrite <- app_assoc|]. constructor; assumption.
Qed.

Lemma check_pass_Ok (m : gmap string Slice.t) (all_slices : list Slice.t)
    (total_checks check_index : nat) (check : Check.t) (report report' : Report.t) :
  fst (Engine.check_pass m all_slices total_checks check_index check report)
    = Ok report' ->
  exists (references : list Slice.t) (outcome : Severity.t * dict),
    Engine.references_for check m all_slices = Ok references
    /\ fst (Check.evaluate check all_slices references) = Ok outcome
    /\ report' = report ++ check_entries total_checks check_index [(check, outcome)].
Proof.
  unfold Engine.check_pass. intros Hok.
  destruct (Engine.references_for check m all_slices) as [references|e];
    [|discriminate Hok].
  destruct (Check.evaluate check all_slices references)
    as [[[severity annotation]|e] calls] eqn:Heval; [|discriminate Hok].
  cbn in Hok. injection Hok as <-. exists references, (severity, annotation).
  unfold Report.finish_check, Report.start_check. rewrite <- app_assoc, Heval.
  repeat split.
Qed.

Lemma check_passes_from_Ok (m : gmap string Slice.t) (all_slices : list Slice.t)
    (total_checks : nat) (checks : list Check.t) :
  forall (check_index : nat) (report report' : Report.t),
    Engine.check_passes_from m all_slices total_checks check_index checks report
      = Ok report' ->
    exists outcomes : list (Severity.t * dict),
      length outcomes = length checks
      /\ report' = report ++ check_entries total_checks check_index (zip checks outcomes)
      /\ Forall2 (fun check outcome =>
                    exists references,
                      Engine.references_for check m all_slices = Ok references
                      /\ fst (Check.evaluate check all_slices references) = Ok outcome)
                 checks outcomes.
Proof.
  induction checks as [|check rest IH]; intros check_index report report' Hok.
  - cbn in Hok. injection Hok as <-. exists (@nil (Severity.t * dict)). cbn.
    rewrite app_nil_r. repeat split. constructor.
  - cbn [Engine.check_passes_from] in Hok.
    pose proof (fun r' => check_pass_Ok m all_slices total_checks check_index check
                            report r') as Hpass.
    destruct (fst (Engine.check_pass m all_slices total_checks check_index check report))
      as [report1|e]; [|discriminate Hok].
    destruct (Hpass report1 eq_refl) as (references & outcome & Hrefs & Heval & ->).
    destruct (IH _ _ _ Hok) as (outcomes & Hlen & -> & HF).
    exists (outcome :: outcomes). cbn [length zip zip_with].
    split; [now rewrite Hlen|]. split.
    + destruct outcome as [severity annotation]. cbn [check_entries].
      now rewrite <- app_assoc.
    + constructor; [eauto | exact HF].
Qed.

End RunReportFacts.

(** X11: a run that completes has reported, after what the report held
    before, a start and a finish for every variation in declaration
    order, then a start and a finish for every check in declaration
    order.  The passes yield one batch of slices per variation, in
    declaration order; the slices of a batch record the variation and,
    in order, the inputs the pass ran: what [vary] made of the original
    inputs for a variation with INPUT intent, the original inputs
    otherwise.  The finish of a pass carries the size of its batch, and
    the finish of a check carries what its [evaluate] answered on the
    batches laid end to end, with the references the engine looked up
    for them. *)
Theorem run_reports_in_declaration_order {Sys : Type} `{Backend.Impl Sys}
    (report : Report.t) (inputs : list Input.t)
    (variations : list (option Variation.t)) (checks : list Check.t)
    (self : Backend.t Sys) (report' : Report.t) :
  fst (Engine.run report inputs variations checks self) = Ok report' ->
  exists (m : gmap string Slice.t) (batches : list (list Slice.t))
         (outcomes : list (Severity.t * dict)),
    fst (Engine._build_references inputs self) = Ok m
    /\ length batches = length variations
    /\ length outcomes = length checks
    /\ fst (Engine.variation_passes_from inputs (length variations) 0 variations
              report [] (snd (Engine._build_references inputs self)))
       = Ok (report ++ variation_entries (length variations) 0
                         (zip variations (map (@length Slice.t) batches)),
             concat batches)
    /\ report' = report
                 ++ variation_entries (length variations) 0
                      (zip variations (map (@length Slice.t) batches))
                 ++ check_entries (length checks) 0 (zip checks outcomes)
    /\ Forall2 (pass_batch inputs) variations batches
    /\ Forall2 (fun check outcome =>
                  exists references,
                    Engine.references_for check m (concat batches) = Ok references
                    /\ fst (Check.evaluate check (concat batches) references)
                       = Ok outcome)
               checks outcomes.
Proof.
  intros Hok. unfold Engine.run, bind, lift in Hok.
  destruct (Engine._build_references inputs self) as [[m|e] s1];
    cbn [fst snd] in *; [|discriminate Hok].
  pose proof (fun r' a' => variation_passes_from_Ok inputs (length variations)
                             variations 0 report r' [] a' s1) as Hpasses.
  destruct (Engine.variation_passes_from inputs (length variations) 0 variations
              report [] s1) as [[[report1 all_slices]|e] s2];
    cbn [fst snd] in *; [|discriminate Hok].
  destruct (Hpasses report1 all_slices eq_refl) as (batches & Hlen & -> & -> & HF).
  cbn [app] in *.
  destruct (check_passes_from_Ok m (concat batches) (length checks) checks 0 _ _ Hok)
    as (outcomes & Houtcomes & -> & HC).
  exists m, batches, outcomes.
  split; [reflexivity|]. split; [exact Hlen|]. split; [exact Houtcomes|].
  split; [reflexivity|]. split; [now rewrite <- app_assoc|]. split; assumption.
Qed.

Lemma cleanup_test_run_report :
  exists (batches : list (list Slice.t)) (outcomes : list (Severity.t * dict)),
    fst (Engine.run [] TrackingBackend.test_inputs TrackingBackend.test_variations
           TrackingBackend.test_checks TrackingBackend.fresh)
    = Ok (variation_entries 2 0
            (zip TrackingBackend.test_variations (map (@length Slice.t) batches))
          ++ check_entries 1 0 (zip TrackingBackend.test_checks outcomes))
    /\ map (map Slice.input) batches
       = [TrackingBackend.test_inputs; TrackingBackend.test_inputs].
Proof.
  destruct (fst (Engine.run [] TrackingBackend.test_inputs
                   TrackingBackend.test_variations TrackingBackend.test_checks
                   TrackingBackend.fresh)) as [report'|e] eqn:Hrun.
  - destruct (run_reports_in_declaration_order _ _ _ _ _ _ Hrun)
      as (m & batches & outcomes & _ & _ & _ & _ & -> & HF & _).
    exists batches, outcomes. split; [reflexivity|].
    inversion HF as [|v1 b1 vs bs [H1 _] HF1]; subst.
    inversion HF1 as [|v2 b2 vs' bs' [H2 _] HF2]; subst.
    inversion HF2; subst.
    cbn in H1, H2. cbn [map]. now rewrite H1, H2.
  - exfalso. vm_compute in Hrun. discriminate Hrun.
Defined.

(** ** GroupCheck.evaluate: no slice is lost by the grouping *)

Section GroupingPermutationFacts.

Lemma dict_set_absent {V : Type} (k : string) (v : V) (d : list (string * V)) :
  dict_get k d = None -> dict_set k v d = d ++ [(k, v)].
Proof.
  induction d as [|[k' v'] rest IH]; cbn; [reflexivity|].
  destruct (String.eqb k k'); [discriminate|]. intros Hnone. now rewrite IH.
Qed.

Lemma dict_set_group_concat (k : string) (s : Slice.t)
    (groups : list (string * list Slice.t)) (group : list Slice.t) :
  dict_get k groups = Some group ->
  Permutation (concat (map snd (dict_set k (group ++ [s]) groups)))
              (s :: concat (map snd groups)).
Proof.
  induction groups as [|[k' g'] rest IH]; cbn; [discriminate|].
  destruct (String.eqb k k').
  - intros [= ->]. cbn. rewrite <- app_assoc. cbn.
    symmetry. apply Permutation_middle.
  - intros Hget. cbn. rewrite (IH Hget). symmetry. apply Permutation_middle.
Qed.

Lemma setdefault_append_concat (k : string) (s : Slice.t)
    (groups : list (string * list Slice.t)) :
  Permutation (concat (map snd (Check.setdefault_append k s groups)))
              (s :: concat (map snd groups)).
Proof.
  unfold Check.setdefault_append. destruct (dict_get k groups) as [group|] eqn:Hget.
  - now apply dict_set_group_concat.
  - rewrite (dict_set_absent _ _ _ Hget), map_app, concat_app. cbn.
    symmetry. apply Permutation_cons_append.
Qed.

Lemma group_fold_concat (slices : list Slice.t) :
  forall groups : list (string * list Slice.t),
    Permutation
      (concat (map snd (fold_left
                          (fun groups s =>
                             Check.setdefault_append (Slice.input_id s) s groups)
                          slices groups)))
      (concat (map snd groups) ++ slices).
Proof.
  induction slices as [|s rest IH]; intros groups; cbn [fold_left].
  - now rewrite app_nil_r.
  - rewrite IH, setdefault_append_concat. apply Permutation_cons_app. reflexivity.
Qed.

Lemma filter_split_length {A : Type} (p : A -> bool) (l : list A) :
  length (List.filter (fun x => negb (p x)) l) + length (List.filter p l) = length l.
Proof.
  induction l as [|x rest IH]; [reflexivity|]. cbn.
  destruct (p x); cbn; lia.
Qed.

End GroupingPermutationFacts.

(** X12: the grouping loop of [GroupCheck.evaluate] loses and duplicates
    no slice: the groups, laid end to end, are a permutation of the
    slices; no group is empty, every slice of a group has the group's
    input id, and no input id has two groups.  The evaluated and the
    skipped groups together are as many as there are distinct input
    ids. *)
Theorem grouping_keeps_every_slice (slices : list Slice.t) :
  Permutation (concat (map snd (Check.group_by_input_id slices))) slices
  /\ Forall (fun g => snd g <> []
                      /\ Forall (fun s => Slice.input_id s = fst g) (snd g))
            (Check.group_by_input_id slices)
  /\ List.NoDup (map fst (Check.group_by_input_id slices))
  /\ length (evaluated_groups (Check.group_by_input_id slices))
     + length (skipped_ids (Check.group_by_input_id slices))
     = length (first_occurrences (map Slice.input_id slices))
  /\ list_sum (map (fun g => length (snd g)) (Check.group_by_input_id slices))
     = length slices.
Proof.
  assert (Hperm : Permutation (concat (map snd (Check.group_by_input_id slices))) slices).
  { unfold Check.group_by_input_id. rewrite group_fold_concat. reflexivity. }
  split; [exact Hperm|]. split.
  { rewrite group_by_input_id_partition. apply Forall_forall. intros [k g] Hin.
    apply list_elem_of_In in Hin. apply partition_In in Hin as [Hk Hg].
    cbn [fst snd] in *. subst g. split; [now apply members_nonempty|].
    apply Forall_forall. intros s Hs. apply list_elem_of_In in Hs.
    apply filter_In in Hs as [_ Hs]. now apply String.eqb_eq. }
  split.
  { rewrite group_by_input_id_partition, partition_keys.
    apply first_occurrences_NoDup. }
  split.
  { unfold evaluated_groups, skipped_ids. rewrite length_map, filter_split_length.
    rewrite group_by_input_id_partition. unfold partition_by_input_id.
    now rewrite length_map. }
  rewrite <- (Permutation_length Hperm). clear Hperm.
  unfold list_sum.
  induction (Check.group_by_input_id slices) as [|[k g] rest IH]; [reflexivity|].
  cbn. rewrite length_app, IH. reflexivity.
Qed.

(** ** Slice.id *)

Section StringFacts.

Lemma chars_append (a b : string) :
  String.list_ascii_of_string (a +:+ b)
  = String.list_ascii_of_string a ++ String.list_ascii_of_string b.
Proof.
  induction a as [|c a IH]; [reflexivity|].
  change (String.list_ascii_of_string (String c a +:+ b))
    with (c :: String.list_ascii_of_string (a +:+ b)).
  now rewrite IH.
Qed.

Lemma chars_inj (a b : string) :
  String.list_ascii_of_string a = String.list_ascii_of_string b -> a = b.
Proof.
  intros E. rewrite <- (String.string_of_list_ascii_of_string a),
    <- (String.string_of_list_ascii_of_string b). now rewrite E.
Qed.

(** A common suffix can be cancelled. *)
Lemma append_inj_r (a b suffix : string) : a +:+ suffix = b +:+ suffix -> a = b.
Proof.
  intros E. apply chars_inj. apply (f_equal String.list_ascii_of_string) in E.
  rewrite !chars_append in E. exact (app_inv_tail _ _ _ E).
Qed.

Lemma last_char_append (a b : string) :
  b <> "" -> last_char (a +:+ b) = last_char b.
Proof.
  intros Hb. unfold last_char. rewrite chars_append, last_app.
  destruct (last (String.list_ascii_of_string b)) as [c|] eqn:Hlast; [reflexivity|].
  apply last_None in Hlast. exfalso. apply Hb. apply chars_inj. now rewrite Hlast.
Qed.

Lemma append_nonempty_r (a b : string) : b <> "" -> a +:+ b <> "".
Proof.
  intros Hb E. apply Hb, chars_inj. apply (f_equal String.list_ascii_of_string) in E.
  rewrite chars_append in E. cbn in E. now apply app_eq_nil in E as [_ E].
Qed.

Lemma pretty_N_char_not_e (x : N) : pretty_N_char x <> "e"%char.
Proof. unfold pretty_N_char. repeat case_match; discriminate. Qed.

(** The decimal digits written before [s] end in a digit. *)
Lemma pretty_N_go_last (x : N) :
  forall s : string,
    (0 < x)%N ->
    exists (c : Ascii.ascii) (before : list Ascii.ascii),
      c <> "e"%char
      /\ String.list_ascii_of_string (pretty_N_go x s)
         = before ++ c :: String.list_ascii_of_string s.
Proof.
  induction (N.lt_wf_0 x) as [x _ IH]. intros s Hpos.
  rewrite pretty_N_go_step by exact Hpos.
  destruct (N.eq_dec (x `div` 10) 0) as [Hzero|Hmore].
  - rewrite Hzero, pretty_N_go_0. exists (pretty_N_char (x `mod` 10)), [].
    split; [apply pretty_N_char_not_e | reflexivity].
  - destruct (IH (x `div` 10)%N) with (s := String (pretty_N_char (x `mod` 10)) s)
      as (c & before & _ & Hchars).
    + apply N.div_lt; [exact Hpos | reflexivity].
    + apply N.neq_0_lt_0. exact Hmore.
    + exists (pretty_N_char (x `mod` 10)), (before ++ [c]).
      split; [apply pretty_N_char_not_e|]. rewrite Hchars. cbn.
      now rewrite <- app_assoc.
Qed.

Lemma pretty_positive_last (p : positive) :
  exists c : Ascii.ascii, c <> "e"%char /\ last_char (pretty p) = Some c.
Proof.
  destruct (pretty_N_go_last (N.pos p) "" ltac:(lia)) as (c & before & Hc & Hchars).
  exists c. split; [exact Hc|].
  assert (Hpretty : pretty p = pretty_N_go (N.pos p) "").
  { unfold pretty, pretty_positive, pretty, pretty_N.
    destruct (decide (N.pos p = 0%N)) as [E|_]; [discriminate E | reflexivity]. }
  unfold last_char. rewrite Hpretty, Hchars. apply last_snoc.
Qed.

(** A printed integer ends in a digit. *)
Lemma pretty_Z_last (z : Z) :
  exists c : Ascii.ascii, c <> "e"%char /\ last_char (pretty z) = Some c.
Proof.
  destruct z as [|p|p]; unfold pretty, pretty_Z.
  - exists "0"%char. split; [discriminate | reflexivity].
  - apply pretty_positive_last.
  - destruct (pretty_positive_last p) as (c & Hc & Hlast). exists c.
    split; [exact Hc|]. rewrite last_char_append; [exact Hlast|].
    intros E. unfold last_char in Hlast. rewrite E in Hlast. discriminate Hlast.
Qed.

End StringFacts.

(** X13: the id of a slice tells reference slices from variation slices
    and, within one kind, input ids apart: two slices without variation
    with the same id have the same input id, as have two slices whose
    variations agree on name and hash; a slice without variation never
    shares its id with a slice that has one.  Conversely the id is fixed
    by the input id and the variation's name and hash, so the slices of
    one input under the same variation object share theirs. *)
Theorem slice_id_separates (s1 s2 : Slice.t) :
  (Slice.variation s1 = None -> Slice.variation s2 = None ->
     (Slice.id s1 = Slice.id s2 <-> Slice.input_id s1 = Slice.input_id s2))
  /\ (forall v1 v2 : Variation.t,
        Slice.variation s1 = Some v1 -> Slice.variation s2 = Some v2 ->
        Variation.name v1 = Variation.name v2 ->
        Variation.hash v1 = Variation.hash v2 ->
        (Slice.id s1 = Slice.id s2 <-> Slice.input_id s1 = Slice.input_id s2))
  /\ (forall v2 : Variation.t,
        Slice.variation s1 = None -> Slice.variation s2 = Some v2 ->
        Slice.id s1 <> Slice.id s2).
Proof.
  unfold Slice.id. split; [|split].
  - intros -> ->. split; [|now intros ->].
    intros E. apply String.app_inj in E. now apply append_inj_r in E.
  - intros v1 v2 -> -> Hname Hhash. rewrite Hname, Hhash.
    split; [|now intros ->].
    intros E. apply String.app_inj in E. now apply append_inj_r in E.
  - intros v2 -> -> E. apply (f_equal last_char) in E.
    destruct (pretty_Z_last (Variation.hash v2)) as (c & Hc & Hlast).
    assert (Hne : pretty (Variation.hash v2) <> "").
    { intros Hz. rewrite Hz in Hlast. discriminate Hlast. }
    assert (Hleft : last_char ("input-" +:+ Slice.input_id s1 +:+ "-reference")
                    = Some "e"%char).
    { rewrite !last_char_append; try reflexivity;
        repeat apply append_nonempty_r; discriminate. }
    assert (Hright : last_char ("input-" +:+ Slice.input_id s2 +:+ "-variation-"
                                +:+ Variation.name v2 +:+ "-"
                                +:+ pretty (Variation.hash v2)) = Some c).
    { rewrite !last_char_append; try exact Hlast;
        repeat apply append_nonempty_r; exact Hne. }
    rewrite Hleft, Hright in E. injection E as <-. now apply Hc.
Qed.

(** ** Specification: the inputs a document declares *)

Section LoadInputsFacts.
Variable repr_container : pyval -> string.

Lemma _section_nonempty (data : dict) (name : string) (raw : list pyval) :
  Specification._section data name = Ok raw -> raw <> [].
Proof.
  unfold Specification._section.
  destruct (is_None _); [discriminate|].
  destruct (match dict_get name data with Some v => v | None => PNone end)
    as [| | | | |[|x items]|]; intros [= <-]; discriminate.
Qed.

Lemma load_inputs_from_spec (raw : list pyval) :
  forall (i : nat) (acc inputs : list Input.t),
    Specification.load_inputs_from repr_container i raw acc = Ok inputs ->
    exists added : list Input.t,
      inputs = acc ++ added
      /\ Forall2 (fun p input =>
                    Specification.load_input repr_container (fst p) (snd p) = Ok input)
                 (zip (seq i (length raw)) raw) added.
Proof.
  induction raw as [|item rest IH]; intros i acc inputs Hok.
  - cbn in Hok. injection Hok as <-. exists (@nil Input.t).
    rewrite app_nil_r. split; [reflexivity | constructor].
  - cbn [Specification.load_inputs_from] in Hok.
    destruct (Specification.load_input repr_container i item) as [input|e] eqn:Hitem;
      [|discriminate Hok].
    destruct (IH _ _ _ Hok) as (added & -> & HF).
    exists (input :: added). split; [now rewrite <- app_assoc|].
    cbn. constructor; [exact Hitem | exact HF].
Qed.

Lemma default_ids_NoDup (n : nat) :
  List.NoDup (map (fun i => pretty (Z.of_nat i)) (seq 0 n)).
Proof.
  apply Finite.Injective_map_NoDup; [|apply List.seq_NoDup].
  intros a b E. apply (inj pretty) in E. lia.
Qed.

End LoadInputsFacts.

(** X14: the inputs loaded from a document are never an empty list and
    stand one to one, in order, for the items of its [inputs] section (a
    section that is not a list counts as one item).  An item that is not
    a dictionary becomes the data of an input whose id is its position
    and which has no reference; a dictionary item keeps its [reference]
    key exactly when it has one (also with the value [None]) and gets its
    position as id when it names none.  When no item names an id, the ids
    are the positions 0, 1, ... and pairwise different. *)
Theorem _load_inputs_follows_the_section (repr_container : pyval -> string)
    (data : dict) (inputs : list Input.t) :
  Specification._load_inputs repr_container data = Ok inputs ->
  inputs <> []
  /\ exists raw : list pyval,
       Specification._section data "inputs" = Ok raw
       /\ length inputs = length raw
       /\ (forall (i : nat) (item : pyval),
             raw !! i = Some item ->
             exists input : Input.t,
               inputs !! i = Some input
               /\ match item with
                  | PDict entries =>
                      Input.reference input = dict_get "reference" entries
                      /\ (dict_get "id" entries = None ->
                            Input.id input = pretty (Z.of_nat i))
                      /\ (forall v, dict_get "id" entries = Some (PStr v) ->
                            Input.id input = v)
                      /\ (forall v, dict_get "data" entries = Some v ->
                            Input.data input = v)
                  | _ => input = Input.mk (pretty (Z.of_nat i)) item None
                  end)
       /\ (Forall (fun item => match item with
                               | PDict entries => dict_get "id" entries = None
                               | _ => True
                               end) raw ->
             map Input.id inputs = map (fun i => pretty (Z.of_nat i)) (seq 0 (length raw))
             /\ List.NoDup (map Input.id inputs)).
Proof.
  unfold Specification._load_inputs. intros Hok.
  destruct (Specification._section data "inputs") as [raw|e] eqn:Hsection;
    [|discriminate Hok].
  pose proof (_section_nonempty _ _ _ Hsection) as Hraw.
  destruct (load_inputs_from_spec repr_container raw 0 [] inputs Hok)
    as (added & -> & HF). cbn [app] in *.
  assert (Hlen : length added = length raw).
  { rewrite <- (Forall2_length _ _ _ HF), length_zip_with, length_seq. lia. }
  assert (Hitem : forall i item, raw !! i = Some item ->
            exists input, added !! i = Some input
              /\ Specification.load_input repr_container i item = Ok input).
  { intros i item Hi.
    assert (Hz : zip (seq 0 (length raw)) raw !! i = Some (i, item)).
    { apply lookup_zip_with_Some. exists i, item. split; [reflexivity|].
      split; [|exact Hi]. apply lookup_seq. split; [reflexivity|].
      apply lookup_lt_Some in Hi. exact Hi. }
    destruct (Forall2_lookup_l _ _ _ _ _ HF Hz) as (input & Hinput & Hload).
    exists input. split; assumption. }
  split; [destruct added; [destruct raw; [congruence | discriminate Hlen] | discriminate]|].
  exists raw. split; [reflexivity|]. split; [exact Hlen|]. split.
  - intros i item Hi. destruct (Hitem i item Hi) as (input & Hinput & Hload).
    exists input. split; [exact Hinput|].
    destruct item as [| | | | | |entries]; cbn in Hload;
      try (injection Hload as <-; reflexivity).
    destruct (negb _ && _); [discriminate Hload|]. injection Hload as <-. cbn.
    split; [reflexivity|]. split; [now intros ->|].
    split; [now intros v ->|]. now intros v ->.
  - intros Hnoid.
    assert (Hids : map Input.id added
                   = map (fun i => pretty (Z.of_nat i)) (seq 0 (length raw))).
    { apply list_eq. intros i.
      change (map Input.id added) with (fmap Input.id added).
      change (map (fun i => pretty (Z.of_nat i)) (seq 0 (length raw)))
        with (fmap (fun i => pretty (Z.of_nat i)) (seq 0 (length raw))).
      rewrite !list_lookup_fmap.
      destruct (raw !! i) as [item|] eqn:Hi.
      - destruct (Hitem i item Hi) as (input & Hinput & Hload). rewrite Hinput.
        rewrite (proj2 (lookup_seq 0 (length raw) i i)
                   (conj eq_refl (lookup_lt_Some _ _ _ Hi))).
        cbn. f_equal.
        pose proof (proj1 (Forall_lookup _ _) Hnoid i item Hi) as Hno.
        destruct item as [| | | | | |entries]; cbn in Hload;
          try (injection Hload as <-; reflexivity).
        destruct (negb _ && _); [discriminate Hload|]. injection Hload as <-. cbn.
        now rewrite Hno.
      - apply lookup_ge_None in Hi.
        rewrite (proj2 (lookup_ge_None added i)) by lia.
        rewrite (proj2 (lookup_ge_None (seq 0 (length raw)) i))
          by (rewrite length_seq; lia).
        reflexivity. }
    split; [exact Hids|]. rewrite Hids. apply default_ids_NoDup.
Qed.

Lemma sample_document_inputs :
  exists inputs : list Input.t,
    Specification._load_inputs (fun _ => "") sample_document = Ok inputs
    /\ inputs <> []
    /\ map Input.id inputs = ["0"; "1"]
    /\ map Input.reference inputs = [None; Some PNone].
Proof.
  destruct (Specification._load_inputs (fun _ => "") sample_document)
    as [inputs|e] eqn:Hload.
  - exists inputs. split; [reflexivity|].
    destruct (_load_inputs_follows_the_section _ _ _ Hload) as (Hne & _).
    split; [exact Hne|]. vm_compute in Hload. injection Hload as <-.
    split; reflexivity.
  - exfalso. vm_compute in Hload. discriminate Hload.
Defined.

(** ** A run over the inputs of a document *)

(** X15: for the inputs loaded from a document, a run that completes ends
    with the current function configuration equal to the base one,
    whatever the variations and checks, provided the backend was in its
    base configuration before or at least one input has to be executed
    for its reference; in the latter case the run recovers from any state
    an earlier, failed run left behind.  The environment ends equal to
    the base one too when the backend's [update_environment] does not
    write [self.environment].  The loader rules out the empty input list
    for which this fails. *)
Theorem loaded_run_ends_at_base {Sys : Type} `{Backend.Impl Sys}
    (repr_container : pyval -> string) (data : dict) (inputs : list Input.t)
    (report : Report.t) (variations : list (option Variation.t))
    (checks : list Check.t) (self : Backend.t Sys) :
  Specification._load_inputs repr_container data = Ok inputs ->
  at_base self \/ existsb needs_run inputs = true ->
  is_Ok (fst (Engine.run report inputs variations checks self)) = true ->
  Backend.function (snd (Engine.run report inputs variations checks self))
    = Backend._base_function (snd (Engine.run report inputs variations checks self))
  /\ (@Backend.keeps_environment Sys _ ->
      at_base (snd (Engine.run report inputs variations checks self))).
Proof.
  intros Hload Hstart Hok.
  assert (Hne : inputs <> []).
  { unfold Specification._load_inputs in Hload.
    destruct (Specification._section data "inputs") as [raw|e] eqn:Hsection;
      [|discriminate Hload].
    pose proof (_section_nonempty _ _ _ Hsection) as Hraw.
    destruct (load_inputs_from_spec repr_container raw 0 [] inputs Hload)
      as (added & -> & HF). cbn [app].
    apply Forall2_length in HF. rewrite length_zip_with, length_seq in HF.
    destruct added; [destruct raw; [congruence | cbn in HF; lia] | discriminate]. }
  unfold Engine.run, Engine._build_references, bind, lift in *.
  assert (Hrefs : is_Ok (fst (Engine.build_references_from inputs ∅ self)) = true ->
                  Backend.function (snd (Engine.build_references_from inputs ∅ self))
                  = Backend._base_function
                      (snd (Engine.build_references_from inputs ∅ self))
                  /\ (@Backend.keeps_environment Sys _ ->
                      at_base (snd (Engine.build_references_from inputs ∅ self)))).
  { intros Hdone. destruct Hstart as [Hbase|Hrun].
    - destruct (build_references_from_spec inputs ∅ self) as (_ & _ & [Hfn Hkeep] & _).
      split; [exact (Hfn (proj2 Hbase)) | intros Hkeeps; exact (Hkeep Hkeeps Hbase)].
    - exact (build_references_from_forces_base inputs ∅ self Hrun Hdone). }
  destruct (Engine.build_references_from inputs ∅ self) as [[references|e] s1];
    cbn [fst snd is_Ok] in *; [|discriminate Hok].
  destruct (Hrefs eq_refl) as [Hfn1 Hbase1].
  pose proof (variation_passes_from_at_base inputs (length variations) variations 0
                report [] s1 Hfn1 (or_introl Hne)) as Hpasses.
  cbn zeta in Hpasses.
  destruct (Engine.variation_passes_from inputs (length variations) 0 variations
              report [] s1) as [[r|e] s2]; cbn [fst snd is_Ok] in *;
    [|discriminate Hok].
  destruct (Hpasses eq_refl) as [Hfn2 Henv2].
  split; [exact Hfn2|]. intros Hkeeps.
  split; [exact (Henv2 Hkeeps (proj1 (Hbase1 Hkeeps))) | exact Hfn2].
Qed.

Lemma sample_document_run_recovers_base :
  exists inputs : list Input.t,
    Specification._load_inputs (fun _ => "") sample_document = Ok inputs
    /\ ~ at_base TrackingBackend.mutated
    /\ at_base (snd (Engine.run [] inputs [Some (TrackingBackend.SetFn "var"); None] []
                       TrackingBackend.mutated)).
Proof.
  exists [Input.mk "0" (PInt 5) None; Input.mk "1" (PInt 1) (Some PNone)].
  split; [vm_compute; reflexivity|]. split.
  - intros [_ E]. apply (f_equal (fun m : Config => m !! "fn")) in E.
    vm_compute in E. discriminate E.
  - assert (Hload : Specification._load_inputs (fun _ => "") sample_document
                    = Ok [Input.mk "0" (PInt 5) None; Input.mk "1" (PInt 1) (Some PNone)])
      by (vm_compute; reflexivity).
    assert (Hok : is_Ok (fst (Engine.run []
                                [Input.mk "0" (PInt 5) None;
                                 Input.mk "1" (PInt 1) (Some PNone)]
                                [Some (TrackingBackend.SetFn "var"); None] []
                                TrackingBackend.mutated)) = true)
      by (vm_compute; reflexivity).
    exact (proj2 (loaded_run_ends_at_base (fun _ => "") sample_document
                    [Input.mk "0" (PInt 5) None; Input.mk "1" (PInt 1) (Some PNone)]
                    [] [Some (TrackingBackend.SetFn "var"); None] []
                    TrackingBackend.mutated Hload (or_intror eq_refl) Hok)
                 (fun cfg self => eq_refl)).
Defined.

(** ** The built-in check [Summary] *)

Lemma dict_get_absent_key {V : Type} (k : string) (d : list (string * V)) :
  ~ In k (dict_keys d) -> dict_get k d = None.
Proof.
  induction d as [|[k' v] rest IH]; intros Hk; [reflexivity|].
  cbn in *. destruct (String.eqb_spec k k') as [->|Hne]; [tauto|].
  apply IH. tauto.
Qed.

Lemma dict_update_fresh {V : Type} (other : list (string * V)) :
  forall d : list (string * V),
    List.NoDup (dict_keys (d ++ other)) -> dict_update d other = d ++ other.
Proof.
  unfold dict_update, dict_keys.
  induction other as [|[k v] rest IH]; intros d Hnodup; cbn.
  - now rewrite app_nil_r.
  - rewrite dict_set_absent.
    + rewrite IH; rewrite <- app_assoc; [reflexivity | exact Hnodup].
    + apply dict_get_absent_key. unfold dict_keys.
      rewrite map_app in Hnodup. cbn in Hnodup.
      apply List.NoDup_remove_2 in Hnodup. rewrite in_app_iff in Hnodup.
      tauto.
Qed.

Lemma unary_loop_never_raises (check : Slice.t -> Check.outcome)
    (slices : list Slice.t) :
  (forall slice, is_Ok (check slice) = true) ->
  forall (severities : list Severity.t) (result_ : dict) (calls : list Check.Call),
    is_Ok (fst (Check.unary_loop check slices severities result_ calls)) = true.
Proof.
  intros Hcheck. induction slices as [|slice rest IH]; intros severities result_ calls.
  - reflexivity.
  - cbn [Check.unary_loop]. specialize (Hcheck slice).
    destruct (check slice) as [[severity annotation]|e]; [apply IH | discriminate].
Qed.

Lemma slice_to_prefix {A : Type} (n : Z) (items : list A) :
  exists dropped : list A,
    items = Summary.slice_to n items ++ dropped
    /\ Z.of_nat (length (Summary.slice_to n items))
       = Z.min (Z.of_nat (length items))
               (Z.max 0 (if (0 <=? n)%Z then n else Z.of_nat (length items) + n)).
Proof.
  unfold Summary.slice_to. destruct (Z.leb_spec 0 n) as [Hn|Hn].
  - exists (drop (Z.to_nat n) items). split; [now rewrite take_drop|].
    rewrite length_take. lia.
  - exists (drop (length items - Z.to_nat (- n)) items).
    split; [now rewrite take_drop|]. rewrite length_take. lia.
Qed.

(** X16: the built-in [Summary] check never raises and never reports
    more than INFO, so its evaluation over a non-empty list of slices
    always completes with severity INFO, one [check] per slice and one
    annotation entry per slice id.  Its [truncated] flag is true exactly
    when [max_items] is set and the output is a dictionary, also when no
    entry was cut; the recorded output is then a prefix of the entries
    (the first [max_items], or all but the last [-max_items] for a
    negative value), and otherwise the output itself. *)
Theorem summary_is_info_and_flags_truncation (max_items : option Z) :
  (forall slice : Slice.t,
      exists (out : pyval) (truncated : bool),
        Summary.check max_items slice
        = Ok (Severity.INFO,
              Some [ ("slice_id", PStr (Slice.id slice));
                     ("output", out);
                     ("truncated", PBool truncated) ])
        /\ (truncated = true <->
              is_Some max_items
              /\ exists entries, Slice.output slice = PDict entries)
        /\ (truncated = false -> out = Slice.output slice)
        /\ (forall (n : Z) (entries : dict),
              max_items = Some n ->
              Slice.output slice = PDict entries ->
              List.NoDup (dict_keys entries) ->
              exists kept dropped : dict,
                out = PDict kept
                /\ entries = kept ++ dropped
                /\ Z.of_nat (length kept)
                   = Z.min (Z.of_nat (length entries))
                           (Z.max 0 (if (0 <=? n)%Z then n
                                     else Z.of_nat (length entries) + n))
                /\ ((Z.of_nat (length entries) <= n)%Z ->
                      out = Slice.output slice)))
  /\ (forall slices references : list Slice.t,
        slices <> [] ->
        exists annotation : dict,
          Check.evaluate (Summary.new max_items) slices references
          = (Ok (Severity.INFO, annotation), map call_of_slice slices)
          /\ forall key : string,
               In key (dict_keys annotation) <-> In key (map Slice.id slices)).
Proof.
  split.
  - intros slice. unfold Summary.check.
    destruct max_items as [n|].
    + destruct (Slice.output slice) as [| | | | | |entries] eqn:Hout; cbn [Summary.truncate];
        try (eexists _, false; split; [reflexivity|];
             split; [split; [discriminate | intros (_ & entries & [=])]|];
             split; [reflexivity | intros ? ? _ [=]]).
      eexists _, true. split; [reflexivity|].
      split; [split; [intros _; split; [eexists; reflexivity | eexists; reflexivity]
                     | reflexivity]|].
      split; [discriminate|].
      intros n' entries' [= <-] [= <-] Hnodup.
      destruct (slice_to_prefix n entries) as (dropped & Hsplit & Hlen).
      assert (Hkeys : List.NoDup (dict_keys (Summary.slice_to n entries))).
      { unfold dict_keys in *. rewrite Hsplit, map_app in Hnodup.
        exact (List.NoDup_app_remove_r _ _ Hnodup). }
      exists (Summary.slice_to n entries), dropped.
      rewrite (dict_update_fresh (Summary.slice_to n entries) [] Hkeys). cbn [app].
      split; [reflexivity|]. split; [exact Hsplit|]. split; [exact Hlen|].
      intros Hall. f_equal. unfold Summary.slice_to.
      destruct (Z.leb_spec 0 n); [|lia]. apply take_ge. lia.
    + exists (Slice.output slice), false. split; [reflexivity|].
      split; [split; [discriminate | intros ([? [=]] & _)]|].
      split; [reflexivity | intros ? ? [=]].
  - intros slices references Hne. unfold Summary.new, Check.evaluate.
    rewrite (unary_evaluate_nonempty _ _ _ Hne).
    assert (Hcheck : forall slice, is_Ok (Summary.check max_items slice) = true).
    { intros slice. unfold Summary.check.
      destruct max_items as [n|]; [destruct (Summary.truncate n _)|]; reflexivity. }
    pose proof (unary_loop_never_raises (Summary.check max_items) slices
                  Hcheck [] [] []) as Htotal.
    pose proof (unary_loop_Ok (Summary.check max_items) slices [] [] []) as Hloop.
    destruct (Check.unary_loop (Summary.check max_items) slices [] [] [])
      as [[[severities result_]|e] calls]; cbn [fst snd is_Ok] in *;
      [|discriminate Htotal].
    destruct (Hloop _ _ eq_refl) as (-> & outs & Houts & -> & ->). cbn [app].
    exists (annotate (zip (map Slice.id slices) outs) []). split.
    + f_equal. f_equal. f_equal.
      assert (Hinfo : Forall (fun s => s = Severity.INFO) (map fst outs)).
      { clear -Houts. induction Houts as [|slice o ? ? Ho _ IH]; [constructor|].
        cbn. constructor; [|exact IH].
        unfold Summary.check in Ho.
        destruct max_items as [n|]; [destruct (Summary.truncate n _)|];
          injection Ho as <-; reflexivity. }
      assert (Hnonempty : map fst outs <> []).
      { destruct Houts; [congruence | discriminate]. }
      exact (proj1 (List.Forall_forall _ _) Hinfo _ (merge_In _ Hnonempty)).
    + intros key. rewrite annotate_keys. cbn [dict_keys map].
      rewrite (zip_keys_fst (map Slice.id slices) outs)
        by (rewrite length_map; exact (Forall2_length _ _ _ Houts)).
      cbn [In]. tauto.
Qed.

(** ** Specification: the components a document declares *)

Lemma extend_all_Ok {A : Type} (f : pyval -> result (list A)) (blocks : list pyval) :
  forall acc r : list A,
    Specification.extend_all f blocks acc = Ok r <->
    exists parts : list (list A),
      Forall2 (fun b p => f b = Ok p) blocks parts /\ r = acc ++ concat parts.
Proof.
  induction blocks as [|b rest IH]; intros acc r; cbn [Specification.extend_all].
  - split.
    + intros [= <-]. exists (@nil (list A)). split; [constructor|].
      now rewrite app_nil_r.
    + intros (parts & HF & ->). inversion HF; subst. cbn. now rewrite app_nil_r.
  - destruct (f b) as [items|e] eqn:Hb.
    + rewrite IH. split.
      * intros (parts & HF & ->). exists (items :: parts).
        split; [constructor; assumption|]. cbn. now rewrite app_assoc.
      * intros (parts & HF & ->). inversion HF as [|? p ? parts' Hp HF']; subst.
        rewrite Hb in Hp. injection Hp as <-.
        exists parts'. split; [exact HF'|]. cbn. now rewrite app_assoc.
    + split; [discriminate|]. intros (parts & HF & _).
      inversion HF as [|? p ? parts' Hp HF']; subst. congruence.
Qed.

Lemma extend_all_ext {A : Type} (f g : pyval -> result (list A)) (blocks : list pyval) :
  (forall b, In b blocks -> f b = g b) ->
  forall acc, Specification.extend_all f blocks acc = Specification.extend_all g blocks acc.
Proof.
  induction blocks as [|b rest IH]; intros Hfg acc; [reflexivity|].
  cbn [Specification.extend_all]. rewrite <- (Hfg b (or_introl eq_refl)).
  destruct (f b); [|reflexivity]. apply IH. intros b' Hb'. apply Hfg. now right.
Qed.

Lemma list_max_In (n : nat) (l : list nat) : In n l -> n <= list_max l.
Proof.
  induction l as [|m l IH]; intros Hin; [destruct Hin|].
  change (list_max (m :: l)) with (Nat.max m (list_max l)).
  destruct Hin as [->|Hin]; [lia|]. specialize (IH Hin). lia.
Qed.

Lemma depth_item (b : pyval) (items : list pyval) :
  In b items -> depth b < depth (PList items).
Proof.
  intros Hin. cbn [depth]. apply Nat.lt_succ_r, list_max_In.
  apply in_map_iff. exists b. split; [reflexivity | exact Hin].
Qed.

Lemma depth_entry (k : string) (v : pyval) (entries : dict) :
  dict_get k entries = Some v -> depth v < depth (PDict entries).
Proof.
  intros Hget. cbn [depth]. apply Nat.lt_succ_r, list_max_In.
  induction entries as [|[k' v'] rest IH]; [discriminate Hget|].
  cbn in *. destruct (String.eqb k k').
  - injection Hget as ->. now left.
  - right. exact (IH Hget).
Qed.

Lemma depth_positive (v : pyval) : 0 < depth v.
Proof. destruct v; cbn; lia. Qed.

Section ComponentFacts.
Variable repr : pyval -> string.
Variable int_of_str : string -> result Z.
Variable _load_variation : dict -> result Variation.t.

Lemma resolve_enough (limit : nat) :
  forall (entry : pyval) (limit' : nat),
    depth entry <= limit -> limit <= limit' ->
    Specification.resolve repr int_of_str _load_variation limit' entry
    = Specification.resolve repr int_of_str _load_variation limit entry.
Proof.
  induction limit as [|limit IH]; intros entry limit' Hdepth Hle.
  - pose proof (depth_positive entry). lia.
  - destruct limit' as [|limit']; [lia|]. cbn [Specification.resolve].
    destruct entry as [| | | | | |entries]; try reflexivity.
    destruct (dict_get "type" entries) as [t|]; [|reflexivity].
    destruct (Specification.is_str t "repeat"); [|reflexivity].
    destruct (Specification.py_int _ _) as [times|e]; [|reflexivity].
    destruct (times <? 0)%Z; [reflexivity|].
    destruct (dict_get "do" entries) as [[| | | | |[|b bs]|]|] eqn:Hdo; try reflexivity.
    rewrite (extend_all_ext
               (Specification.resolve repr int_of_str _load_variation limit')
               (Specification.resolve repr int_of_str _load_variation limit)
               (b :: bs)); [reflexivity|].
    intros b' Hb'. apply IH; [|lia].
    pose proof (depth_item b' (b :: bs) Hb').
    pose proof (depth_entry "do" _ _ Hdo). lia.
Qed.

Lemma resolve_repeat (limit : nat) (entries : dict) (times : Z) (do : list pyval) :
  dict_get "type" entries = Some (PStr "repeat") ->
  Specification.py_int int_of_str
    (match dict_get "times" entries with
     | Some v => v
     | None => PInt 1
     end) = Ok times ->
  dict_get "do" entries = Some (PList do) ->
  Specification.resolve repr int_of_str _load_variation (S limit) (PDict entries)
  = if (times <? 0)%Z
    then Raise (ValueError "repeat.times must be > 0")
    else match do with
         | [] => Raise (ValueError "repeat.do must be a non-empty list")
         | _ => match Specification.extend_all
                        (Specification.resolve repr int_of_str _load_variation limit)
                        do [] with
                | Raise e => Raise e
                | Ok inner => Ok (Specification.times_list inner times)
                end
         end.
Proof.
  intros Htype Hint Hdo. cbn [Specification.resolve]. rewrite Htype.
  cbn [Specification.is_str]. change (String.eqb "repeat" "repeat") with true.
  cbv iota. rewrite Hint, Hdo. destruct (times <? 0)%Z; [reflexivity|].
  destruct do; reflexivity.
Qed.

End ComponentFacts.

(** X17: the variations loaded from a document are never an empty list:
    they are the resolutions of the blocks of the [variations] section
    laid end to end, or the single baseline entry [None] when every
    block resolved to nothing.  A [repeat] block resolves to the
    resolution of its [do] list taken [int(times)] times ([times]
    defaulting to 1).  It is refused, before [do] is looked at, when
    [int(times)] raises or is negative; a [times] that [int] takes to 0,
    such as 0 or the float -0.5, is accepted and resolves to nothing, so
    that a document whose only block is such a [repeat] runs the baseline
    alone.  A recursion limit of the nesting depth of an entry is enough:
    a larger one changes no result. *)
Theorem _load_variations_never_empty (repr : pyval -> string)
    (int_of_str : string -> result Z) (_load_variation : dict -> result Variation.t) :
  let resolve := Specification.resolve repr int_of_str _load_variation in
  let _load_variations :=
    Specification._load_variations repr int_of_str _load_variation in
  (forall (limit : nat) (data : dict) (variations : list (option Variation.t)),
      _load_variations limit data = Ok variations ->
      variations <> []
      /\ exists (raw : list pyval) (parts : list (list (option Variation.t))),
           Specification._section data "variations" = Ok raw
           /\ Forall2 (fun block part => resolve limit block = Ok part) raw parts
           /\ variations = match concat parts with
                           | [] => [None]
                           | resolved => resolved
                           end)
  /\ (forall (limit : nat) (entries : dict) (e : exn),
        dict_get "type" entries = Some (PStr "repeat") ->
        Specification.py_int int_of_str
          (match dict_get "times" entries with
           | Some v => v
           | None => PInt 1
           end) = Raise e ->
        resolve (S limit) (PDict entries) = Raise e)
  /\ (forall (limit : nat) (do : list pyval) (inner : list (option Variation.t)),
        do <> [] ->
        Specification.extend_all (resolve limit) do [] = Ok inner ->
        resolve (S limit)
          (PDict [("type", PStr "repeat");
                  ("times", PFloat (S754_finite true 1 (-1)));
                  ("do", PList do)])
        = Ok [])
  /\ (forall (limit : nat) (entries : dict) (times : Z) (do : list pyval)
             (inner : list (option Variation.t)),
        dict_get "type" entries = Some (PStr "repeat") ->
        Specification.py_int int_of_str
          (match dict_get "times" entries with
           | Some v => v
           | None => PInt 1
           end) = Ok times ->
        dict_get "do" entries = Some (PList do) ->
        ((times < 0)%Z ->
           resolve (S limit) (PDict entries)
           = Raise (ValueError "repeat.times must be > 0"))
        /\ ((0 <= times)%Z -> do = [] ->
              resolve (S limit) (PDict entries)
              = Raise (ValueError "repeat.do must be a non-empty list"))
        /\ ((0 <= times)%Z -> do <> [] ->
              Specification.extend_all (resolve limit) do [] = Ok inner ->
              resolve (S limit) (PDict entries)
              = Ok (Specification.times_list inner times)
              /\ length (Specification.times_list inner times)
                 = Z.to_nat times * length inner
              /\ (times = 0%Z ->
                    resolve (S limit) (PDict entries) = Ok []
                    /\ _load_variations (S limit) [("variations", PDict entries)]
                       = Ok [None])))
  /\ (forall (entry : pyval) (limit : nat),
        depth entry <= limit ->
        resolve limit entry = resolve (depth entry) entry).
Proof.
  intros resolve _load_variations. split; [|split; [|split; [|split]]].
  - intros limit data variations Hok.
    unfold _load_variations, Specification._load_variations in Hok.
    destruct (Specification._section data "variations") as [raw|e]; [|discriminate Hok].
    destruct (Specification.extend_all _ raw []) as [resolved|e] eqn:Hall;
      [|discriminate Hok].
    apply extend_all_Ok in Hall. destruct Hall as (parts & HF & ->). cbn [app] in Hok.
    split.
    + destruct (concat parts); injection Hok as <-; discriminate.
    + exists raw, parts. split; [reflexivity|]. split; [exact HF|].
      destruct (concat parts); injection Hok as <-; reflexivity.
  - intros limit entries e Htype Hint. unfold resolve.
    cbn [Specification.resolve]. rewrite Htype.
    cbn [Specification.is_str]. change (String.eqb "repeat" "repeat") with true.
    cbv iota. rewrite Hint. reflexivity.
  - intros limit do inner Hne Hinner. unfold resolve in *.
    rewrite (resolve_repeat repr int_of_str _load_variation limit
               [("type", PStr "repeat");
                ("times", PFloat (S754_finite true 1 (-1)));
                ("do", PList do)] 0 do eq_refl eq_refl eq_refl).
    change (0 <? 0)%Z with false. cbv iota. rewrite Hinner.
    destruct do; [congruence | reflexivity].
  - intros limit entries times do inner Htype Hint Hdo.
    pose proof (resolve_repeat repr int_of_str _load_variation limit entries times do
                  Htype Hint Hdo) as Hstep.
    fold resolve in Hstep.
    split; [|split].
    + intros Hneg. rewrite Hstep. now rewrite (proj2 (Z.ltb_lt times 0) Hneg).
    + intros Hpos ->. rewrite Hstep. now rewrite (proj2 (Z.ltb_ge times 0) Hpos).
    + intros Hpos Hne Hinner.
      assert (Hres : resolve (S limit) (PDict entries)
                     = Ok (Specification.times_list inner times)).
      { rewrite Hstep, (proj2 (Z.ltb_ge times 0) Hpos), Hinner.
        destruct do; [congruence | reflexivity]. }
      split; [exact Hres|]. split.
      * unfold Specification.times_list.
        induction (Z.to_nat times) as [|n IHn]; [reflexivity|].
        cbn. rewrite length_app, IHn. lia.
      * intros ->. split; [exact Hres|].
        unfold _load_variations, Specification._load_variations.
        cbn [Specification._section dict_get]. cbn.
        fold resolve. cbn in Hres. rewrite Hres. reflexivity.
  - intros entry limit Hle. unfold resolve.
    apply (resolve_enough repr int_of_str _load_variation (depth entry));
      [lia | exact Hle].
Qed.

Example repeat_blocks_resolve (repr : pyval -> string) (int_of_str : string -> result Z)
    (_load_variation : dict -> result Variation.t) :
  Specification._load_variations repr int_of_str _load_variation 3
    [("variations", repeat_block 0 [PStr "none"])] = Ok [None]
  /\ Specification._load_variations repr int_of_str _load_variation 3
       [("variations", PList [repeat_block 2 [PNone; repeat_block 2 [PStr "none"]]])]
     = Ok [None; None; None; None; None; None]
  /\ Specification._load_variations repr int_of_str _load_variation 2
       [("variations", PList [repeat_block 2 [PNone; repeat_block 2 [PStr "none"]]])]
     = Raise (RuntimeError "maximum recursion depth exceeded")
  /\ Specification._load_variations repr int_of_str _load_variation 3
       [("variations", repeat_block (-1) [])]
     = Raise (ValueError "repeat.times must be > 0").
Proof. repeat split; reflexivity. Qed.

Lemma load_checks_from_spec (repr : pyval -> string)
    (_load_check : dict -> result Check.t) (raw : list pyval) :
  forall acc checks : list Check.t,
    Specification.load_checks_from repr _load_check raw acc = Ok checks ->
    exists added : list Check.t,
      checks = acc ++ added
      /\ Forall2 (fun block check =>
                    Specification.load_check repr _load_check block = Ok check)
                 raw added.
Proof.
  induction raw as [|block rest IH]; intros acc checks Hok.
  - cbn in Hok. injection Hok as <-. exists (@nil Check.t).
    rewrite app_nil_r. split; [reflexivity | constructor].
  - cbn [Specification.load_checks_from] in Hok.
    destruct (Specification.load_check repr _load_check block) as [check|e] eqn:Hblock;
      [|discriminate Hok].
    destruct (IH _ _ Hok) as (added & -> & HF).
    exists (check :: added). split; [now rewrite <- app_assoc|].
    constructor; assumption.
Qed.

(** X18: the checks loaded from a document are never an empty list and
    stand one to one, in order, for the blocks of the [checks] section;
    each block is a name or a dictionary with a [type] key, handed to the
    component loader as a block with that type, and the check is what the
    loader answered.  Unlike a variation block, [None] is no check: it is
    refused as an invalid entry, as is every other block. *)
Theorem _load_checks_one_per_block (repr : pyval -> string)
    (_load_check : dict -> result Check.t) :
  (forall (data : dict) (checks : list Check.t),
      Specification._load_checks repr _load_check data = Ok checks ->
      checks <> []
      /\ exists raw : list pyval,
           Specification._section data "checks" = Ok raw
           /\ length checks = length raw
           /\ Forall2 (fun block check =>
                         exists entries : dict,
                           (block = PDict entries \/
                            exists name, block = PStr name
                                         /\ entries = [("type", PStr name)])
                           /\ is_Some (dict_get "type" entries)
                           /\ _load_check entries = Ok check)
                      raw checks)
  /\ (forall (data : dict) (raw : list pyval) (block : pyval),
        Specification._section data "checks" = Ok raw ->
        In block raw ->
        match block with
        | PStr _ => False
        | PDict entries => dict_get "type" entries = None
        | _ => True
        end ->
        exists e, Specification._load_checks repr _load_check data = Raise e).
Proof.
  split.
  - intros data checks Hok. unfold Specification._load_checks in Hok.
    destruct (Specification._section data "checks") as [raw|e] eqn:Hsection;
      [|discriminate Hok].
    pose proof (_section_nonempty _ _ _ Hsection) as Hraw.
    destruct (load_checks_from_spec repr _load_check raw [] checks Hok)
      as (added & -> & HF). cbn [app].
    pose proof (Forall2_length _ _ _ HF) as Hlen.
    split; [destruct added; [destruct raw; [congruence | discriminate Hlen]
                            | discriminate]|].
    exists raw. split; [reflexivity|]. split; [now symmetry|].
    eapply Forall2_impl; [exact HF|]. intros block check Hblock.
    destruct block as [| | | |name|items|entries]; cbn in Hblock; try discriminate Hblock.
    + exists [("type", PStr name)]. split; [right; exists name; split; reflexivity|].
      split; [eexists; reflexivity | exact Hblock].
    + exists entries. split; [now left|].
      destruct (dict_get "type" entries) as [t|]; [|discriminate Hblock].
      split; [eexists; reflexivity | exact Hblock].
  - intros data raw block Hsection Hin Hbad.
    unfold Specification._load_checks. rewrite Hsection.
    destruct (Specification.load_checks_from repr _load_check raw []) as [checks|e] eqn:Hok;
      [|eexists; reflexivity].
    exfalso. destruct (load_checks_from_spec repr _load_check raw [] checks Hok)
      as (added & _ & HF).
    apply list_elem_of_In, list_elem_of_lookup in Hin. destruct Hin as (i & Hi).
    destruct (Forall2_lookup_l _ _ _ _ _ HF Hi) as (check & _ & Hblock).
    destruct block as [| | | |name|items|entries]; cbn in Hblock; try discriminate Hblock.
    + exact Hbad.
    + rewrite Hbad in Hblock. discriminate Hblock.
Qed.
